(** * shenfun: spectral bases, tensor-product spaces and boundary values

    A shallow embedding of the parts of [shenfun/spectralbase.py],
    [shenfun/fourier/bases.py], [shenfun/legendre/bases.py] and
    [shenfun/tensorproductspace.py] that decide the properties stated at the
    end of this file.

    Conventions.
    - A Python exception is a [Raise e] result; every function that can raise
      returns a [result].
    - Floating point numbers are read as rationals ([Q]); a complex number is a
      pair of rationals ([Cx]).  Only comparisons with zero, sums, products and
      the projections [.real]/[.imag] are used.
    - A numpy array is its shape together with the function from index tuples
      to entries ([ndarray]).  Basic indexing, in-place updates and
      broadcasting are written out on that representation.
    - Collaborators outside the repository (the FFT back end, the pencil
      decomposition and its transposes, sympy's [lambdify], mass matrices and
      their solvers, Python's string hash) are Section variables. *)

From Stdlib Require Import String ZArith QArith Qround List Bool Lia.
From Stdlib Require Import Permutation FinFun.
Import ListNotations.
Local Open Scope Z_scope.

(** ** Python exceptions and results *)

Inductive exn : Type :=
| AssertionError
| ValueError
| IndexError
| TypeError
| AttributeError
| UnboundLocalError
| NotImplementedError.

Inductive result (A : Type) : Type :=
| Ok (a : A)
| Raise (e : exn).
Arguments Ok {A} a.
Arguments Raise {A} e.

Definition bind {A B : Type} (m : result A) (k : A -> result B) : result B :=
  match m with
  | Ok a => k a
  | Raise e => Raise e
  end.

Notation "x <- m ;; k" := (bind m (fun x => k))
  (at level 61, m at next level, right associativity).
Notation "' p <- m ;; k" := (bind m (fun p => k))
  (at level 61, p pattern, m at next level, right associativity).

(** [assert c] *)
Definition assert (c : bool) : result unit :=
  if c then Ok tt else Raise AssertionError.

Definition is_ok {A : Type} (m : result A) : bool :=
  match m with Ok _ => true | Raise _ => false end.

(** ** Numbers *)

Record Cx : Type := mkCx { re : Q; im : Q }.

Definition Cx_of_Q (q : Q) : Cx := mkCx q 0.
Definition C0 : Cx := mkCx 0 0.
Definition Cadd (a b : Cx) : Cx := mkCx (re a + re b) (im a + im b).
Definition Csub (a b : Cx) : Cx := mkCx (re a - re b) (im a - im b).
Definition Cmul (a b : Cx) : Cx :=
  mkCx (re a * re b - im a * im b) (re a * im b + im a * re b).

(** [z.real] stored back into a complex array *)
Definition Creal (a : Cx) : Cx := mkCx (re a) 0.

(** [z == 0] on numbers *)
Definition Cis_zero (a : Cx) : bool := Qeq_bool (re a) 0 && Qeq_bool (im a) 0.

(** numeric equality of two complex numbers (used in statements only) *)
Definition Ceq (a b : Cx) : Prop := (re a == re b)%Q /\ (im a == im b)%Q.

(** ** List helpers for index tuples *)

Fixpoint remove_at {A : Type} (n : nat) (l : list A) : list A :=
  match n, l with
  | _, [] => []
  | O, _ :: t => t
  | S n', h :: t => h :: remove_at n' t
  end.

Fixpoint insert_at {A : Type} (n : nat) (x : A) (l : list A) : list A :=
  match n, l with
  | O, _ => x :: l
  | S n', [] => [x]
  | S n', h :: t => h :: insert_at n' x t
  end.

Fixpoint replace_at {A : Type} (n : nat) (x : A) (l : list A) : list A :=
  match n, l with
  | _, [] => []
  | O, _ :: t => x :: t
  | S n', h :: t => h :: replace_at n' x t
  end.

Definition zprod (l : list Z) : Z := fold_right Z.mul 1 l.

Fixpoint list_eqb {A : Type} (eqb : A -> A -> bool) (l1 l2 : list A) : bool :=
  match l1, l2 with
  | [], [] => true
  | x :: t1, y :: t2 => eqb x y && list_eqb eqb t1 t2
  | _, _ => false
  end.

Definition shape_eqb : list Z -> list Z -> bool := list_eqb Z.eqb.

(** ** numpy arrays *)

Record ndarray : Type := mkArr { shape : list Z; item : list Z -> Cx }.

Definition ndim (a : ndarray) : nat := length (shape a).
Definition size (a : ndarray) : Z := zprod (shape a).

(** [np.zeros(shape)] *)
Definition zeros (s : list Z) : ndarray := mkArr s (fun _ => C0).

(** A basic index that fixes one axis: [s = [slice(None)]*ndim; s[axis] = k].
    The plain integers [0], [1], [-1], [-2] are the case [axis = 0]. *)
Record axis_index : Type := mkIdx { idx_axis : nat; idx_pos : Z }.

(** Python's treatment of an integer index [k] on an axis of length [n] *)
Definition resolve_index (n k : Z) : result Z :=
  let k' := if k <? 0 then k + n else k in
  if (0 <=? k') && (k' <? n) then Ok k' else Raise IndexError.

(** the axis length seen by [u[s]]; more indices than dimensions is an
    [IndexError] *)
Definition axis_len (u : ndarray) (ax : nat) : result Z :=
  match nth_error (shape u) ax with
  | Some n => Ok n
  | None => Raise IndexError
  end.

(** [u[s]] for [s] an [axis_index]: the sub-array with that axis removed *)
Definition getitem (u : ndarray) (s : axis_index) : result ndarray :=
  n <- axis_len u (idx_axis s) ;;
  k <- resolve_index n (idx_pos s) ;;
  Ok (mkArr (remove_at (idx_axis s) (shape u))
            (fun i => item u (insert_at (idx_axis s) k i))).

(** *** Broadcasting *)

(** [broadcastable_rev (rev src) (rev dst)]: numpy's rule read from the last
    dimension; surplus leading dimensions of the source must be 1. *)
Fixpoint broadcastable_rev (src dst : list Z) : bool :=
  match src, dst with
  | [], _ => true
  | a :: src', [] => (a =? 1) && broadcastable_rev src' []
  | a :: src', b :: dst' => ((a =? b) || (a =? 1)) && broadcastable_rev src' dst'
  end.

Definition broadcastable (src dst : list Z) : bool :=
  broadcastable_rev (rev src) (rev dst).

(** the source index read for a destination index, both reversed *)
Fixpoint bcast_index_rev (src : list Z) (i : list Z) : list Z :=
  match src with
  | [] => []
  | a :: src' =>
      match i with
      | [] => 0 :: bcast_index_rev src' []
      | k :: i' => (if a =? 1 then 0 else k) :: bcast_index_rev src' i'
      end
  end.

Definition bcast_index (src : list Z) (i : list Z) : list Z :=
  rev (bcast_index_rev (rev src) (rev i)).

(** ** Boundary values *)

(** A sympy expression: a numeric constant or something with free symbols. *)
Inductive sympy_Expr : Type :=
| SymNumber (c : Cx)
| SymExpr (name : string).

(** What [bc], [bcs] and [bcs_final] may hold: a [Number], a [sympy.Expr] or
    an [np.ndarray]; anything else is [BOther]. *)
Inductive bcval : Type :=
| BNum (c : Cx)
| BSym (e : sympy_Expr)
| BArr (a : ndarray)
| BOther.

(** [isinstance(v, (Number, sympy.Expr, np.ndarray))] *)
Definition is_bc_type (v : bcval) : bool :=
  match v with BOther => false | _ => true end.

(** The truth value Python gives to [v == 0]. On an array the comparison is
    elementwise and the truth value of the resulting array is that of its
    only element, [False] for an empty array and a [ValueError] otherwise. *)
Definition eq_zero_truth (v : bcval) : result bool :=
  match v with
  | BNum c => Ok (Cis_zero c)
  | BSym (SymNumber c) => Ok (Cis_zero c)
  | BSym (SymExpr _) => Ok false
  | BArr a =>
      if size a =? 1 then Ok (Cis_zero (item a (map (fun _ => 0) (shape a))))
      else if size a =? 0 then Ok false
      else Raise ValueError
  | BOther => Ok false
  end.

(** A boundary value as the right-hand side of an array update whose target
    has shape [dst]: a number broadcasts everywhere, an array must be
    broadcastable, and a sympy object is not a numeric operand. *)
Definition as_operand (v : bcval) (dst : list Z) : result (list Z -> Cx) :=
  match v with
  | BNum c => Ok (fun _ => c)
  | BArr a =>
      if broadcastable (shape a) dst
      then Ok (fun i => item a (bcast_index (shape a) i))
      else Raise ValueError
  | BSym _ => Raise TypeError
  | BOther => Raise TypeError
  end.

(** [u[s] = f(u[s], rhs)] for [s] an [axis_index]; [f] is the identity on the
    right operand for plain assignment and the sum for [+=]. *)
Definition update_axis (f : Cx -> Cx -> Cx) (u : ndarray) (s : axis_index)
    (rhs : list Z -> Cx) (k : Z) : ndarray :=
  mkArr (shape u)
        (fun i => if nth (idx_axis s) i (-1) =? k
                  then f (item u i) (rhs (remove_at (idx_axis s) i))
                  else item u i).

(** A boundary value stored by plain assignment: as [as_operand], except that
    a sympy number converts to its value. *)
Definition as_assigned (v : bcval) (dst : list Z) : result (list Z -> Cx) :=
  match v with
  | BSym (SymNumber c) => Ok (fun _ => c)
  | _ => as_operand v dst
  end.

(** [u[s] = v] *)
Definition setitem (u : ndarray) (s : axis_index) (v : bcval) : result ndarray :=
  n <- axis_len u (idx_axis s) ;;
  k <- resolve_index n (idx_pos s) ;;
  rhs <- as_assigned v (remove_at (idx_axis s) (shape u)) ;;
  Ok (update_axis (fun _ x => x) u s rhs k).

(** [dst[...] = src] *)
Definition assign_all (dst src : ndarray) : result ndarray :=
  rhs <- as_operand (BArr src) (shape dst) ;;
  Ok (mkArr (shape dst) rhs).

Module BoundaryValues.

(** The object's attributes ([T], a back reference to the owning basis or
    space, is not stored: it is passed where it is used). *)
Record t : Type := mk {
  bc : bcval * bcval;
  bcs : bcval * bcval;
  bcs_final : bcval * bcval;
  sl0 : axis_index;
  sl1 : axis_index;
  slm1 : axis_index;
  slm2 : axis_index;
  axis : nat
}.

Definition set_bcs (v : bcval * bcval) (b : t) : t :=
  mk (bc b) v (bcs_final b) (sl0 b) (sl1 b) (slm1 b) (slm2 b) (axis b).
Definition set_bcs_final (v : bcval * bcval) (b : t) : t :=
  mk (bc b) (bcs b) v (sl0 b) (sl1 b) (slm1 b) (slm2 b) (axis b).
Definition set_bc (v : bcval * bcval) (b : t) : t :=
  mk v (bcs b) (bcs_final b) (sl0 b) (sl1 b) (slm1 b) (slm2 b) (axis b).
Definition set_axis (ax : nat) (b : t) : t :=
  mk (bc b) (bcs b) (bcs_final b) (sl0 b) (sl1 b) (slm1 b) (slm2 b) ax.

(** [update_bcs(bc=bc)] for a 2-tuple [bc] (the [sympy_params] path is not
    taken by the constructor). *)
Definition update_bcs (v : bcval * bcval) (b : t) : result t :=
  if is_bc_type (fst v) then
    if is_bc_type (snd v) then
      Ok (set_bcs_final v (set_bcs v (set_bc v b)))
    else Raise NotImplementedError
  else Raise NotImplementedError.

(** [__init__(self, T, bc=(0, 0))] *)
Definition init (v : bcval * bcval) : result t :=
  update_bcs v
    (mk v (BNum C0, BNum C0) (BNum C0, BNum C0)
        (mkIdx 0 0) (mkIdx 0 1) (mkIdx 0 (-1)) (mkIdx 0 (-2)) 0%nat).

(** Modelled from the spec: [SpectralBase.sl], which is called by
    [set_slices] and is not among the sources; [T.sl(a)] is the index that
    selects position [a] along the basis's axis and everything along the
    other axes. *)
Definition sl (basis_axis : nat) (a : Z) : axis_index := mkIdx basis_axis a.

(** [set_slices(T)] for a basis [T] whose axis is [basis_axis] *)
Definition set_slices (basis_axis : nat) (b : t) : t :=
  mk (bc b) (bcs b) (bcs_final b)
     (sl basis_axis 0) (sl basis_axis 1) (sl basis_axis (-1))
     (sl basis_axis (-2)) (axis b).

(** [has_nonhomogeneous_bcs()] *)
Definition has_nonhomogeneous_bcs (b : t) : result bool :=
  z0 <- eq_zero_truth (fst (bcs b)) ;;
  if z0 then
    z1 <- eq_zero_truth (snd (bcs b)) ;;
    if z1 then Ok false else Ok true
  else Ok true.

(** [u[s] += scale*(b0 op b1)] *)
Definition iadd_mixed (u : ndarray) (s : axis_index) (scale : Cx)
    (op : Cx -> Cx -> Cx) (b0 b1 : bcval) : result ndarray :=
  n <- axis_len u (idx_axis s) ;;
  k <- resolve_index n (idx_pos s) ;;
  f0 <- as_operand b0 (remove_at (idx_axis s) (shape u)) ;;
  f1 <- as_operand b1 (remove_at (idx_axis s) (shape u)) ;;
  Ok (update_axis Cadd u s (fun i => Cmul scale (op (f0 i) (f1 i))) k).

(** [apply_before(u, final, scales)] *)
Definition apply_before (b : t) (u : ndarray) (final : bool)
    (scales : Cx * Cx) : result ndarray :=
  let src := if final then bcs_final b else bcs b in
  u1 <- iadd_mixed u (sl0 b) (fst scales) Cadd (fst src) (snd src) ;;
  iadd_mixed u1 (sl1 b) (snd scales) Csub (fst src) (snd src).

(** [apply_after(u, final)] *)
Definition apply_after (b : t) (u : ndarray) (final : bool) : result ndarray :=
  let src := if final then bcs_final b else bcs b in
  u1 <- setitem u (slm2 b) (fst src) ;;
  setitem u1 (slm1 b) (snd src).

End BoundaryValues.

(** ** Python lists *)

(** [l[k]] with Python's negative indices *)
Definition py_nth {A : Type} (l : list A) (k : Z) : result A :=
  let k' := if k <? 0 then k + Z.of_nat (length l) else k in
  if k' <? 0 then Raise IndexError
  else match nth_error l (Z.to_nat k') with
       | Some x => Ok x
       | None => Raise IndexError
       end.

(** [min(l)] and [max(l)]: a [ValueError] on the empty list *)
Definition py_min (l : list Z) : result Z :=
  match l with
  | [] => Raise ValueError
  | x :: t => Ok (fold_left Z.min t x)
  end.

Definition py_max (l : list Z) : result Z :=
  match l with
  | [] => Raise ValueError
  | x :: t => Ok (fold_left Z.max t x)
  end.

Fixpoint insert_sorted (x : Z) (l : list Z) : list Z :=
  match l with
  | [] => [x]
  | y :: t => if x <=? y then x :: l else y :: insert_sorted x t
  end.

(** [sorted(l)] *)
Definition py_sorted (l : list Z) : list Z := fold_right insert_sorted [] l.

Definition zmem (x : Z) (l : list Z) : bool := existsb (Z.eqb x) l.

(** the elements of [set(l)], each once *)
Fixpoint py_set (l : list Z) : list Z :=
  match l with
  | [] => []
  | x :: t => if zmem x t then py_set t else x :: py_set t
  end.

(** [int(np.round(q))]: round half to even *)
Definition np_round (q : Q) : Z :=
  let fl := Qfloor q in
  match Qcompare (q - inject_Z fl) (1 # 2) with
  | Lt => fl
  | Gt => fl + 1
  | Eq => if Z.even fl then fl else fl + 1
  end.

(** ** Bases as the tensor-product space sees them *)

Inductive basis_kind : Type :=
| C2CBasis
| R2CBasis
| ChebyshevShenDirichlet
| LegendreShenDirichlet
| OtherBasis.

(** [isinstance(base, (legendre.bases.ShenDirichletBasis,
                       chebyshev.bases.ShenDirichletBasis))] *)
Definition is_dirichlet (k : basis_kind) : bool :=
  match k with
  | ChebyshevShenDirichlet | LegendreShenDirichlet => true
  | _ => false
  end.

Definition is_C2C (k : basis_kind) : bool :=
  match k with C2CBasis => true | _ => false end.
Definition is_R2C (k : basis_kind) : bool :=
  match k with R2CBasis => true | _ => false end.

(** [axis] is set by [plan]; [bc] is the [BoundaryValues] object a Dirichlet
    basis owns. *)
Record basis : Type := mkBasis {
  kind : basis_kind;
  N : Z;
  padding_factor : Q;
  b_axis : option nat;
  b_bc : option BoundaryValues.t
}.

Definition with_axis (ax : nat) (b : basis) : basis :=
  mkBasis (kind b) (N b) (padding_factor b) (Some ax) (b_bc b).
Definition with_bc (v : BoundaryValues.t) (b : basis) : basis :=
  mkBasis (kind b) (N b) (padding_factor b) (b_axis b) (Some v).

(** numpy dtypes by their [char]; [OtherChar] is any dtype that is neither a
    float nor a complex float. *)
Inductive dtype : Type :=
| Char_f | Char_d | Char_g | Char_F | Char_D | Char_G | OtherChar.

(** [dtype.char in 'fdg'], [in 'FDG'], [in 'fdgFDG'] *)
Definition in_fdg (t : dtype) : bool :=
  match t with Char_f | Char_d | Char_g => true | _ => false end.
Definition in_FDG (t : dtype) : bool :=
  match t with Char_F | Char_D | Char_G => true | _ => false end.
Definition in_fdgFDG (t : dtype) : bool := in_fdg t || in_FDG t.

(** [np.float] and [np.complex] *)
Definition np_float : dtype := Char_d.
Definition np_complex : dtype := Char_D.

(** the [axes] argument: [None], one integer, or a sequence *)
Inductive axes_arg : Type :=
| AxesNone
| AxesInt (a : Z)
| AxesSeq (l : list Z).

(** the [comm] argument: an MPI communicator of some size, or a [Subcomm]
    given by the sizes of its sub-communicators *)
Inductive comm_arg : Type :=
| Comm (nprocs : Z)
| Subcomm (sizes : list Z).

(** A pencil as far as the space reads it. *)
Record Pencil : Type := mkPencil {
  p_subcomm : list Z;
  p_shape : list Z;
  p_axis : Z;
  subshape : list Z;
  substart : list Z
}.

(** One local transform of the pipeline with its two arrays. *)
Record stage : Type := mkStage {
  st_basis : Z;          (* index of the basis in [bases] *)
  input_array : ndarray;
  output_array : ndarray
}.

(** A redistribution between two pencils. *)
Record transfer_op : Type := mkTransfer {
  tr_from : Pencil;
  tr_to : Pencil;
  tr_dtype : dtype
}.

(** Calls made on the planned pipeline, in order. *)
Inductive event : Type :=
| CallXfftn (i : Z)
| CallTransfer (i : Z).

Module TensorProductSpace.

Record t : Type := mk {
  comm : comm_arg;
  bases : list basis;
  t_dtype : dtype;
  subcomm : list Z;
  axes : list (list Z);
  xfftn : list stage;
  transfer : list transfer_op;
  pencil : Pencil * Pencil;
  calls : list event
}.

Definition set_xfftn (x : list stage) (T : t) : t :=
  mk (comm T) (bases T) (t_dtype T) (subcomm T) (axes T) x (transfer T)
     (pencil T) (calls T).
Definition set_bases (b : list basis) (T : t) : t :=
  mk (comm T) b (t_dtype T) (subcomm T) (axes T) (xfftn T) (transfer T)
     (pencil T) (calls T).
Definition add_call (e : event) (T : t) : t :=
  mk (comm T) (bases T) (t_dtype T) (subcomm T) (axes T) (xfftn T)
     (transfer T) (pencil T) (calls T ++ [e]).

(** [shape()]: the physical shape *)
Definition shape_of (bs : list basis) : list Z :=
  map (fun b => np_round (inject_Z (N b) * padding_factor b)) bs.

(** [local_slice(False)]: (start, stop) per axis of the forward input
    pencil *)
Definition local_slice_physical (T : t) : list (Z * Z) :=
  map (fun p => (fst p, fst p + snd p))
      (combine (substart (fst (pencil T))) (subshape (fst (pencil T)))).

(** Lines 51-61 of [__init__]: the pipeline order *)
Definition resolve_axes (a : axes_arg) (ndims : Z) : result (list Z) :=
  let axes0 :=
    match a with
    | AxesNone => map Z.of_nat (seq 0 (Z.to_nat ndims))
    | AxesInt k => [if k <? 0 then k + ndims else k]
    | AxesSeq l => map (fun k => if k <? 0 then k + ndims else k) l
    end in
  lo <- py_min axes0 ;;
  _ <- assert (lo >=? 0) ;;
  hi <- py_max axes0 ;;
  _ <- assert (hi <? ndims) ;;
  _ <- assert ((0 <? Z.of_nat (length axes0))
               && (Z.of_nat (length axes0) <=? ndims)) ;;
  _ <- assert (shape_eqb (py_sorted axes0) (py_sorted (py_set axes0))) ;;
  Ok axes0.

(** Lines 63-72 of [__init__]: the working dtype, from the basis of the
    last pipeline axis *)
Definition resolve_dtype (dt : option dtype) (last : basis) : result dtype :=
  d <- match dt with
       | None => Ok (if is_C2C (kind last) then np_complex else np_float)
       | Some d =>
           if is_C2C (kind last) then
             (_ <- assert (in_FDG d) ;; Ok d)
           else if is_R2C (kind last) then
             (_ <- assert (in_fdg d) ;; Ok d)
           else Ok d
       end ;;
  _ <- assert (in_fdgFDG d) ;;
  Ok d.

End TensorProductSpace.

(** ** Boundary-value wiring and construction of the space *)

Section Pipeline.

(** The collaborators the space consumes. *)

(** [Subcomm(comm, dims)]: the sizes of the sub-communicators *)
Variable Subcomm_new : Z -> list Z -> list Z.
(** [Pencil(subcomm, shape, axis)]: local sub-shape and offset *)
Variable decompose : list Z -> list Z -> Z -> list Z * list Z.
(** the shape and dtype of [forward.output_array] once a basis is planned
    on an input of the given shape, axis and dtype *)
Variable plan_output : basis -> list Z -> Z -> dtype -> list Z * dtype.
(** a call of a basis's planned forward transform *)
Variable run_xfftn : basis -> ndarray -> ndarray.
(** a call of a redistribution *)
Variable run_transfer : transfer_op -> ndarray -> ndarray.
(** [sympy.lambdify] of the two boundary expressions, evaluated on the
    boundary slab of the local mesh *)
Variable lambdify_bc :
  bcval -> bcval -> TensorProductSpace.t -> result (bcval * bcval).

Import TensorProductSpace.

Definition new_pencil (sc : list Z) (sh : list Z) (ax : Z) : Pencil :=
  let d := decompose sc sh ax in
  mkPencil sc sh ax (fst d) (snd d).

(** *** Operations on the planned pipeline, [T.forward._xfftn] and
    [T.forward._transfer] *)

Definition py_index {A : Type} (l : list A) (k : Z) : nat :=
  Z.to_nat (if k <? 0 then k + Z.of_nat (length l) else k).

Definition put_stage (T : t) (i : Z) (s : stage) : t :=
  set_xfftn (replace_at (py_index (xfftn T) i) s (xfftn T)) T.

(** [T.forward._xfftn[i].input_array[...] = a] *)
Definition set_input (T : t) (i : Z) (a : ndarray) : result t :=
  s <- py_nth (xfftn T) i ;;
  a' <- assign_all (input_array s) a ;;
  Ok (put_stage T i (mkStage (st_basis s) a' (output_array s))).

(** [T.forward._xfftn[i]()] *)
Definition call_xfftn (T : t) (i : Z) : result t :=
  s <- py_nth (xfftn T) i ;;
  b <- py_nth (bases T) (st_basis s) ;;
  Ok (add_call (CallXfftn i)
        (put_stage T i
           (mkStage (st_basis s) (input_array s)
              (mkArr (shape (output_array s))
                     (item (run_xfftn b (input_array s))))))).

(** [T.forward._xfftn[i].output_array[...] = T.forward._xfftn[i].input_array] *)
Definition copy_through (T : t) (i : Z) : result t :=
  s <- py_nth (xfftn T) i ;;
  o <- assign_all (output_array s) (input_array s) ;;
  Ok (put_stage T i (mkStage (st_basis s) (input_array s) o)).

(** [T.forward._transfer[i](T.forward._xfftn[i].output_array,
                            T.forward._xfftn[i+1].input_array)] *)
Definition call_transfer (T : t) (i : Z) : result t :=
  sa <- py_nth (xfftn T) i ;;
  sb <- py_nth (xfftn T) (i + 1) ;;
  tr <- py_nth (transfer T) i ;;
  Ok (add_call (CallTransfer i)
        (put_stage T (i + 1)
           (mkStage (st_basis sb)
              (mkArr (shape (input_array sb))
                     (item (run_transfer tr (output_array sa))))
              (output_array sb)))).

(** *** [BoundaryValues.set_tensor_bcs] *)

(** what the loop over [reversed(T.axes)] carries *)
Record scan : Type := mkScan {
  sc_axis : option nat;
  sc_dirichlet : option basis;
  sc_after : Z;              (* number_of_bases_after_dirichlet *)
  sc_tags : list bool        (* [bases]: true for 'D', false for 'F' *)
}.

Definition scan_step (T : t) (acc : scan) (ax : list Z) : result scan :=
  a0 <- py_nth ax 0 ;;
  base <- py_nth (bases T) a0 ;;
  _ <- assert (Z.of_nat (length ax) =? 1) ;;
  bax <- match b_axis base with
         | Some n => Ok n
         | None => Raise AttributeError
         end ;;
  _ <- assert (a0 =? Z.of_nat bax) ;;
  if is_dirichlet (kind base) then
    Ok (mkScan (Some bax) (Some base) (sc_after acc) (sc_tags acc ++ [true]))
  else
    Ok (mkScan (sc_axis acc) (sc_dirichlet acc)
               (match sc_axis acc with
                | None => sc_after acc + 1
                | Some _ => sc_after acc
                end)
               (sc_tags acc ++ [false])).

Fixpoint scan_axes (T : t) (acc : scan) (l : list (list Z)) : result scan :=
  match l with
  | [] => Ok acc
  | ax :: rest => acc' <- scan_step T acc ax ;; scan_axes T acc' rest
  end.

(** Lines 750-787: the boundary data in physical space. [Array(T)], whose
    class is not among the sources, is a zero array with the shape of the
    input array of the first transform. *)
Definition boundary_data (self : BoundaryValues.t) (T : t)
    (dirichlet_base : basis) (ax : nat) : result ndarray :=
  s0 <- py_nth (xfftn T) 0 ;;
  let b := zeros (shape (input_array s0)) in
  s <- py_nth (local_slice_physical T) (Z.of_nat ax) ;;
  let at_end := snd s =? N dirichlet_base in
  let fill (v0 v1 : bcval) : result ndarray :=
    if at_end then
      b1 <- setitem b (BoundaryValues.slm2 self) v0 ;;
      setitem b1 (BoundaryValues.slm1 self) v1
    else Ok b in
  match fst (BoundaryValues.bc self) with
  | BSym _ =>
      f <- lambdify_bc (fst (BoundaryValues.bc self))
                       (snd (BoundaryValues.bc self)) T ;;
      fill (fst f) (snd f)
  | BNum _ =>
      fill (fst (BoundaryValues.bc self)) (snd (BoundaryValues.bc self))
  | BArr a =>
      if at_end then
        v0 <- getitem a (BoundaryValues.sl0 self) ;;
        b1 <- setitem b (BoundaryValues.slm2 self) (BArr v0) ;;
        v1 <- getitem a (BoundaryValues.slm1 self) ;;
        setitem b1 (BoundaryValues.slm1 self) (BArr v1)
      else Ok b
  | BOther => Raise NotImplementedError
  end.

(** Lines 789-814: [b_hat] after the transforms that come before the
    Dirichlet stage; with three or more of them no branch binds [b_hat]
    and line 817 reads an unbound local. *)
Definition push_before (T : t) (b : ndarray) (n : Z) : result (t * ndarray) :=
  if n =? 0 then Ok (T, b)
  else if n =? 1 then
    T1 <- set_input T 0 b ;;
    T2 <- call_xfftn T1 0 ;;
    T3 <- call_transfer T2 0 ;;
    s <- py_nth (xfftn T3) 1 ;;
    Ok (T3, input_array s)
  else if n =? 2 then
    T1 <- set_input T 0 b ;;
    T2 <- call_xfftn T1 0 ;;
    T3 <- call_transfer T2 0 ;;
    T4 <- call_xfftn T3 1 ;;
    T5 <- call_transfer T4 1 ;;
    s <- py_nth (xfftn T5) 2 ;;
    Ok (T5, input_array s)
  else Raise UnboundLocalError.

(** Lines 822-830: the loop of the final pass *)
Fixpoint final_loop (T : t) (tags : list bool) (i : Z) (fuel : nat) : result t :=
  match fuel with
  | O => Ok T
  | S fuel' =>
      tag <- py_nth tags i ;;
      T1 <- (if tag then copy_through T i else call_xfftn T i) ;;
      T2 <- call_transfer T1 i ;;
      final_loop T2 tags (i + 1) fuel'
  end.

(** Lines 821-839 *)
Definition final_pass (T : t) (b : ndarray) (tags : list bool)
    : result (t * ndarray) :=
  T1 <- set_input T 0 b ;;
  T2 <- final_loop T1 tags 0 (length (transfer T1)) ;;
  tag <- py_nth tags (-1) ;;
  T3 <- (if tag then copy_through T2 (-1) else call_xfftn T2 (-1)) ;;
  s <- py_nth (xfftn T3) (-1) ;;
  Ok (T3, output_array s).

(** [set_tensor_bcs(T)] for [T] a tensor-product space *)
Definition set_tensor_bcs_space (self : BoundaryValues.t) (T : t)
    : result (BoundaryValues.t * t) :=
  if existsb (fun b => is_dirichlet (kind b)) (bases T) then
    sc <- scan_axes T (mkScan None None 0 []) (rev (axes T)) ;;
    dbase <- match sc_dirichlet sc with
             | Some d => Ok d
             | None => Raise AttributeError
             end ;;
    ax <- match sc_axis sc with
          | Some a => Ok a
          | None => Raise AttributeError
          end ;;
    let self1 := BoundaryValues.set_slices ax (BoundaryValues.set_axis ax self) in
    nh <- BoundaryValues.has_nonhomogeneous_bcs self1 ;;
    if negb nh then
      Ok (BoundaryValues.set_bcs_final (BNum C0, BNum C0)
            (BoundaryValues.set_bcs (BNum C0, BNum C0) self1), T)
    else
      b <- boundary_data self1 T dbase ax ;;
      '(T1, b_hat) <- push_before T b (sc_after sc) ;;
      c0 <- getitem b_hat (BoundaryValues.slm2 self1) ;;
      c1 <- getitem b_hat (BoundaryValues.slm1 self1) ;;
      let self2 := BoundaryValues.set_bcs (BArr c0, BArr c1) self1 in
      '(T2, b_fin) <- final_pass T1 b (sc_tags sc) ;;
      f0 <- getitem b_fin (BoundaryValues.slm2 self2) ;;
      f1 <- getitem b_fin (BoundaryValues.slm1 self2) ;;
      Ok (BoundaryValues.set_bcs_final (BArr f0, BArr f1) self2, T2)
  else Ok (self, T).

(** [set_tensor_bcs(T)] for [T] a single basis: a Dirichlet basis sets the
    slices and the axis; any other basis has no [bases] attribute. *)
Definition set_tensor_bcs_basis (self : BoundaryValues.t) (T : basis)
    : result BoundaryValues.t :=
  if is_dirichlet (kind T) then
    match b_axis T with
    | Some ax => Ok (BoundaryValues.set_axis ax (BoundaryValues.set_slices ax self))
    | None => Raise AttributeError
    end
  else Raise AttributeError.

(** what [set_tensor_bcs] is called with *)
Inductive tensor_arg : Type :=
| OneBasis (b : basis)
| Space (T : t).

(** [set_tensor_bcs(T)] *)
Definition set_tensor_bcs (self : BoundaryValues.t) (T : tensor_arg)
    : result (BoundaryValues.t * tensor_arg) :=
  match T with
  | OneBasis b => self' <- set_tensor_bcs_basis self b ;; Ok (self', T)
  | Space T0 =>
      '(self', T') <- set_tensor_bcs_space self T0 ;; Ok (self', Space T')
  end.

(** *** [TensorProductSpace.__init__] *)

(** [base.plan(subshape, axes, dtype, kw)] as the constructor uses it: the
    basis records its axis and owns an input array of the local shape and
    an output array of the planned shape. *)
Definition plan_stage (bs : list basis) (ax : Z) (sub : list Z) (dt : dtype)
    : result (list basis * stage * dtype) :=
  b <- py_nth bs ax ;;
  let b' := with_axis (Z.to_nat ax) b in
  let o := plan_output b' sub ax dt in
  Ok (replace_at (py_index bs ax) b' bs,
      mkStage ax (zeros sub) (zeros (fst o)), snd o).

(** what the planning loop carries *)
Record planning : Type := mkPlanning {
  pl_pencil : Pencil;
  pl_dtype : dtype;
  pl_shape : list Z;
  pl_bases : list basis;
  pl_xfftn : list stage;
  pl_transfer : list transfer_op
}.

(** Lines 109-112 and 122-125: a transform that changes the length of its
    axis changes the dtype, the global shape and the pencil. *)
Definition after_plan (sc : list Z) (sh : list Z) (ax : Z) (dt : dtype)
    (p : Pencil) (s : stage) (odt : dtype)
    : result (Pencil * dtype * list Z) :=
  n <- py_nth sh ax ;;
  m <- py_nth (shape (output_array s)) ax ;;
  if negb (n =? m) then
    let sh' := replace_at (py_index sh ax) m sh in
    Ok (new_pencil sc sh' ax, odt, sh')
  else Ok (p, dt, sh).

(** Lines 114-125: one round of the loop over [reversed(self.axes[:-1])] *)
Definition plan_step (acc : planning) (ax : Z) : result planning :=
  let pencilA := pl_pencil acc in
  let pencilB := new_pencil (p_subcomm pencilA) (p_shape pencilA) ax in
  let transAB := mkTransfer pencilA pencilB (pl_dtype acc) in
  '(bs, s, odt) <- plan_stage (pl_bases acc) ax (subshape pencilB) (pl_dtype acc) ;;
  '(p, dt, sh) <- after_plan (p_subcomm pencilB) (pl_shape acc) ax
                    (pl_dtype acc) pencilB s odt ;;
  Ok (mkPlanning p dt sh bs (pl_xfftn acc ++ [s]) (pl_transfer acc ++ [transAB])).

Fixpoint plan_loop (acc : planning) (l : list Z) : result planning :=
  match l with
  | [] => Ok acc
  | ax :: rest => acc' <- plan_step acc ax ;; plan_loop acc' rest
  end.

(** Lines 142-145: every Dirichlet basis wires its boundary values *)
Fixpoint wire_bcs (T : t) (idxs : list nat) : result t :=
  match idxs with
  | [] => Ok T
  | i :: rest =>
      match nth_error (bases T) i with
      | None => wire_bcs T rest
      | Some base =>
          if is_dirichlet (kind base) then
            bc <- match b_bc base with
                  | Some v => Ok v
                  | None => Raise AttributeError
                  end ;;
            '(bc', T') <- set_tensor_bcs_space bc T ;;
            wire_bcs (set_bases (replace_at i (with_bc bc' base) (bases T')) T')
                     rest
          else wire_bcs T rest
      end
  end.

(** Lines 74-86: the process grid *)
Definition resolve_subcomm (c : comm_arg) (slab : bool) (ndims : nat)
    (axes0 : list Z) : result (list Z) :=
  last <- py_nth axes0 (-1) ;;
  match c with
  | Subcomm sizes =>
      _ <- assert (negb slab) ;;
      _ <- assert (Nat.eqb (length sizes) ndims) ;;
      sz <- py_nth sizes last ;;
      _ <- assert (sz =? 1) ;;
      Ok sizes
  | Comm nprocs =>
      if slab then
        first <- py_nth axes0 0 ;;
        Ok (Subcomm_new nprocs
              (replace_at (Z.to_nat first) nprocs (repeat 1 ndims)))
      else
        Ok (Subcomm_new nprocs
              (replace_at (Z.to_nat last) 1 (repeat 0 ndims)))
  end.

Definition init (c : comm_arg) (bs : list basis) (a : axes_arg)
    (dt : option dtype) (slab : bool) : result t :=
  let sh := shape_of bs in
  _ <- assert (negb (Nat.eqb (length sh) 0)) ;;
  lo <- py_min sh ;;
  _ <- assert (lo >? 0) ;;
  axes0 <- resolve_axes a (Z.of_nat (length sh)) ;;
  last <- py_nth axes0 (-1) ;;
  lastb <- py_nth bs last ;;
  dt0 <- resolve_dtype dt lastb ;;
  sc <- resolve_subcomm c slab (length sh) axes0 ;;
  let pencil0 := new_pencil sc sh last in
  '(bs1, s0, odt) <- plan_stage bs last (subshape pencil0) dt0 ;;
  '(pA, dt1, sh1) <- after_plan sc sh last dt0 pencil0 s0 odt ;;
  acc <- plan_loop (mkPlanning pA dt1 sh1 bs1 [s0] [])
                   (rev (removelast axes0)) ;;
  wire_bcs (mk c (pl_bases acc) dt0 sc (map (fun x => [x]) axes0)
               (pl_xfftn acc) (pl_transfer acc) (pencil0, pl_pencil acc) [])
           (seq 0 (length (pl_bases acc))).

End Pipeline.

Definition TensorProductSpace_init := init.

(** ** Fourier bases: truncation and padding of the real-to-complex basis *)

Module R2C.

(** The attributes [_truncation_forward] and [_padding_backward] read;
    [axis] is set by [plan]. *)
Record t : Type := mk {
  N : Z;
  padding_factor : Q;
  axis : nat;
  dealias_direct : bool
}.

(** [self.padding_factor > 1.0+1e-8] *)
Definition is_padded (b : t) : bool :=
  negb (Qle_bool (padding_factor b) (1 + (1 # 100000000))).

(** [self.N % 2 == 0] *)
Definition even_N (b : t) : bool := Z.even (N b).

(** [a[s]] for [s = [slice(None)]*k; s[axis] = slice(0, n)] with [n >= 0]:
    only the shape changes. More slices than dimensions is an
    [IndexError]. *)
Definition take_along (a : ndarray) (k : nat) (ax : nat) (n : Z)
    : result ndarray :=
  if (length (shape a) <? k)%nat then Raise IndexError
  else
    match nth_error (shape a) ax with
    | Some m => Ok (mkArr (replace_at ax (Z.min n m) (shape a)) (item a))
    | None => Ok a
    end.

(** [_truncation_forward(padded_array, trunc_array)]: the new contents of
    [trunc_array] *)
Definition _truncation_forward (b : t) (padded_array trunc_array : ndarray)
    : result ndarray :=
  if is_padded b then
    let trunc0 := zeros (shape trunc_array) in
    n <- axis_len trunc0 (axis b) ;;
    src <- take_along padded_array (ndim trunc0) (axis b) n ;;
    trunc1 <- assign_all trunc0 src ;;
    if even_N b then
      k <- resolve_index n (n - 1) ;;
      let s := mkIdx (axis b) (n - 1) in
      let trunc2 := update_axis (fun x _ => Creal x) trunc1 s (fun _ => C0) k in
      Ok (update_axis (fun x _ => Cmul x (Cx_of_Q 2)) trunc2 s (fun _ => C0) k)
    else Ok trunc1
  else Ok trunc_array.

(** [i] lies in the block [[slice(0, n) for n in bounds]] *)
Fixpoint in_block (bounds : list Z) (i : list Z) : bool :=
  match bounds, i with
  | [], _ => true
  | n :: bounds', k :: i' => (k <? n) && in_block bounds' i'
  | _ :: _, [] => false
  end.

(** the shape of [a[[slice(0, n) for n in bounds]]] *)
Fixpoint block_shape (bounds : list Z) (sh : list Z) : list Z :=
  match bounds, sh with
  | n :: bounds', m :: sh' => Z.min (Z.max n 0) m :: block_shape bounds' sh'
  | _, _ => sh
  end.

(** the start of [slice(k, None)] on an axis of length [n] *)
Definition slice_start (n k : Z) : Z :=
  if k <? 0 then Z.max 0 (k + n) else Z.min k n.

(** [_padding_backward(trunc_array, padded_array)]: the new contents of
    [padded_array] *)
Definition _padding_backward (b : t) (trunc_array padded_array : ndarray)
    : result ndarray :=
  if is_padded b then
    n <- axis_len trunc_array (axis b) ;;
    if (length (shape padded_array) <? length (shape trunc_array))%nat
    then Raise IndexError
    else
      let bounds := shape trunc_array in
      rhs <- as_operand (BArr trunc_array)
               (block_shape bounds (shape padded_array)) ;;
      let padded1 :=
        mkArr (shape padded_array)
              (fun i => if in_block bounds i then rhs i else C0) in
      if even_N b then
        m <- axis_len padded1 (axis b) ;;
        k <- resolve_index m (n - 1) ;;
        let bounds' := replace_at (axis b) (k + 1) bounds in
        Ok (mkArr (shape padded1)
              (fun i =>
                 if (nth (axis b) i (-1) =? k) && in_block bounds' i
                 then Cmul (Creal (item padded1 i)) (Cx_of_Q (1 # 2))
                 else item padded1 i))
      else Ok padded1
  else if dealias_direct b then
    match nth_error (shape padded_array) (axis b) with
    | None => Raise IndexError
    | Some m =>
        let start := slice_start m (N b / 3) in
        Ok (mkArr (shape padded_array)
              (fun i => if start <=? nth (axis b) i (-1) then C0
                        else item padded_array i))
    end
  else Ok padded_array.

End R2C.

(** ** [SpectralBase]: forward transform, equality and hash *)

(** A class: its module and its [__name__]. *)
Record pyclass : Type := mkClass { cls_module : string; cls_name : string }.

Definition ShenDirichlet_class : pyclass :=
  mkClass "shenfun.legendre.bases" "ShenDirichletBasis".

(** [repr(cls)] *)
Definition class_repr (c : pyclass) : string :=
  ("<class '" ++ cls_module c ++ "." ++ cls_name c ++ "'>")%string.

Section SpectralBase.

(** a mass matrix object *)
Variable Mass : Type.
(** [B((self, 0), (self, 0))] for [B = self.get_mass_matrix()]: the matrix
    assembled for a basis with [N] points and quadrature [quad] *)
Variable assemble_mass : Z -> string -> Mass.
(** [mass.solve(fk, axis=axis)] *)
Variable mass_solve : Mass -> ndarray -> Z -> result ndarray.
(** Python's [hash] on strings *)
Variable py_hash : string -> Z.

Record SpectralBase : Type := mkBase {
  class_ : pyclass;
  sb_N : Z;
  quad : string;
  domain : Q * Q;
  _mass : option Mass
}.

Definition set_mass (m : Mass) (b : SpectralBase) : SpectralBase :=
  mkBase (class_ b) (sb_N b) (quad b) (domain b) (Some m).

(** the family's [scalar_product(fj, fk, fast_transform, axis)]; the base
    class raises [NotImplementedError] *)
Variable scalar_product :
  SpectralBase -> ndarray -> ndarray -> bool -> Z -> result ndarray.

(** [mass.testfunction[0].quad] and [mass.testfunction[0].N], read while
    the basis is in the given state (the matrix may keep a reference to
    the basis it was assembled for) *)
Variable testfunction0 : Mass -> SpectralBase -> string * Z.

(** [apply_inverse_mass(fk, axis)] *)
Definition apply_inverse_mass (self : SpectralBase) (fk : ndarray) (axis : Z)
    : result (SpectralBase * ndarray) :=
  self1 <- match _mass self with
           | None =>
               n <- py_nth (shape fk) axis ;;
               _ <- assert (sb_N self =? n) ;;
               Ok (set_mass (assemble_mass (sb_N self) (quad self)) self)
           | Some _ => Ok self
           end ;;
  n <- py_nth (shape fk) axis ;;
  match _mass self1 with
  | None => Raise AttributeError
  | Some m1 =>
      let tf := testfunction0 m1 self1 in
      let m2 :=
        if negb (String.eqb (fst tf) (quad self1)) || negb (snd tf =? n)
        then assemble_mass (sb_N self1) (quad self1)
        else m1 in
      fk' <- mass_solve m2 fk axis ;;
      Ok (set_mass m2 self1, fk')
  end.

(** the matrix [apply_inverse_mass] solves with when [fk] has [n] entries
    along the axis: the cached one, unless there is none or it is stale *)
Definition mass_in_use (self : SpectralBase) (n : Z) : Mass :=
  match _mass self with
  | None => assemble_mass (sb_N self) (quad self)
  | Some m =>
      let tf := testfunction0 m self in
      if negb (String.eqb (fst tf) (quad self)) || negb (snd tf =? n)
      then assemble_mass (sb_N self) (quad self) else m
  end.

(** [forward(fj, fk, fast_transform, axis)] *)
Definition forward (self : SpectralBase) (fj fk : ndarray)
    (fast_transform : bool) (axis : Z) : result (SpectralBase * ndarray) :=
  fk1 <- scalar_product self fj fk fast_transform axis ;;
  apply_inverse_mass self fk1 axis.

(** [__hash__] *)
Definition __hash__ (self : SpectralBase) : Z :=
  py_hash (class_repr (class_ self)).

(** [__eq__] *)
Definition __eq__ (self other : SpectralBase) : bool :=
  String.eqb (cls_name (class_ self)) (cls_name (class_ other)).

End SpectralBase.

Arguments mkBase {Mass} class_ sb_N quad domain _mass.
Arguments class_ {Mass} s.
Arguments sb_N {Mass} s.
Arguments quad {Mass} s.
Arguments domain {Mass} s.
Arguments _mass {Mass} s.
Arguments set_mass {Mass} m b.
Arguments __eq__ {Mass} self other.
Arguments __hash__ {Mass} py_hash self.

(** A basis with a trivial mass matrix, for running [forward]. *)
Definition unit_solve (_ : unit) (fk : ndarray) (_ : Z) : result ndarray := Ok fk.
Definition unit_testfunction0 (_ : unit) (b : SpectralBase unit) : string * Z :=
  (quad b, sb_N b).
Definition unit_scalar_product (_ : SpectralBase unit) (_ fk : ndarray)
    (_ : bool) (_ : Z) : result ndarray := Ok fk.
Definition unit_basis : SpectralBase unit :=
  @mkBase unit ShenDirichlet_class 4 "LG" (-1, 1)%Q None.

(** ** Legendre bases: planning *)

Module Legendre.

(** the [shape] argument of [plan]: a tuple, or the integer the
    constructors pass with [plan=True] *)
Inductive shape_arg : Type :=
| ShapeTuple (l : list Z)
| ShapeInt (n : Z).

(** the [axis] argument of [plan] *)
Inductive axis_arg : Type :=
| AxisInt (a : Z)
| AxisTuple (l : list Z).

(** An array made by [pyfftw.empty_aligned]: [buf_id] tells allocations
    apart. *)
Record buffer : Type := mkBuf {
  buf_id : nat;
  buf_shape : list Z;
  buf_dtype : dtype
}.

(** What [self.forward] (or [backward], [scalar_product]) is bound to: the
    method, or a [Transform] wrapping what was bound before. *)
Inductive callable : Type :=
| Method
| Transform (func : callable) (input_array tmp_array output_array : buffer).

Record LegendreBase : Type := mkLeg {
  forward : callable;
  backward : callable;
  scalar_product : callable;
  axis : option Z
}.

(** a basis that owns a plain Legendre basis [LT] *)
Record ShenDirichletBasis : Type := mkShen {
  base : LegendreBase;
  LT : LegendreBase
}.

(** the allocator: the number of arrays made so far *)
Definition heap : Type := nat.

(** [pyfftw.empty_aligned(shape, dtype=dtype)] *)
Definition empty_aligned (h : heap) (s : shape_arg) (dt : dtype) : heap * buffer :=
  (S h, mkBuf h (match s with ShapeTuple l => l | ShapeInt n => [n] end) dt).

(** [if isinstance(axis, tuple): axis = axis[0]] *)
Definition first_axis (a : axis_arg) : result Z :=
  match a with
  | AxisInt k => Ok k
  | AxisTuple l => py_nth l 0
  end.

(** [input_array.shape == shape]: a tuple never equals an integer *)
Definition shape_matches (b : buffer) (s : shape_arg) : bool :=
  match s with
  | ShapeTuple l => shape_eqb (buf_shape b) l
  | ShapeInt _ => false
  end.

Definition opt_Z_eqb (o : option Z) (k : Z) : bool :=
  match o with Some a => a =? k | None => false end.

(** the test under [if isinstance(self.forward, Transform):] *)
Definition already_planned (b : LegendreBase) (s : shape_arg) (ax : Z) : bool :=
  match forward b with
  | Transform _ inp _ _ => shape_matches inp s && opt_Z_eqb (axis b) ax
  | Method => false
  end.

(** [LegendreBase.plan(shape, axis, dtype, options)] *)
Definition plan (h : heap) (self : LegendreBase) (s : shape_arg)
    (a : axis_arg) (dt : dtype) : result (heap * LegendreBase) :=
  ax <- first_axis a ;;
  if already_planned self s ax then Ok (h, self)
  else
    let '(h1, U) := empty_aligned h s dt in
    let '(h2, V) := empty_aligned h1 s dt in
    Ok (h2, mkLeg (Transform (forward self) U V V)
                  (Transform (backward self) V V U)
                  (Transform (scalar_product self) U V V)
                  (Some ax)).

(** the arrays of a planned basis *)
Definition arrays_of (c : callable) : result (buffer * buffer) :=
  match c with
  | Transform _ inp _ out => Ok (inp, out)
  | Method => Raise AttributeError
  end.

(** [ShenDirichletBasis.plan(shape, axis, dtype, options)] *)
Definition shen_plan (h : heap) (self : ShenDirichletBasis) (s : shape_arg)
    (a : axis_arg) (dt : dtype) : result (heap * ShenDirichletBasis) :=
  ax <- first_axis a ;;
  if already_planned (base self) s ax then Ok (h, self)
  else
    '(h1, lt) <- plan h (LT self) s (AxisInt ax) dt ;;
    '(U, V) <- arrays_of (forward lt) ;;
    Ok (h1, mkShen (mkLeg (Transform (forward (base self)) U V V)
                          (Transform (backward (base self)) V V U)
                          (Transform (scalar_product (base self)) U V V)
                          (axis lt))
                   lt).

(** the buffers a basis holds *)
Fixpoint buffers_of (c : callable) : list buffer :=
  match c with
  | Method => []
  | Transform f i t o => i :: t :: o :: buffers_of f
  end.

(** the arrays the current transforms of a basis read and write *)
Definition current_buffers (b : LegendreBase) : list buffer :=
  match forward b with
  | Transform _ i t o => [i; t; o]
  | Method => []
  end.

(** the shape of the array [empty_aligned] makes *)
Definition shape_of_arg (s : shape_arg) : list Z :=
  match s with ShapeTuple l => l | ShapeInt n => [n] end.

(** a basis as its constructor leaves it with [plan=False] *)
Definition unplanned : LegendreBase := mkLeg Method Method Method None.

(** [plan] keeps a Shen basis and its [LT] planned alike: same axis and
    same input array. *)
Definition shen_consistent (b : ShenDirichletBasis) : Prop :=
  axis (base b) = axis (LT b) /\
  match forward (base b), forward (LT b) with
  | Method, Method => True
  | Transform _ i _ _, Transform _ i' _ _ => i = i'
  | _, _ => False
  end.

End Legendre.

(** ** Vocabulary of the statements *)

(** the pipeline order after negative indices are resolved *)
Definition resolved_axes (a : axes_arg) (ndims : Z) : list Z :=
  match a with
  | AxesNone => map Z.of_nat (seq 0 (Z.to_nat ndims))
  | AxesInt k => [if k <? 0 then k + ndims else k]
  | AxesSeq l => map (fun k => if k <? 0 then k + ndims else k) l
  end.

(** what the assertions of lines 58-61 ask of the resolved order *)
Definition acceptable_axes (l : list Z) (ndims : Z) : Prop :=
  l <> [] /\ Forall (fun x => 0 <= x < ndims) l /\ NoDup l.

(** The slices of a [BoundaryValues] follow the axis [ax]. *)
Definition slices_follow (b : BoundaryValues.t) (ax : nat) : Prop :=
  BoundaryValues.sl0 b = BoundaryValues.sl ax 0 /\
  BoundaryValues.sl1 b = BoundaryValues.sl ax 1 /\
  BoundaryValues.slm1 b = BoundaryValues.sl ax (-1) /\
  BoundaryValues.slm2 b = BoundaryValues.sl ax (-2).

(** Two states of a space with the same plan: only the contents of the
    stage arrays, the log of calls and the boundary values of the bases may
    differ. *)
Definition same_plan (T T' : TensorProductSpace.t) : Prop :=
  TensorProductSpace.t_dtype T = TensorProductSpace.t_dtype T' /\
  TensorProductSpace.axes T = TensorProductSpace.axes T' /\
  TensorProductSpace.transfer T = TensorProductSpace.transfer T' /\
  length (TensorProductSpace.xfftn T) = length (TensorProductSpace.xfftn T') /\
  map kind (TensorProductSpace.bases T) = map kind (TensorProductSpace.bases T') /\
  map b_axis (TensorProductSpace.bases T) = map b_axis (TensorProductSpace.bases T').

(** Boundary coefficients that are the numbers zero. *)
Definition homogeneous (v : BoundaryValues.t) : Prop :=
  exists c0 c1,
    BoundaryValues.bcs v = (BNum c0, BNum c1) /\
    Cis_zero c0 = true /\ Cis_zero c1 = true.

(** The basis at position [ax] has been planned on axis [ax]. *)
Definition planned_at (bs : list basis) (ax : Z) : Prop :=
  0 <= ax /\
  exists b, nth_error bs (Z.to_nat ax) = Some b /\ b_axis b = Some (Z.to_nat ax).

(** The boundary values of the basis at position [i] have been set to
    [(0, 0)], final ones included. *)
Definition zeroed (bs : list basis) (i : nat) : Prop :=
  exists b v,
    nth_error bs i = Some b /\ b_bc b = Some v /\
    BoundaryValues.bcs v = (BNum C0, BNum C0) /\
    BoundaryValues.bcs_final v = (BNum C0, BNum C0).

(** What the planning loop maintains for [nd] bases [bs0], once the axes
    [done] are planned. *)
Definition planning_ok (nd : nat) (bs0 : list basis) (done : list Z)
    (sh : list Z) (p : Pencil) (bs : list basis) : Prop :=
  length sh = nd /\ length (p_shape p) = nd /\ length bs = nd /\
  map kind bs = map kind bs0 /\ map b_bc bs = map b_bc bs0 /\
  Forall (planned_at bs) done.

(** the pair [(0, 0)] *)
Definition zero_pair : bcval * bcval := (BNum C0, BNum C0).

(** The scan over the pipeline has met a Dirichlet basis. *)
Definition scan_found (acc : scan) : Prop :=
  exists a d, sc_axis acc = Some a /\ sc_dirichlet acc = Some d.

(** The basis planned at position [ax] is a Dirichlet basis. *)
Definition dirichlet_at (bs : list basis) (ax : Z) : Prop :=
  exists b, nth_error bs (Z.to_nat ax) = Some b /\ is_dirichlet (kind b) = true.

(** A planned space on which no transform has been called, whose pipeline
    order is [axes0] and whose Dirichlet bases are all in the pipeline and
    carry homogeneous boundary values. *)
Definition wired_ok (axes0 : list Z) (T : TensorProductSpace.t) : Prop :=
  TensorProductSpace.calls T = [] /\
  TensorProductSpace.axes T = map (fun x => [x]) axes0 /\
  Forall (planned_at (TensorProductSpace.bases T)) axes0 /\
  forall i b,
    nth_error (TensorProductSpace.bases T) i = Some b ->
    is_dirichlet (kind b) = true ->
    In (Z.of_nat i) axes0 /\ exists v, b_bc b = Some v /\ homogeneous v.

(** ** Index tuples within a shape *)

(** [i] is an index tuple of an array of shape [s] *)
Definition valid_index (s : list Z) (i : list Z) : Prop :=
  Forall2 (fun k d => 0 <= k < d) i s.

(** ** Sample data *)

(** The boundary values [(1, -1)] on axis 0, with array-valued final
    coefficients as a space with one periodic axis leaves them. *)
Definition sample_final0 : ndarray :=
  mkArr [3] (fun i => mkCx (inject_Z (nth 0 i 0) + 1) 0).
Definition sample_final1 : ndarray :=
  mkArr [3] (fun i => mkCx 0 (inject_Z (nth 0 i 0))).

Definition sample_bvals : BoundaryValues.t :=
  BoundaryValues.mk
    (BNum (mkCx 1 0), BNum (mkCx (-1) 0))
    (BNum (mkCx 1 0), BNum (mkCx (-1) 0))
    (BArr sample_final0, BArr sample_final1)
    (BoundaryValues.sl 0 0) (BoundaryValues.sl 0 1)
    (BoundaryValues.sl 0 (-1)) (BoundaryValues.sl 0 (-2)) 0%nat.

Definition sample_coefficients : ndarray :=
  mkArr [4; 3] (fun i => mkCx (inject_Z (10 * nth 0 i 0 + nth 1 i 0)) 0).

Definition half : Cx := mkCx (1 # 2) 0.

(** A real-to-complex basis with [N = 8] on axis 0: padded by 3/2, and
    "padded" by a factor just above one. *)
Definition sample_r2c : R2C.t := R2C.mk 8 (3 # 2) 0%nat false.
Definition sample_r2c_barely : R2C.t :=
  R2C.mk 8 (1 + (1 # 1000000000)) 0%nat false.

Definition sample_spectrum (len : Z) : ndarray :=
  mkArr [len] (fun i => mkCx (inject_Z (nth 0 i 0) + 3) 1).

(** *** A serial run

    One process, pencils that own the whole array, a real-to-complex
    transform that keeps [N//2 + 1] modes, and transforms and transposes
    that leave the entries alone. *)

Definition serial_Subcomm (_ : Z) (dims : list Z) : list Z :=
  map (fun _ => 1) dims.

Definition serial_decompose (_ : list Z) (sh : list Z) (_ : Z) : list Z * list Z :=
  (sh, map (fun _ => 0) sh).

Definition serial_plan_output (b : basis) (sub : list Z) (ax : Z) (dt : dtype)
    : list Z * dtype :=
  match kind b with
  | R2CBasis => (replace_at (Z.to_nat ax) (N b / 2 + 1) sub, np_complex)
  | _ => (sub, dt)
  end.

Definition serial_xfftn (_ : basis) (a : ndarray) : ndarray := a.
Definition serial_transfer (_ : transfer_op) (a : ndarray) : ndarray := a.
Definition serial_lambdify (v0 v1 : bcval) (_ : TensorProductSpace.t)
    : result (bcval * bcval) := Ok (v0, v1).

Definition serial_init :=
  TensorProductSpace_init serial_Subcomm serial_decompose serial_plan_output
    serial_xfftn serial_transfer serial_lambdify.

(** the [BoundaryValues] object the constructor of a Dirichlet basis makes
    for numeric boundary values *)
Definition numeric_bvals (c0 c1 : Q) : BoundaryValues.t :=
  BoundaryValues.mk
    (BNum (Cx_of_Q c0), BNum (Cx_of_Q c1))
    (BNum (Cx_of_Q c0), BNum (Cx_of_Q c1))
    (BNum (Cx_of_Q c0), BNum (Cx_of_Q c1))
    (mkIdx 0 0) (mkIdx 0 1) (mkIdx 0 (-1)) (mkIdx 0 (-2)) 0%nat.

Definition fourier_basis (k : basis_kind) (n : Z) : basis :=
  mkBasis k n 1 None None.

Definition dirichlet_basis (n : Z) (c0 c1 : Q) : basis :=
  mkBasis LegendreShenDirichlet n 1 None (Some (numeric_bvals c0 c1)).

(** a space that failed to build *)
Definition no_space : TensorProductSpace.t :=
  TensorProductSpace.mk (Comm 0) [] OtherChar [] [] [] []
    (mkPencil [] [] 0 [] [], mkPencil [] [] 0 [] []) [].

Definition built (r : result TensorProductSpace.t) : TensorProductSpace.t :=
  match r with Ok T => T | Raise _ => no_space end.

(** two periodic axes of which only the first is in the pipeline *)
Definition partial_space : TensorProductSpace.t :=
  built (serial_init (Comm 1)
           [fourier_basis C2CBasis 8; fourier_basis R2CBasis 8]
           (AxesSeq [0]) None false).

(** a Dirichlet axis with homogeneous boundary values and three periodic
    axes transformed before it *)
Definition deep_bases (c0 c1 : Q) : list basis :=
  [dirichlet_basis 8 c0 c1; fourier_basis C2CBasis 8;
   fourier_basis C2CBasis 8; fourier_basis R2CBasis 8].

Definition deep_space : TensorProductSpace.t :=
  built (serial_init (Comm 1) (deep_bases 0 0) AxesNone None false).

(** two periodic axes, the pipeline order given with a negative index *)
Definition swapped_space : TensorProductSpace.t :=
  built (serial_init (Comm 1)
           [fourier_basis R2CBasis 8; fourier_basis C2CBasis 8]
           (AxesSeq [-1; 0]) None false).

(** a Dirichlet axis with boundary values [(1, -1)] and one periodic axis,
    16 points each *)
Definition channel_space : TensorProductSpace.t :=
  built (serial_init (Comm 1)
           [dirichlet_basis 16 1 (-1); fourier_basis R2CBasis 16]
           AxesNone None false).

(** ** Fourier bases: slices along an axis *)

(** the bounds [(lo, hi)] of [slice(start, stop)] on an axis of length
    [len]; [None] is an omitted bound *)
Definition slice_bounds (len : Z) (start stop : option Z) : Z * Z :=
  let clamp := fun k => if k <? 0 then Z.max 0 (k + len) else Z.min k len in
  let lo := match start with None => 0 | Some k => clamp k end in
  let hi := match stop with None => len | Some k => clamp k end in
  (lo, Z.max lo hi).

(** the index tuple [i] with [d] added at position [ax] *)
Fixpoint shift_at (ax : nat) (d : Z) (i : list Z) : list Z :=
  match ax, i with
  | _, [] => []
  | O, k :: t => (k + d) :: t
  | S ax', k :: t => k :: shift_at ax' d t
  end.

(** [a[su]] for [su = [slice(None)]*k; su[ax] = slice(start, stop)] *)
Definition slice_along (a : ndarray) (k ax : nat) (start stop : option Z)
    : result ndarray :=
  if (length (shape a) <? k)%nat then Raise IndexError
  else
    match nth_error (shape a) ax with
    | Some len =>
        let lo := fst (slice_bounds len start stop) in
        let hi := snd (slice_bounds len start stop) in
        Ok (mkArr (replace_at ax (hi - lo) (shape a))
                  (fun i => item a (shift_at ax lo i)))
    | None => Raise IndexError
    end.

(** [dst[su] = f(dst[su], src)] for the same [su]; [f] is the right operand
    for plain assignment and the sum for [+=] *)
Definition update_slice (f : Cx -> Cx -> Cx) (dst : ndarray) (k ax : nat)
    (start stop : option Z) (src : ndarray) : result ndarray :=
  if (length (shape dst) <? k)%nat then Raise IndexError
  else
    match nth_error (shape dst) ax with
    | Some len =>
        let lo := fst (slice_bounds len start stop) in
        let hi := snd (slice_bounds len start stop) in
        rhs <- as_operand (BArr src) (replace_at ax (hi - lo) (shape dst)) ;;
        Ok (mkArr (shape dst)
              (fun i =>
                 if (lo <=? nth ax i (-1)) && (nth ax i (-1) <? hi)
                 then f (item dst i) (rhs (shift_at ax (- lo) i))
                 else item dst i))
    | None => Raise IndexError
    end.

(** [a[su] *= c] for [su = [slice(None)]*k; su[ax] = pos], an integer *)
Definition scale_at (a : ndarray) (k ax : nat) (pos : Z) (c : Cx)
    : result ndarray :=
  if (length (shape a) <? k)%nat then Raise IndexError
  else
    n <- axis_len a ax ;;
    p <- resolve_index n pos ;;
    Ok (update_axis (fun x _ => Cmul x c) a (mkIdx ax pos) (fun _ => C0) p).

(** ** Fourier bases: the complex-to-complex basis *)

Module C2C.

(** The attributes read are those of [FourierBase], as for [R2C]. *)

(** [_truncation_forward(padded_array, trunc_array)]: the new contents of
    [trunc_array] *)
Definition _truncation_forward (b : R2C.t) (padded_array trunc_array : ndarray)
    : result ndarray :=
  if R2C.is_padded b then
    let trunc0 := zeros (shape trunc_array) in
    n <- axis_len trunc0 (R2C.axis b) ;;
    let k := ndim trunc0 in
    src1 <- slice_along padded_array k (R2C.axis b) (Some 0) (Some (n / 2 + 1)) ;;
    trunc1 <- update_slice (fun _ x => x) trunc0 k (R2C.axis b)
                (Some 0) (Some (n / 2 + 1)) src1 ;;
    src2 <- slice_along padded_array k (R2C.axis b) (Some (- (n / 2))) None ;;
    update_slice Cadd trunc1 k (R2C.axis b) (Some (- (n / 2))) None src2
  else Ok trunc_array.

(** [_padding_backward(trunc_array, padded_array)]: the new contents of
    [padded_array] *)
Definition _padding_backward (b : R2C.t) (trunc_array padded_array : ndarray)
    : result ndarray :=
  if R2C.is_padded b then
    let padded0 := zeros (shape padded_array) in
    n <- axis_len trunc_array (R2C.axis b) ;;
    let k := ndim trunc_array in
    src1 <- slice_along trunc_array k (R2C.axis b) (Some 0) (Some (n / 2 + 1)) ;;
    padded1 <- update_slice (fun _ x => x) padded0 k (R2C.axis b)
                 (Some 0) (Some (n / 2 + 1)) src1 ;;
    src2 <- slice_along trunc_array k (R2C.axis b) (Some (- (n / 2))) None ;;
    padded2 <- update_slice (fun _ x => x) padded1 k (R2C.axis b)
                 (Some (- (n / 2))) None src2 ;;
    if R2C.even_N b then
      padded3 <- scale_at padded2 k (R2C.axis b) (n / 2) (Cx_of_Q (1 # 2)) ;;
      scale_at padded3 k (R2C.axis b) (- (n / 2)) (Cx_of_Q (1 # 2))
    else Ok padded2
  else if R2C.dealias_direct b then
    n <- axis_len trunc_array (R2C.axis b) ;;
    match nth_error (shape padded_array) (R2C.axis b) with
    | None => Raise IndexError
    | Some m =>
        let lo := fst (slice_bounds m (Some (n / 3))
                         (Some (Qfloor ((2 # 3) * inject_Z n)))) in
        let hi := snd (slice_bounds m (Some (n / 3))
                         (Some (Qfloor ((2 # 3) * inject_Z n)))) in
        Ok (mkArr (shape padded_array)
              (fun i =>
                 if (lo <=? nth (R2C.axis b) i (-1))
                    && (nth (R2C.axis b) i (-1) <? hi)
                 then C0 else item padded_array i))
    end
  else Ok padded_array.

End C2C.

(** ** Legendre bases: Vandermonde matrices and evaluation *)

(** A real matrix: its shape and the function from positions to entries. *)
Record matrix : Type := mkMat {
  nrows : nat;
  ncols : nat;
  entry : nat -> nat -> Q
}.

(** [numpy.polynomial.legendre], imported as [leg] *)
Module leg.

(** [(L_k(x), L_{k+1}(x))] by the recurrence of [legvander]:
    [v[0] = 1], [v[1] = x], [v[i] = (v[i-1]*x*(2*i - 1) - v[i-2]*(i - 1))/i] *)
Fixpoint legendre_pair (x : Q) (k : nat) : Q * Q :=
  match k with
  | O => (1, x)%Q
  | S k' =>
      let p := legendre_pair x k' in
      let i := inject_Z (Z.of_nat k' + 2) in
      (snd p, (snd p * x * (2 * i - 1) - fst p * (i - 1)) / i)%Q
  end.

(** the Legendre polynomial [L_k] at [x] *)
Definition legendre (k : nat) (x : Q) : Q := fst (legendre_pair x k).

(** [legvander(x, deg)] for a one-dimensional [x]: row [j], column [k] holds
    [L_k(x[j])]; a negative degree is a [ValueError] *)
Definition legvander (x : list Q) (deg : Z) : result matrix :=
  if deg <? 0 then Raise ValueError
  else Ok (mkMat (length x) (Z.to_nat (deg + 1))
                 (fun j k => legendre k (nth j x 0%Q))).

(** [c[0]*L_k(x) + c[1]*L_{k+1}(x) + ...] *)
Fixpoint series (x : Q) (k : nat) (c : list Q) : Q :=
  match c with
  | [] => 0%Q
  | a :: t => (a * legendre k x + series x (S k) t)%Q
  end.

(** [legval(x, c)] at one point [x] for a one-dimensional [c]: the value of
    the series with coefficients [c]; an empty [c] is an [IndexError] *)
Definition legval (x : Q) (c : list Q) : result Q :=
  match c with
  | [] => Raise IndexError
  | _ :: _ => Ok (series x 0 c)
  end.

End leg.

(** [LegendreBase.vandermonde(x)] for a basis with [N] quadrature points *)
Definition legendre_vandermonde (N : Z) (x : list Q) : result matrix :=
  leg.legvander x (N - 1).

(** one-dimensional real arrays: [a*f] with numpy's broadcasting *)
Definition bmul (a f : list Q) : result (list Q) :=
  if (length f =? 1)%nat then Ok (map (fun v => (v * nth 0 f 0)%Q) a)
  else if (length a =? 1)%nat then Ok (map (fun v => (nth 0 a 0 * v)%Q) f)
  else if (length a =? length f)%nat
       then Ok (map (fun p => (fst p * snd p)%Q) (combine a f))
       else Raise ValueError.

(** [w[start:] = c] *)
Definition assign_from (start : nat) (w c : list Q) : result (list Q) :=
  let t := (length w - start)%nat in
  if (length c =? t)%nat then Ok (firstn start w ++ c)
  else if (length c =? 1)%nat
       then Ok (firstn start w ++ repeat (nth 0 c 0%Q) t)
       else Raise ValueError.

Module ShenDirichlet.

(** The attributes of [legendre.bases.ShenDirichletBasis] read below. *)
Record t : Type := mk {
  N : Z;
  _scaled : bool;
  _factor : list Q
}.

(** [is_scaled()] *)
Definition is_scaled (self : t) : bool := _scaled self.

(** [slice()]: the bounds [(start, stop)] *)
Definition slice (self : t) : Z * Z := (0, N self - 2).

(** [spectral_shape()] *)
Definition spectral_shape (self : t) : Z := N self - 2.

Section Collaborators.

(** [np.sqrt] *)
Variable np_sqrt : Q -> Q.
(** [1./np.sqrt(4*k+6)] for [k = self.wavenumbers(v.shape, self.axis)], by
    the length of [v] *)
Variable scaled_factor : nat -> result (list Q).
(** [map_reference_domain], of the base class *)
Variable map_reference_domain : Q -> Q.

(** [get_vandermonde_basis(V)] *)
Definition get_vandermonde_basis (self : t) (V : matrix) : result matrix :=
  let c := ncols V in
  let m := Z.to_nat (N self - 2) in
  _ <- (if is_scaled self then
          if (c - 2 =? m)%nat || (m =? 1)%nat then Ok tt else Raise ValueError
        else Ok tt) ;;
  if (c <? 2)%nat then Raise IndexError
  else
    Ok (mkMat (nrows V) c
          (fun j k =>
             if (k <? c - 2)%nat then
               if is_scaled self then
                 ((entry V j k - entry V j (k + 2))
                  / np_sqrt (4 * inject_Z (Z.of_nat (if (m =? 1)%nat then 0 else k))
                             + 6))%Q
               else (entry V j k - entry V j (k + 2))%Q
             else if (k =? c - 2)%nat
                  then ((entry V j 0 + entry V j 1) / 2)%Q
                  else ((entry V j 0 - entry V j 1) / 2)%Q)).

(** [set_factor_array(v)]: the new value of [_factor] *)
Definition set_factor_array (self : t) (v : list Q) : result t :=
  if is_scaled self then
    if negb (length (_factor self) =? length v)%nat then
      f <- scaled_factor (length v) ;;
      Ok (mk (N self) (_scaled self) f)
    else Ok self
  else Ok self.

(** [eval(x, fk)] at one point [x]; [w_hat] is the array [work[(fk, 0)]]
    hands out. The basis is returned with its factor array. *)
Definition eval (self : t) (x : Q) (fk w_hat : list Q) : result (t * Q) :=
  let X := map_reference_domain x in
  self1 <- set_factor_array self fk ;;
  c <- bmul (firstn (length fk - 2) fk) (_factor self1) ;;
  o1 <- leg.legval X c ;;
  c' <- bmul (firstn (length fk - 2) fk) (_factor self1) ;;
  w1 <- assign_from 2 w_hat c' ;;
  o2 <- leg.legval X w1 ;;
  fm1 <- py_nth fk (-1) ;;
  fm2 <- py_nth fk (-2) ;;
  Ok (self1, (o1 - o2 + (1 # 2) * (fm1 * (1 + X) + fm2 * (1 - X)))%Q).

End Collaborators.

End ShenDirichlet.

Module ShenBiharmonic.

(** [get_vandermonde_basis(V)] *)
Definition get_vandermonde_basis (V : matrix) : matrix :=
  mkMat (nrows V) (ncols V)
    (fun j k =>
       if (k <? ncols V - 4)%nat then
         let kq := inject_Z (Z.of_nat k) in
         (entry V j k
          - (2 * (2 * kq + 5) / (2 * kq + 7)) * entry V j (k + 2)
          + ((2 * kq + 3) / (2 * kq + 7)) * entry V j (k + 4))%Q
       else 0%Q).

(** [slice()] and [spectral_shape()] for a basis with [N] points *)
Definition slice (N : Z) : Z * Z := (0, N - 4).
Definition spectral_shape (N : Z) : Z := N - 4.

End ShenBiharmonic.

(** the unscaled Dirichlet basis as its constructor leaves it:
    [_factor = np.ones(1)] *)
Definition shen_dirichlet (n : Z) : ShenDirichlet.t :=
  ShenDirichlet.mk n false [1%Q].

(** [(-1)^k] *)
Definition alternating (k : nat) : Q := if Nat.even k then 1%Q else (-1)%Q.

(** *** Sample Fourier bases *)

(** real-to-complex bases on axis 0: an odd size padded by 3/2, and the
    2/3-rule without padding *)
Definition sample_r2c_odd : R2C.t := R2C.mk 7 (3 # 2) 0%nat false.
Definition sample_r2c_dealias : R2C.t := R2C.mk 9 1 0%nat true.

(** a complex-to-complex basis with [N = 8] on axis 0, padded by 3/2 *)
Definition sample_c2c : R2C.t := R2C.mk 8 (3 # 2) 0%nat false.

(** ** Vocabulary of the further statements *)

(** Two states of a space with the same layout: the same bases behind the
    stages, the same shapes of the stage arrays, the same redistributions,
    pencils and process grid, and bases of the same sizes. *)
Definition same_layout (T T' : TensorProductSpace.t) : Prop :=
  map st_basis (TensorProductSpace.xfftn T)
  = map st_basis (TensorProductSpace.xfftn T') /\
  map (fun s => shape (input_array s)) (TensorProductSpace.xfftn T)
  = map (fun s => shape (input_array s)) (TensorProductSpace.xfftn T') /\
  map (fun s => shape (output_array s)) (TensorProductSpace.xfftn T)
  = map (fun s => shape (output_array s)) (TensorProductSpace.xfftn T') /\
  TensorProductSpace.transfer T = TensorProductSpace.transfer T' /\
  TensorProductSpace.pencil T = TensorProductSpace.pencil T' /\
  TensorProductSpace.subcomm T = TensorProductSpace.subcomm T' /\
  TensorProductSpace.comm T = TensorProductSpace.comm T' /\
  map N (TensorProductSpace.bases T) = map N (TensorProductSpace.bases T') /\
  map padding_factor (TensorProductSpace.bases T)
  = map padding_factor (TensorProductSpace.bases T').

(** what identifies a stage apart from the contents of its arrays *)
Definition stage_frame (s : stage) : Z * list Z * list Z :=
  (st_basis s, shape (input_array s), shape (output_array s)).

(** The bases [bs] are the bases [bs0] with those at the positions [done]
    planned on their own axis. *)
Definition planned_from (done : list Z) (bs0 bs : list basis) : Prop :=
  length bs = length bs0 /\
  forall i b0, nth_error bs0 i = Some b0 ->
    nth_error bs i
    = Some (if zmem (Z.of_nat i) done then with_axis i b0 else b0).

(** the channel space after its boundary values are wired once more *)
Definition rewired : result (BoundaryValues.t * TensorProductSpace.t) :=
  set_tensor_bcs_space serial_xfftn serial_transfer serial_lambdify
    (numeric_bvals 1 (-1)) channel_space.
Definition rewired_bvals : BoundaryValues.t :=
  match rewired with Ok r => fst r | Raise _ => numeric_bvals 0 0 end.
Definition rewired_space : TensorProductSpace.t :=
  match rewired with Ok r => snd r | Raise _ => no_space end.

(** The states a [BoundaryValues] object can be in: made by the
    constructor, then changed by [update_bcs] and [set_tensor_bcs]. *)
Inductive bvals_reachable
    (run_xfftn : basis -> ndarray -> ndarray)
    (run_transfer : transfer_op -> ndarray -> ndarray)
    (lambdify_bc : bcval -> bcval -> TensorProductSpace.t
                   -> result (bcval * bcval))
    : BoundaryValues.t -> Prop :=
| reach_init (v : bcval * bcval) (b : BoundaryValues.t) :
    BoundaryValues.init v = Ok b ->
    bvals_reachable run_xfftn run_transfer lambdify_bc b
| reach_update_bcs (v : bcval * bcval) (b b' : BoundaryValues.t) :
    bvals_reachable run_xfftn run_transfer lambdify_bc b ->
    BoundaryValues.update_bcs v b = Ok b' ->
    bvals_reachable run_xfftn run_transfer lambdify_bc b'
| reach_set_tensor_bcs (b b' : BoundaryValues.t) (arg arg' : tensor_arg) :
    bvals_reachable run_xfftn run_transfer lambdify_bc b ->
    set_tensor_bcs run_xfftn run_transfer lambdify_bc b arg = Ok (b', arg') ->
    bvals_reachable run_xfftn run_transfer lambdify_bc b'.

(** An array whose comparison with zero has no truth value: more than one
    element. *)
Definition ambiguous_truth (v : bcval) : bool :=
  match v with
  | BArr a => negb (size a =? 1) && negb (size a =? 0)
  | _ => false
  end.

(** the sample coefficients after [apply_after] with the final boundary
    coefficients *)
Definition after_once : ndarray :=
  match BoundaryValues.apply_after sample_bvals sample_coefficients true with
  | Ok u => u
  | Raise _ => sample_coefficients
  end.

(** The states of a Shen Dirichlet basis of the Legendre family and of the
    allocator: the basis as its constructor leaves it with [plan=False],
    then planned any number of times. *)
Inductive shen_reachable : Legendre.heap -> Legendre.ShenDirichletBasis -> Prop :=
| shen_fresh :
    shen_reachable 0%nat (Legendre.mkShen Legendre.unplanned Legendre.unplanned)
| shen_planned (h h' : Legendre.heap) (b b' : Legendre.ShenDirichletBasis)
    (s : Legendre.shape_arg) (a : Legendre.axis_arg) (dt : dtype) :
    shen_reachable h b ->
    Legendre.shen_plan h b s a dt = Ok (h', b') ->
    shen_reachable h' b'.

(** The three transforms of a planned basis work on two arrays: [forward]
    and [scalar_product] read the first and write the second, [backward]
    reads the second and writes the first; the work array is the second. *)
Definition transforms_wired (b : Legendre.LegendreBase) : Prop :=
  match Legendre.forward b, Legendre.backward b, Legendre.scalar_product b with
  | Legendre.Method, Legendre.Method, Legendre.Method => True
  | Legendre.Transform _ fi ft fo, Legendre.Transform _ bi bt bo,
    Legendre.Transform _ si st so =>
      ft = fo /\ bi = fo /\ bt = fo /\ bo = fi /\ si = fi /\ st = fo /\ so = fo
  | _, _, _ => False
  end.

(** a Shen basis planned once, and planned again on another shape *)
Definition once_planned : Legendre.heap * Legendre.ShenDirichletBasis :=
  match Legendre.shen_plan 0%nat
          (Legendre.mkShen Legendre.unplanned Legendre.unplanned)
          (Legendre.ShapeTuple [8; 6]) (Legendre.AxisInt 0) np_float with
  | Ok r => r
  | Raise _ => (0%nat, Legendre.mkShen Legendre.unplanned Legendre.unplanned)
  end.
Definition twice_planned : Legendre.heap * Legendre.ShenDirichletBasis :=
  match Legendre.shen_plan (fst once_planned) (snd once_planned)
          (Legendre.ShapeTuple [8; 4]) (Legendre.AxisTuple [0]) np_float with
  | Ok r => r
  | Raise _ => once_planned
  end.

(** the class of the same name in the Chebyshev family *)
Definition ChebyshevShenDirichlet_class : pyclass :=
  mkClass "shenfun.chebyshev.bases" "ShenDirichletBasis".

(** ** Fourier bases: wavenumbers *)

(** What a call does when Python's [ZeroDivisionError] is among the
    possibilities. *)
Inductive outcome (A : Type) : Type :=
| Returns (a : A)
| Raises (e : exn)
| RaisesZeroDivisionError.
Arguments Returns {A} a.
Arguments Raises {A} e.
Arguments RaisesZeroDivisionError {A}.

(** [numpy.fft], for a sample count [n] and a spacing [d] with [n*d]
    nonzero *)
Module np_fft.

(** [arange(lo, lo + len)] *)
Definition arange (lo : Z) (len : Z) : list Z :=
  map (fun j => lo + Z.of_nat j) (seq 0 (Z.to_nat len)).

(** [fftfreq(n, d)]: [[0, 1, ..., (n-1)//2, -(n//2), ..., -1] * val] with
    [val = 1.0/(n*d)]; a negative [n] is a [ValueError] *)
Definition fftfreq (n : Z) (d : Q) : result (list Q) :=
  if n <? 0 then Raise ValueError
  else
    let val := (1 / (inject_Z n * d))%Q in
    Ok (map (fun r => (inject_Z r * val)%Q)
            (arange 0 ((n - 1) / 2 + 1) ++ arange (- (n / 2)) (n / 2))).

(** [rfftfreq(n, d)]: [[0, 1, ..., n//2] * val] *)
Definition rfftfreq (n : Z) (d : Q) : result (list Q) :=
  let val := (1 / (inject_Z n * d))%Q in
  Ok (map (fun r => (inject_Z r * val)%Q) (arange 0 (n / 2 + 1))).

End np_fft.

(** [k[pos] = 0] on a one-dimensional array *)
Definition set_zero_at (k : list Q) (pos : Z) : result (list Q) :=
  p <- resolve_index (Z.of_nat (length k)) pos ;;
  Ok (replace_at (Z.to_nat p) 0%Q k).

Section Wavenumbers.

(** [self.domain_factor()], of the base class *)
Variable domain_factor : Q.

(** [R2CBasis.wavenumbers(N, axis, scaled, eliminate_highest_freq)] for a
    basis with [self.N = self_N] and [N] a tuple: the one-dimensional array
    [k] that [broadcast_to_ndims], of the base class, then reshapes. The
    divisor of [1./N[axis]] is zero when [N[axis]] is. *)
Definition r2c_wavenumbers (self_N : Z) (shape_N : list Z) (axis : Z)
    (scaled eliminate_highest_freq : bool) : outcome (list Q) :=
  match py_nth shape_N axis with
  | Raise e => Raises e
  | Ok n =>
      if negb (self_N =? n) then Raises AssertionError
      else if n =? 0 then RaisesZeroDivisionError
      else
        match np_fft.rfftfreq n (1 / inject_Z n)%Q with
        | Raise e => Raises e
        | Ok k =>
            match (if (n mod 2 =? 0) && eliminate_highest_freq
                   then set_zero_at k (-1) else Ok k) with
            | Raise e => Raises e
            | Ok k1 =>
                Returns (if scaled
                         then map (fun v => (v * domain_factor)%Q) k1
                         else k1)
            end
        end
  end.

(** [C2CBasis.wavenumbers(N, axis, scaled, eliminate_highest_freq)],
    likewise *)
Definition c2c_wavenumbers (self_N : Z) (shape_N : list Z) (axis : Z)
    (scaled eliminate_highest_freq : bool) : outcome (list Q) :=
  match py_nth shape_N axis with
  | Raise e => Raises e
  | Ok n =>
      if negb (self_N =? n) then Raises AssertionError
      else if n =? 0 then RaisesZeroDivisionError
      else
        match np_fft.fftfreq n (1 / inject_Z n)%Q with
        | Raise e => Raises e
        | Ok k =>
            match (if (n mod 2 =? 0) && eliminate_highest_freq
                   then set_zero_at k (n / 2) else Ok k) with
            | Raise e => Raises e
            | Ok k1 =>
                Returns (if scaled
                         then map (fun v => (v * domain_factor)%Q) k1
                         else k1)
            end
        end
  end.

End Wavenumbers.

(** * Properties *)

(** ** Generic facts *)

Lemma bind_ok_inv {A B : Type} (m : result A) (k : A -> result B) (b : B) :
  bind m k = Ok b -> exists a, m = Ok a /\ k a = Ok b.
Proof.
  destruct m as [a | e]; simpl; intros H; [eauto | discriminate].
Qed.

Lemma assert_ok_inv (c : bool) (u : unit) : assert c = Ok u -> c = true.
Proof. destruct c; simpl; [reflexivity | discriminate]. Qed.

Lemma list_eqb_Z_eq (l1 l2 : list Z) : shape_eqb l1 l2 = true <-> l1 = l2.
Proof.
  unfold shape_eqb. revert l2.
  induction l1 as [| x t IH]; intros [| y t2]; simpl; split; intros H;
    try reflexivity; try discriminate.
  - apply andb_true_iff in H as [Hx Ht].
    apply Z.eqb_eq in Hx. apply IH in Ht. congruence.
  - injection H as -> ->. rewrite Z.eqb_refl. simpl. now apply IH.
Qed.

(** ** Equality and hash of bases *)

(** C10. Two bases of the same class are equal under [__eq__] and have the
    same [__hash__], whatever their [N], quadrature rule, domain or cached
    mass matrix. *)
Theorem eq_and_hash_ignore_parameters :
  forall (Mass : Type) (py_hash : string -> Z) (b1 b2 : SpectralBase Mass),
    class_ b1 = class_ b2 ->
    __eq__ b1 b2 = true /\ __hash__ py_hash b1 = __hash__ py_hash b2.
Proof.
  intros Mass py_hash b1 b2 Hc. unfold __eq__, __hash__.
  rewrite Hc. split; [apply String.eqb_refl | reflexivity].
Qed.

Lemma eq_and_hash_ignore_parameters_witness :
  let b1 := @mkBase unit ShenDirichlet_class 8 "LG" (-1, 1)%Q None in
  let b2 := @mkBase unit ShenDirichlet_class 32 "GL" (0, 5)%Q (Some tt) in
  class_ b1 = class_ b2 /\
  __eq__ b1 b2 = true /\
  __hash__ (fun s => Z.of_nat (String.length s)) b1
  = __hash__ (fun s => Z.of_nat (String.length s)) b2.
Proof.
  intros b1 b2. split; [reflexivity |].
  apply (eq_and_hash_ignore_parameters unit _ b1 b2). reflexivity.
Defined.

(** ** The forward transform of a basis *)

Section ForwardFacts.

Variable Mass : Type.
Variable assemble_mass : Z -> string -> Mass.
Variable mass_solve : Mass -> ndarray -> Z -> result ndarray.
Variable testfunction0 : Mass -> SpectralBase Mass -> string * Z.
Variable scalar_product :
  SpectralBase Mass -> ndarray -> ndarray -> bool -> Z -> result ndarray.

Local Abbreviation apply_inverse_mass' :=
  (apply_inverse_mass Mass assemble_mass
     mass_solve testfunction0).
Local Abbreviation forward' :=
  (forward Mass assemble_mass
     mass_solve scalar_product testfunction0).
Local Abbreviation mass_in_use' :=
  (mass_in_use Mass
     assemble_mass testfunction0).

Lemma apply_inverse_mass_solves (self : SpectralBase Mass) (fk : ndarray)
    (axis : Z) :
  py_nth (shape fk) axis = Ok (sb_N self) ->
  apply_inverse_mass' self fk axis
  = (fk' <- mass_solve (mass_in_use' self (sb_N self)) fk axis ;;
     Ok (set_mass (mass_in_use' self (sb_N self)) self, fk')).
Proof.
  intros Hn.
  unfold apply_inverse_mass, mass_in_use.
  destruct self as [c n q d [m |]]; simpl in *; rewrite Hn; simpl.
  - reflexivity.
  - rewrite Z.eqb_refl. simpl.
    destruct (negb _ || negb _); reflexivity.
Qed.

(** C1. On an input whose scalar product has the basis's size along the
    axis, [forward] returns what the inverse mass matrix makes of the
    scalar product of [fj] into [fk]; the flag [fast_transform] is only
    handed to the scalar product, so this holds for both of its values. *)
Theorem forward_is_scalar_product_then_inverse_mass :
  forall (self : SpectralBase Mass) (fj fk fk1 : ndarray)
         (fast_transform : bool) (axis : Z),
    scalar_product self fj fk fast_transform axis = Ok fk1 ->
    py_nth (shape fk1) axis = Ok (sb_N self) ->
    forward' self fj fk fast_transform axis = apply_inverse_mass' self fk1 axis /\
    forward' self fj fk fast_transform axis
    = (fk2 <- mass_solve (mass_in_use' self (sb_N self)) fk1 axis ;;
       Ok (set_mass (mass_in_use' self (sb_N self)) self, fk2)).
Proof.
  intros self fj fk fk1 fast axis Hsp Hn.
  assert (Hf : forward' self fj fk fast axis = apply_inverse_mass' self fk1 axis).
  { unfold forward. rewrite Hsp. reflexivity. }
  split; [exact Hf |].
  rewrite Hf. now apply apply_inverse_mass_solves.
Qed.

End ForwardFacts.

Lemma forward_is_scalar_product_then_inverse_mass_witness :
  unit_scalar_product unit_basis (zeros [4; 3]) (zeros [4; 3]) false 0
  = Ok (zeros [4; 3]) /\
  py_nth (shape (zeros [4; 3])) 0 = Ok (sb_N unit_basis) /\
  forward unit (fun _ _ => tt) unit_solve unit_scalar_product unit_testfunction0
    unit_basis (zeros [4; 3]) (zeros [4; 3]) false 0
  = apply_inverse_mass unit (fun _ _ => tt) unit_solve unit_testfunction0
      unit_basis (zeros [4; 3]) 0.
Proof.
  split; [reflexivity | split; [reflexivity |]].
  apply (forward_is_scalar_product_then_inverse_mass unit (fun _ _ => tt)
           unit_solve unit_testfunction0 unit_scalar_product unit_basis
           (zeros [4; 3]) (zeros [4; 3]) (zeros [4; 3]) false 0); reflexivity.
Defined.

(** ** Planning of Legendre bases *)

Section PlanFacts.

Import Legendre.

Lemma already_planned_spec (self : LegendreBase) (s : shape_arg) (ax : Z) :
  already_planned self s ax = true <->
  exists f inp tmp out l,
    forward self = Transform f inp tmp out /\ s = ShapeTuple l /\
    buf_shape inp = l /\ axis self = Some ax.
Proof.
  unfold already_planned, shape_matches, opt_Z_eqb. split.
  - destruct (forward self) as [| f inp tmp out]; [discriminate |].
    destruct s as [l | n]; [| discriminate].
    destruct (axis self) as [a |]; intros H;
      apply andb_true_iff in H as [Hs Ha]; [| discriminate].
    apply list_eqb_Z_eq in Hs. apply Z.eqb_eq in Ha. subst.
    now exists f, inp, tmp, out, (buf_shape inp).
  - intros (f & inp & tmp & out & l & -> & -> & Hl & ->).
    apply andb_true_iff. split; [now apply list_eqb_Z_eq | apply Z.eqb_refl].
Qed.

Lemma plan_same_is_noop (h : heap) (self : LegendreBase) (s : shape_arg)
    (a : axis_arg) (dt : dtype) (ax : Z) :
  first_axis a = Ok ax -> already_planned self s ax = true ->
  plan h self s a dt = Ok (h, self).
Proof. intros Ha Hp. unfold plan. rewrite Ha. simpl. now rewrite Hp. Qed.

Lemma plan_other_allocates (h : heap) (self : LegendreBase) (s : shape_arg)
    (a : axis_arg) (dt : dtype) (ax : Z) :
  first_axis a = Ok ax -> already_planned self s ax = false ->
  plan h self s a dt
  = Ok (S (S h),
        mkLeg (Transform (forward self) (mkBuf h (shape_of_arg s) dt)
                 (mkBuf (S h) (shape_of_arg s) dt) (mkBuf (S h) (shape_of_arg s) dt))
              (Transform (backward self) (mkBuf (S h) (shape_of_arg s) dt)
                 (mkBuf (S h) (shape_of_arg s) dt) (mkBuf h (shape_of_arg s) dt))
              (Transform (scalar_product self) (mkBuf h (shape_of_arg s) dt)
                 (mkBuf (S h) (shape_of_arg s) dt) (mkBuf (S h) (shape_of_arg s) dt))
              (Some ax)).
Proof. intros Ha Hp. unfold plan. rewrite Ha. simpl. now rewrite Hp. Qed.

Lemma shen_consistent_planned (b : ShenDirichletBasis) (s : shape_arg) (ax : Z) :
  shen_consistent b ->
  already_planned (LT b) s ax = already_planned (base b) s ax.
Proof.
  intros [Hax Hf]. unfold already_planned. rewrite Hax.
  destruct (forward (base b)), (forward (LT b)); try contradiction;
    [reflexivity | now subst].
Qed.

Lemma shen_plan_same_is_noop (h : heap) (self : ShenDirichletBasis)
    (s : shape_arg) (a : axis_arg) (dt : dtype) (ax : Z) :
  first_axis a = Ok ax -> already_planned (base self) s ax = true ->
  shen_plan h self s a dt = Ok (h, self).
Proof. intros Ha Hp. unfold shen_plan. rewrite Ha. simpl. now rewrite Hp. Qed.

Lemma shen_plan_other_allocates (h : heap) (self : ShenDirichletBasis)
    (s : shape_arg) (a : axis_arg) (dt : dtype) (ax : Z) :
  shen_consistent self ->
  first_axis a = Ok ax -> already_planned (base self) s ax = false ->
  exists lt,
    plan h (LT self) s (AxisInt ax) dt = Ok (S (S h), lt) /\
    current_buffers lt
    = [mkBuf h (shape_of_arg s) dt; mkBuf (S h) (shape_of_arg s) dt;
       mkBuf (S h) (shape_of_arg s) dt] /\
    shen_plan h self s a dt
    = Ok (S (S h),
          mkShen
            (mkLeg (Transform (forward (base self)) (mkBuf h (shape_of_arg s) dt)
                      (mkBuf (S h) (shape_of_arg s) dt)
                      (mkBuf (S h) (shape_of_arg s) dt))
                   (Transform (backward (base self)) (mkBuf (S h) (shape_of_arg s) dt)
                      (mkBuf (S h) (shape_of_arg s) dt)
                      (mkBuf h (shape_of_arg s) dt))
                   (Transform (scalar_product (base self))
                      (mkBuf h (shape_of_arg s) dt)
                      (mkBuf (S h) (shape_of_arg s) dt)
                      (mkBuf (S h) (shape_of_arg s) dt))
                   (Some ax))
            lt).
Proof.
  intros Hc Ha Hp.
  pose proof (shen_consistent_planned self s ax Hc) as Hlt. rewrite Hp in Hlt.
  eexists. split; [now apply plan_other_allocates |].
  split; [reflexivity |].
  unfold shen_plan. rewrite Ha. simpl. rewrite Hp.
  rewrite (plan_other_allocates h (LT self) s (AxisInt ax) dt ax eq_refl Hlt).
  reflexivity.
Qed.

(** [shen_plan] keeps the basis and its [LT] consistent. *)
Lemma shen_plan_consistent (h h' : heap) (self self' : ShenDirichletBasis)
    (s : shape_arg) (a : axis_arg) (dt : dtype) :
  shen_consistent self ->
  shen_plan h self s a dt = Ok (h', self') -> shen_consistent self'.
Proof.
  intros Hc H. unfold shen_plan in H.
  apply bind_ok_inv in H as (ax & Ha & H).
  destruct (already_planned (base self) s ax) eqn:Hp.
  - injection H as _ <-. exact Hc.
  - destruct (shen_plan_other_allocates h self s a dt ax Hc Ha Hp)
      as (lt & Hlt & _ & Hs).
    unfold shen_plan in Hs. rewrite Ha in Hs. simpl in Hs. rewrite Hp in Hs.
    rewrite Hs in H. injection H as _ <-.
    rewrite (plan_other_allocates h (LT self) s (AxisInt ax) dt ax eq_refl) in Hlt.
    + injection Hlt as <-. split; reflexivity.
    + rewrite (shen_consistent_planned self s ax Hc). exact Hp.
Qed.

Lemma new_buffers_are_fresh (h : heap) (old : list buffer) (s : list Z)
    (dt : dtype) (b : buffer) :
  (forall o, In o old -> (buf_id o < h)%nat) ->
  In b [mkBuf h s dt; mkBuf (S h) s dt; mkBuf (S h) s dt] -> ~ In b old.
Proof.
  intros Hold Hb Hin. apply Hold in Hin.
  simpl in Hb. destruct Hb as [<- | [<- | [<- | []]]]; simpl in Hin; lia.
Qed.

End PlanFacts.

(** C9, first as stated: planning again with a different dtype (and the
    same shape and axis) is expected to discard the arrays and make new
    ones, and planning again with identical parameters to change nothing.
    The second call with another dtype returns the allocator and the basis
    as they were; and when the shape is given as an integer, as the
    constructors do with [plan=True], the second call with identical
    parameters makes new arrays. *)
Lemma plan_guard_ignores_dtype_and_integer_shapes :
  (exists h b,
     Legendre.plan 0%nat Legendre.unplanned (Legendre.ShapeTuple [8; 8])
       (Legendre.AxisTuple [0]) np_float = Ok (h, b) /\
     np_complex <> np_float /\
     Legendre.plan h b (Legendre.ShapeTuple [8; 8]) (Legendre.AxisTuple [0])
       np_complex = Ok (h, b)) /\
  (exists h b h' b',
     Legendre.plan 0%nat Legendre.unplanned (Legendre.ShapeInt 8)
       (Legendre.AxisInt 0) np_float = Ok (h, b) /\
     Legendre.plan h b (Legendre.ShapeInt 8) (Legendre.AxisInt 0) np_float
     = Ok (h', b') /\
     h' <> h /\ Legendre.current_buffers b' <> Legendre.current_buffers b).
Proof.
  split.
  - eexists. eexists. split; [reflexivity |].
    split; [discriminate | reflexivity].
  - do 4 eexists. split; [reflexivity |]. split; [reflexivity |].
    split; discriminate.
Qed.

(** C9, amended. [plan] looks at the shape and the axis only. When the basis
    is planned and the requested shape is a tuple equal to the shape of its
    input array and the axis is its axis, [plan] changes nothing, whatever
    the dtype. In every other case (a basis not planned yet, another shape,
    another axis, or an integer given as shape) it makes two new arrays and
    binds new transforms to them; the new arrays are none of those the basis
    held. The same holds for a Shen Dirichlet basis, which plans through its
    plain Legendre basis [LT]. *)
Theorem plan_noop_iff_same_shape_and_axis :
  forall (h : Legendre.heap) (self : Legendre.LegendreBase)
         (shen : Legendre.ShenDirichletBasis) (s : Legendre.shape_arg)
         (a : Legendre.axis_arg) (dt : dtype) (ax : Z),
    Legendre.first_axis a = Ok ax ->
    Legendre.shen_consistent shen ->
    let fresh := [Legendre.mkBuf h (Legendre.shape_of_arg s) dt;
                  Legendre.mkBuf (S h) (Legendre.shape_of_arg s) dt;
                  Legendre.mkBuf (S h) (Legendre.shape_of_arg s) dt] in
    (Legendre.already_planned self s ax = true <->
     exists f inp tmp out l,
       Legendre.forward self = Legendre.Transform f inp tmp out /\
       s = Legendre.ShapeTuple l /\ Legendre.buf_shape inp = l /\
       Legendre.axis self = Some ax) /\
    (Legendre.already_planned self s ax = true ->
     Legendre.plan h self s a dt = Ok (h, self)) /\
    (Legendre.already_planned (Legendre.base shen) s ax = true ->
     Legendre.shen_plan h shen s a dt = Ok (h, shen)) /\
    (Legendre.already_planned self s ax = false ->
     exists self',
       Legendre.plan h self s a dt = Ok (S (S h), self') /\
       Legendre.current_buffers self' = fresh /\
       Legendre.axis self' = Some ax /\
       ((forall o, In o (Legendre.buffers_of (Legendre.forward self)) ->
                   (Legendre.buf_id o < h)%nat) ->
        forall b, In b fresh ->
                  ~ In b (Legendre.buffers_of (Legendre.forward self)))) /\
    (Legendre.already_planned (Legendre.base shen) s ax = false ->
     exists shen',
       Legendre.shen_plan h shen s a dt = Ok (S (S h), shen') /\
       Legendre.current_buffers (Legendre.base shen') = fresh /\
       Legendre.current_buffers (Legendre.LT shen') = fresh /\
       Legendre.axis (Legendre.base shen') = Some ax /\
       Legendre.shen_consistent shen').
Proof.
  intros h self shen s a dt ax Ha Hc fresh.
  split; [apply already_planned_spec |].
  split; [exact (plan_same_is_noop h self s a dt ax Ha) |].
  split; [exact (shen_plan_same_is_noop h shen s a dt ax Ha) |].
  split.
  - intros Hp. eexists.
    split; [exact (plan_other_allocates h self s a dt ax Ha Hp) |].
    split; [reflexivity | split; [reflexivity |]].
    intros Hold b Hb.
    exact (new_buffers_are_fresh h _ (Legendre.shape_of_arg s) dt b Hold Hb).
  - intros Hp.
    destruct (shen_plan_other_allocates h shen s a dt ax Hc Ha Hp)
      as (lt & Hlt & Hbuf & Hs).
    eexists. split; [exact Hs |].
    split; [reflexivity | split; [exact Hbuf | split; [reflexivity |]]].
    now apply (shen_plan_consistent h _ shen _ s a dt Hc Hs).
Qed.

Lemma plan_noop_iff_same_shape_and_axis_witness :
  Legendre.first_axis (Legendre.AxisTuple [1]) = Ok 1 /\
  Legendre.shen_consistent (Legendre.mkShen Legendre.unplanned Legendre.unplanned) /\
  (Legendre.already_planned Legendre.unplanned (Legendre.ShapeTuple [4; 6]) 1 = false ->
   exists self',
     Legendre.plan 0%nat Legendre.unplanned (Legendre.ShapeTuple [4; 6])
       (Legendre.AxisTuple [1]) np_float = Ok (2%nat, self') /\
     Legendre.axis self' = Some 1).
Proof.
  split; [reflexivity |].
  split; [split; [reflexivity | exact I] |].
  intros Hp.
  destruct (plan_noop_iff_same_shape_and_axis 0%nat Legendre.unplanned
              (Legendre.mkShen Legendre.unplanned Legendre.unplanned)
              (Legendre.ShapeTuple [4; 6]) (Legendre.AxisTuple [1]) np_float 1
              eq_refl (conj eq_refl I))
    as (_ & _ & _ & Hnew & _).
  destruct (Hnew Hp) as (self' & Hplan & _ & Hax & _).
  exists self'. split; assumption.
Defined.

(** ** Injecting boundary values into coefficient arrays *)

Section BoundaryFacts.

Import BoundaryValues.

Lemma resolve_index_nonneg (n k : Z) :
  0 <= k < n -> resolve_index n k = Ok k.
Proof.
  intros H. unfold resolve_index.
  destruct (k <? 0) eqn:Hk; [apply Z.ltb_lt in Hk; lia |].
  destruct (0 <=? k) eqn:H0; [| apply Z.leb_gt in H0; lia].
  destruct (k <? n) eqn:H1; [reflexivity | apply Z.ltb_ge in H1; lia].
Qed.

Lemma resolve_index_neg (n k : Z) :
  0 < k <= n -> resolve_index n (- k) = Ok (n - k).
Proof.
  intros H. unfold resolve_index.
  destruct (- k <? 0) eqn:Hk; [| apply Z.ltb_ge in Hk; lia].
  replace (- k + n) with (n - k) by lia.
  destruct (0 <=? n - k) eqn:H0; [| apply Z.leb_gt in H0; lia].
  destruct (n - k <? n) eqn:H1; [reflexivity | apply Z.ltb_ge in H1; lia].
Qed.

Lemma axis_len_ok (u : ndarray) (ax : nat) (n : Z) :
  nth_error (shape u) ax = Some n -> axis_len u ax = Ok n.
Proof. intros H. unfold axis_len. now rewrite H. Qed.

(** The slices always follow the axis: after the constructor and after
    [set_slices] together with the assignment of [axis]. *)
Lemma init_slices_follow (v : bcval * bcval) (b : t) :
  init v = Ok b -> slices_follow b (axis b) /\ axis b = 0%nat.
Proof.
  unfold init, update_bcs. simpl.
  destruct (is_bc_type (fst v)); [| discriminate].
  destruct (is_bc_type (snd v)); [| discriminate].
  intros H. injection H as <-. repeat split.
Qed.

Lemma set_slices_follow (b : t) (ax : nat) :
  slices_follow (set_slices ax (set_axis ax b)) ax /\
  axis (set_slices ax (set_axis ax b)) = ax.
Proof. repeat split. Qed.

(** C3. With the slices on axis [ax], an array [u] holding at least two
    coefficients along [ax], and boundary coefficients that are numbers or
    arrays broadcastable to a slab of [u], [apply_before] succeeds; it adds
    [scales[0]*(bc0 + bc1)] to the entries at position 0 along [ax] and
    [scales[1]*(bc0 - bc1)] to those at position 1, with [bc0], [bc1] taken
    from [bcs_final] when [final] holds and from [bcs] otherwise; the shape
    and every other entry are unchanged. *)
Theorem apply_before_adds_mixed_boundary_terms :
  forall (b : t) (u : ndarray) (final : bool) (scales : Cx * Cx)
         (ax : nat) (n : Z) (f0 f1 : list Z -> Cx),
    sl0 b = sl ax 0 -> sl1 b = sl ax 1 ->
    nth_error (shape u) ax = Some n -> 2 <= n ->
    as_operand (fst (if final then bcs_final b else bcs b))
               (remove_at ax (shape u)) = Ok f0 ->
    as_operand (snd (if final then bcs_final b else bcs b))
               (remove_at ax (shape u)) = Ok f1 ->
    exists u',
      apply_before b u final scales = Ok u' /\
      shape u' = shape u /\
      forall i : list Z,
        item u' i =
          if nth ax i (-1) =? 0 then
            Cadd (item u i)
                 (Cmul (fst scales)
                       (Cadd (f0 (remove_at ax i)) (f1 (remove_at ax i))))
          else if nth ax i (-1) =? 1 then
            Cadd (item u i)
                 (Cmul (snd scales)
                       (Csub (f0 (remove_at ax i)) (f1 (remove_at ax i))))
          else item u i.
Proof.
  intros b u final scales ax n f0 f1 H0 H1 Hn Hge Hf0 Hf1.
  unfold apply_before, iadd_mixed.
  rewrite H0, H1. simpl idx_axis. simpl idx_pos.
  rewrite (axis_len_ok u ax n Hn). simpl bind.
  rewrite (resolve_index_nonneg n 0) by lia. simpl bind.
  rewrite Hf0, Hf1. simpl bind.
  unfold axis_len. simpl shape. rewrite Hn. simpl bind.
  rewrite (resolve_index_nonneg n 1) by lia. simpl bind.
  rewrite Hf0, Hf1. simpl bind.
  eexists. split; [reflexivity |]. split; [reflexivity |].
  intros i. simpl.
  destruct (nth ax i (-1) =? 1) eqn:E1; destruct (nth ax i (-1) =? 0) eqn:E0;
    try reflexivity.
  apply Z.eqb_eq in E1. apply Z.eqb_eq in E0. lia.
Qed.

(** C4. With the slices on axis [ax], an array [u] holding at least two
    coefficients along [ax], and boundary coefficients that can be stored
    in a slab of [u], [apply_after] succeeds; it overwrites the entries at
    the last two positions along [ax] with the first and the second
    boundary coefficient, taken from [bcs_final] when [final] holds and
    from [bcs] otherwise; the shape and every other entry are unchanged. *)
Theorem apply_after_overwrites_last_two :
  forall (b : t) (u : ndarray) (final : bool)
         (ax : nat) (n : Z) (f0 f1 : list Z -> Cx),
    slm2 b = sl ax (-2) -> slm1 b = sl ax (-1) ->
    nth_error (shape u) ax = Some n -> 2 <= n ->
    as_assigned (fst (if final then bcs_final b else bcs b))
                (remove_at ax (shape u)) = Ok f0 ->
    as_assigned (snd (if final then bcs_final b else bcs b))
                (remove_at ax (shape u)) = Ok f1 ->
    exists u',
      apply_after b u final = Ok u' /\
      shape u' = shape u /\
      forall i : list Z,
        item u' i =
          if nth ax i (-1) =? n - 2 then f0 (remove_at ax i)
          else if nth ax i (-1) =? n - 1 then f1 (remove_at ax i)
          else item u i.
Proof.
  intros b u final ax n f0 f1 H2 H1 Hn Hge Hf0 Hf1.
  assert (R2 : resolve_index n (-2) = Ok (n - 2))
    by (apply (resolve_index_neg n 2); lia).
  assert (R1 : resolve_index n (-1) = Ok (n - 1))
    by (apply (resolve_index_neg n 1); lia).
  unfold apply_after, setitem.
  rewrite H2, H1. simpl idx_axis. simpl idx_pos.
  rewrite (axis_len_ok u ax n Hn). simpl bind.
  rewrite R2. simpl bind.
  rewrite Hf0. simpl bind.
  unfold axis_len. simpl shape. rewrite Hn. simpl bind.
  rewrite R1. simpl bind.
  rewrite Hf1. simpl bind.
  eexists. split; [reflexivity |]. split; [reflexivity |].
  intros i. simpl.
  destruct (nth ax i (-1) =? n - 1) eqn:E1;
    destruct (nth ax i (-1) =? n - 2) eqn:E2; try reflexivity.
  apply Z.eqb_eq in E1. apply Z.eqb_eq in E2. lia.
Qed.

End BoundaryFacts.

Lemma apply_before_adds_mixed_boundary_terms_witness :
  BoundaryValues.sl0 sample_bvals = BoundaryValues.sl 0 0 /\
  BoundaryValues.sl1 sample_bvals = BoundaryValues.sl 0 1 /\
  nth_error (shape sample_coefficients) 0 = Some 4 /\
  2 <= 4 /\
  as_operand (BArr sample_final0) (remove_at 0 (shape sample_coefficients))
  = Ok (fun i => item sample_final0 (bcast_index (shape sample_final0) i)) /\
  as_operand (BArr sample_final1) (remove_at 0 (shape sample_coefficients))
  = Ok (fun i => item sample_final1 (bcast_index (shape sample_final1) i)) /\
  exists u',
    BoundaryValues.apply_before sample_bvals sample_coefficients true (half, half)
    = Ok u' /\
    shape u' = [4; 3].
Proof.
  repeat (split; [first [reflexivity | lia] |]).
  destruct (apply_before_adds_mixed_boundary_terms sample_bvals
              sample_coefficients true (half, half) 0%nat 4
              (fun i => item sample_final0 (bcast_index (shape sample_final0) i))
              (fun i => item sample_final1 (bcast_index (shape sample_final1) i))
              eq_refl eq_refl eq_refl ltac:(lia) eq_refl eq_refl)
    as (u' & Hu & Hs & _).
  exists u'. split; assumption.
Defined.

Lemma apply_after_overwrites_last_two_witness :
  BoundaryValues.slm2 sample_bvals = BoundaryValues.sl 0 (-2) /\
  BoundaryValues.slm1 sample_bvals = BoundaryValues.sl 0 (-1) /\
  nth_error (shape sample_coefficients) 0 = Some 4 /\
  2 <= 4 /\
  as_assigned (BNum (mkCx 1 0)) (remove_at 0 (shape sample_coefficients))
  = Ok (fun _ => mkCx 1 0) /\
  as_assigned (BNum (mkCx (-1) 0)) (remove_at 0 (shape sample_coefficients))
  = Ok (fun _ => mkCx (-1) 0) /\
  exists u',
    BoundaryValues.apply_after sample_bvals sample_coefficients false = Ok u' /\
    item u' [2; 1] = mkCx 1 0 /\ item u' [3; 1] = mkCx (-1) 0 /\
    item u' [1; 1] = item sample_coefficients [1; 1].
Proof.
  repeat (split; [first [reflexivity | lia] |]).
  destruct (apply_after_overwrites_last_two sample_bvals sample_coefficients
              false 0%nat 4 (fun _ => mkCx 1 0) (fun _ => mkCx (-1) 0)
              eq_refl eq_refl eq_refl ltac:(lia) eq_refl eq_refl)
    as (u' & Hu & _ & Hi).
  exists u'. split; [assumption |].
  split; [apply (Hi [2; 1]) | split; [apply (Hi [3; 1]) | apply (Hi [1; 1])]].
Defined.

(** ** Broadcasting between equal shapes *)

Section ShapeFacts.

Lemma Forall2_rev_both {A B : Type} (R : A -> B -> Prop) (l : list A)
    (l' : list B) :
  Forall2 R l l' -> Forall2 R (rev l) (rev l').
Proof.
  induction 1 as [| x y l l' Hxy _ IH]; simpl; [constructor |].
  apply Forall2_app; [exact IH | repeat constructor; exact Hxy].
Qed.

Lemma broadcastable_rev_refl (s : list Z) : broadcastable_rev s s = true.
Proof.
  induction s as [| a s IH]; simpl; [reflexivity |].
  now rewrite Z.eqb_refl, IH.
Qed.

Lemma broadcastable_refl (s : list Z) : broadcastable s s = true.
Proof. apply broadcastable_rev_refl. Qed.

Lemma bcast_index_rev_valid (s i : list Z) :
  valid_index s i -> bcast_index_rev s i = i.
Proof.
  unfold valid_index. induction 1 as [| k d i s Hk _ IH]; simpl; [reflexivity |].
  rewrite IH. destruct (d =? 1) eqn:E; [| reflexivity].
  apply Z.eqb_eq in E. f_equal. lia.
Qed.

Lemma bcast_index_valid (s i : list Z) :
  valid_index s i -> bcast_index s i = i.
Proof.
  intros H. unfold bcast_index.
  rewrite bcast_index_rev_valid; [apply rev_involutive |].
  now apply Forall2_rev_both.
Qed.

Lemma replace_at_same {A : Type} (ax : nat) (s : list A) (x : A) :
  nth_error s ax = Some x -> replace_at ax x s = s.
Proof.
  revert s. induction ax as [| ax IH]; intros [| y s]; simpl; intros H;
    try discriminate.
  - now injection H as ->.
  - now rewrite IH.
Qed.

Lemma replace_at_twice {A : Type} (ax : nat) (s : list A) (x y : A) :
  replace_at ax x (replace_at ax y s) = replace_at ax x s.
Proof.
  revert s. induction ax as [| ax IH]; intros [| z s]; simpl;
    try reflexivity.
  now rewrite IH.
Qed.

Lemma nth_error_replace_at {A : Type} (ax : nat) (s : list A) (x y : A) :
  nth_error s ax = Some y -> nth_error (replace_at ax x s) ax = Some x.
Proof.
  revert s. induction ax as [| ax IH]; intros [| z s]; simpl; intros H;
    try discriminate; [reflexivity | now apply IH].
Qed.

Lemma length_replace_at {A : Type} (ax : nat) (s : list A) (x : A) :
  length (replace_at ax x s) = length s.
Proof.
  revert s. induction ax as [| ax IH]; intros [| z s]; simpl;
    try reflexivity.
  now rewrite IH.
Qed.

Lemma in_block_valid (s i : list Z) :
  valid_index s i -> R2C.in_block s i = true.
Proof.
  unfold valid_index. induction 1 as [| k d i s Hk _ IH]; simpl; [reflexivity |].
  rewrite IH. destruct (k <? d) eqn:E; [reflexivity |].
  apply Z.ltb_ge in E. lia.
Qed.

Lemma in_block_valid_at (s i : list Z) (ax : nat) (k : Z) :
  valid_index s i -> nth ax i (-1) = k ->
  R2C.in_block (replace_at ax (k + 1) s) i = true.
Proof.
  unfold valid_index. intros H. revert ax.
  induction H as [| j d i s Hj Hrest IH]; intros ax Hk; simpl.
  - destruct ax; reflexivity.
  - destruct ax as [| ax]; simpl in *.
    + rewrite (in_block_valid s i Hrest).
      destruct (j <? k + 1) eqn:E; [reflexivity |].
      apply Z.ltb_ge in E. lia.
    + rewrite (IH ax Hk).
      destruct (j <? d) eqn:E; [reflexivity |].
      apply Z.ltb_ge in E. lia.
Qed.

(** padding only lengthens the axis of the transform *)
Lemma block_shape_padded (s : list Z) (ax : nat) (n m : Z) :
  Forall (fun d => 0 <= d) s ->
  nth_error s ax = Some n -> n <= m ->
  R2C.block_shape s (replace_at ax m s) = s.
Proof.
  intros Hpos. revert ax.
  induction Hpos as [| d s Hd _ IH]; intros [| ax] H Hle; simpl in *;
    try discriminate.
  - injection H as ->. f_equal; [lia |].
    clear. induction s as [| a s IHs]; simpl; [reflexivity |].
    f_equal; [| exact IHs].
    destruct (Z.max_spec a 0) as [[? ->] | [? ->]]; lia.
  - f_equal; [lia | now apply IH].
Qed.

End ShapeFacts.

(** ** Truncation and padding of the real-to-complex basis *)

Section NyquistFacts.

Variable b : R2C.t.
Variables small big : ndarray.
Variables n m : Z.

Hypothesis Hpad : R2C.is_padded b = true.
Hypothesis Heven : R2C.even_N b = true.
Hypothesis Hshape : Forall (fun d => 0 <= d) (shape small).
Hypothesis Hn : nth_error (shape small) (R2C.axis b) = Some n.
Hypothesis Hn1 : 1 <= n.
Hypothesis Hbig : shape big = replace_at (R2C.axis b) m (shape small).
Hypothesis Hnm : n <= m.

Lemma take_along_big :
  R2C.take_along big (ndim (zeros (shape small))) (R2C.axis b) n
  = Ok (mkArr (shape small) (item big)).
Proof.
  unfold R2C.take_along, ndim. simpl shape.
  rewrite Hbig, length_replace_at, Nat.ltb_irrefl.
  rewrite (nth_error_replace_at _ _ m n Hn).
  rewrite replace_at_twice.
  replace (Z.min n m) with n by lia.
  now rewrite (replace_at_same _ _ n Hn).
Qed.

Lemma truncation_forward_nyquist :
  exists t,
    R2C._truncation_forward b big small = Ok t /\
    shape t = shape small /\
    forall i, valid_index (shape small) i ->
      (nth (R2C.axis b) i (-1) = n - 1 ->
       Ceq (item t i) (mkCx (2 * re (item big i)) 0)) /\
      (nth (R2C.axis b) i (-1) < n - 1 -> item t i = item big i).
Proof.
  unfold R2C._truncation_forward. rewrite Hpad, Heven.
  unfold axis_len. simpl shape. rewrite Hn. simpl bind.
  rewrite take_along_big. simpl bind.
  unfold assign_all, as_operand. simpl shape.
  rewrite broadcastable_refl. simpl bind.
  rewrite (resolve_index_nonneg n (n - 1)) by lia. simpl bind.
  eexists. split; [reflexivity |]. split; [reflexivity |].
  intros i Hi. simpl. rewrite (bcast_index_valid _ _ Hi). split; intros Hk.
  - rewrite Hk, Z.eqb_refl. split; simpl; ring.
  - destruct (nth (R2C.axis b) i (-1) =? n - 1) eqn:E; [| reflexivity].
    apply Z.eqb_eq in E. lia.
Qed.

Lemma padding_backward_nyquist :
  exists p,
    R2C._padding_backward b small big = Ok p /\
    shape p = shape big /\
    forall i, valid_index (shape small) i ->
      (nth (R2C.axis b) i (-1) = n - 1 ->
       Ceq (item p i) (mkCx (re (item small i) / 2) 0)) /\
      (nth (R2C.axis b) i (-1) < n - 1 -> item p i = item small i).
Proof.
  unfold R2C._padding_backward. rewrite Hpad, Heven.
  rewrite (axis_len_ok small _ n Hn). simpl bind.
  rewrite Hbig, length_replace_at, Nat.ltb_irrefl.
  unfold as_operand.
  rewrite (block_shape_padded _ _ n m Hshape Hn Hnm), broadcastable_refl.
  simpl bind.
  unfold axis_len. simpl shape.
  rewrite (nth_error_replace_at _ _ m n Hn). simpl bind.
  rewrite (resolve_index_nonneg m (n - 1)) by lia. simpl bind.
  eexists. split; [reflexivity |]. split; [reflexivity |].
  intros i Hi. simpl.
  rewrite (in_block_valid _ _ Hi), (bcast_index_valid _ _ Hi).
  split; intros Hk.
  - rewrite Hk, Z.eqb_refl.
    replace (n - 1 + 1) with (nth (R2C.axis b) i (-1) + 1) by lia.
    rewrite (in_block_valid_at _ _ _ _ Hi eq_refl).
    split; simpl; field.
  - destruct (nth (R2C.axis b) i (-1) =? n - 1) eqn:E; [| reflexivity].
    apply Z.eqb_eq in E. lia.
Qed.

End NyquistFacts.

Lemma is_padded_spec (b : R2C.t) :
  R2C.is_padded b = true <-> (1 + (1 # 100000000) < R2C.padding_factor b)%Q.
Proof.
  unfold R2C.is_padded. rewrite negb_true_iff. split.
  - intros H. apply Qnot_le_lt. intros Hle.
    apply Qle_bool_iff in Hle. congruence.
  - intros H. destruct (Qle_bool _ _) eqn:E; [| reflexivity].
    apply Qle_bool_iff in E. apply Qlt_not_le in H. contradiction.
Qed.

(** C8, first as stated: a padding factor above one is expected to make the
    forward truncation store twice the real part of the Nyquist mode. With
    the factor [1 + 1e-9] the truncation does nothing: the output array keeps
    the coefficient it held, imaginary part included. *)
Lemma r2c_truncation_skipped_just_above_one :
  (1 < R2C.padding_factor sample_r2c_barely)%Q /\
  R2C.even_N sample_r2c_barely = true /\
  exists t,
    R2C._truncation_forward sample_r2c_barely (sample_spectrum 5)
      (sample_spectrum 5) = Ok t /\
    ~ Ceq (item t [4]) (mkCx (2 * re (item (sample_spectrum 5) [4])) 0).
Proof.
  split; [reflexivity |]. split; [reflexivity |].
  eexists. split; [reflexivity |].
  intros [_ Him]. simpl in Him. discriminate Him.
Qed.

(** C8, amended. For a real-to-complex basis with even [N] whose padding
    factor exceeds [1 + 1e-8], and a truncated array that differs from the
    padded one only by a shorter axis of the transform (with at least one
    mode): the forward truncation stores, at the last retained mode, twice
    the real part of the padded coefficient with imaginary part zero; the
    backward padding stores half the real part of the truncated coefficient
    with imaginary part zero; both copy every lower mode unchanged. With a
    padding factor of at most [1 + 1e-8] the truncation leaves the output
    array as it is. *)
Theorem r2c_nyquist_truncation_and_padding :
  forall (b : R2C.t) (small big : ndarray) (n m : Z),
    R2C.even_N b = true ->
    Forall (fun d => 0 <= d) (shape small) ->
    nth_error (shape small) (R2C.axis b) = Some n ->
    1 <= n ->
    shape big = replace_at (R2C.axis b) m (shape small) ->
    n <= m ->
    ((1 + (1 # 100000000) < R2C.padding_factor b)%Q ->
     (exists t,
        R2C._truncation_forward b big small = Ok t /\
        shape t = shape small /\
        forall i, valid_index (shape small) i ->
          (nth (R2C.axis b) i (-1) = n - 1 ->
           Ceq (item t i) (mkCx (2 * re (item big i)) 0)) /\
          (nth (R2C.axis b) i (-1) < n - 1 -> item t i = item big i)) /\
     (exists p,
        R2C._padding_backward b small big = Ok p /\
        shape p = shape big /\
        forall i, valid_index (shape small) i ->
          (nth (R2C.axis b) i (-1) = n - 1 ->
           Ceq (item p i) (mkCx (re (item small i) / 2) 0)) /\
          (nth (R2C.axis b) i (-1) < n - 1 -> item p i = item small i))) /\
    ((R2C.padding_factor b <= 1 + (1 # 100000000))%Q ->
     R2C._truncation_forward b big small = Ok small).
Proof.
  intros b small big n m Heven Hshape Hn Hn1 Hbig Hnm. split.
  - intros Hpf. apply is_padded_spec in Hpf. split.
    + exact (truncation_forward_nyquist b small big n m Hpf Heven Hn Hn1 Hbig Hnm).
    + exact (padding_backward_nyquist b small big n m Hpf Heven Hshape Hn Hn1
               Hbig Hnm).
  - intros Hpf. unfold R2C._truncation_forward, R2C.is_padded.
    apply Qle_bool_iff in Hpf. now rewrite Hpf.
Qed.

Lemma r2c_nyquist_truncation_and_padding_witness :
  R2C.even_N sample_r2c = true /\
  Forall (fun d => 0 <= d) (shape (sample_spectrum 5)) /\
  nth_error (shape (sample_spectrum 5)) (R2C.axis sample_r2c) = Some 5 /\
  1 <= 5 /\
  shape (sample_spectrum 7)
  = replace_at (R2C.axis sample_r2c) 7 (shape (sample_spectrum 5)) /\
  5 <= 7 /\
  (1 + (1 # 100000000) < R2C.padding_factor sample_r2c)%Q /\
  exists t,
    R2C._truncation_forward sample_r2c (sample_spectrum 7) (sample_spectrum 5)
    = Ok t /\
    shape t = [5].
Proof.
  split; [reflexivity |].
  split; [repeat constructor; discriminate |].
  split; [reflexivity |]. split; [lia |].
  split; [reflexivity |]. split; [lia |]. split; [reflexivity |].
  destruct (r2c_nyquist_truncation_and_padding sample_r2c (sample_spectrum 5)
              (sample_spectrum 7) 5 7 eq_refl
              ltac:(repeat constructor; discriminate) eq_refl ltac:(lia)
              eq_refl ltac:(lia)) as [Hpadded _].
  destruct (Hpadded eq_refl) as [(t & Ht & Hs & _) _].
  exists t. split; assumption.
Defined.

(** ** Validation of the pipeline order *)

Section AxesFacts.

Lemma zmem_In (x : Z) (l : list Z) : zmem x l = true <-> In x l.
Proof.
  unfold zmem. rewrite existsb_exists. split.
  - intros (y & Hy & E). apply Z.eqb_eq in E. now subst.
  - intros H. exists x. split; [exact H | apply Z.eqb_refl].
Qed.

Lemma length_insert_sorted (x : Z) (l : list Z) :
  length (insert_sorted x l) = S (length l).
Proof.
  induction l as [| y t IH]; simpl; [reflexivity |].
  destruct (x <=? y); simpl; [reflexivity | now rewrite IH].
Qed.

Lemma length_py_sorted (l : list Z) : length (py_sorted l) = length l.
Proof.
  induction l as [| x t IH]; simpl; [reflexivity |].
  now rewrite length_insert_sorted, IH.
Qed.

Lemma length_py_set_le (l : list Z) : (length (py_set l) <= length l)%nat.
Proof.
  induction l as [| x t IH]; simpl; [lia |].
  destruct (zmem x t); simpl; lia.
Qed.

Lemma py_set_NoDup_id (l : list Z) : NoDup l -> py_set l = l.
Proof.
  induction 1 as [| x t Hx _ IH]; simpl; [reflexivity |].
  destruct (zmem x t) eqn:E; [apply zmem_In in E; contradiction |].
  now rewrite IH.
Qed.

Lemma py_set_same_length_NoDup (l : list Z) :
  length (py_set l) = length l -> NoDup l.
Proof.
  induction l as [| x t IH]; simpl; [constructor |].
  pose proof (length_py_set_le t) as Hle.
  destruct (zmem x t) eqn:E; simpl; intros H; [lia |].
  constructor; [| apply IH; lia].
  intros Hin. apply zmem_In in Hin. congruence.
Qed.

(** [sorted(axes) == sorted(set(axes))] holds exactly for lists without
    repetition. *)
Lemma sorted_eq_sorted_set_iff (l : list Z) :
  shape_eqb (py_sorted l) (py_sorted (py_set l)) = true <-> NoDup l.
Proof.
  rewrite list_eqb_Z_eq. split.
  - intros H. apply py_set_same_length_NoDup.
    rewrite <- (length_py_sorted (py_set l)), <- H. apply length_py_sorted.
  - intros H. now rewrite py_set_NoDup_id.
Qed.

Lemma fold_left_min_spec (l : list Z) (x : Z) (lo : Z) :
  lo <= fold_left Z.min l x <-> lo <= x /\ Forall (fun y => lo <= y) l.
Proof.
  revert x. induction l as [| y t IH]; intros x; simpl.
  - split; [intros H; split; [exact H | constructor] | intros [H _]; exact H].
  - rewrite IH. split.
    + intros [Hm Ht]. split; [lia |]. constructor; [lia | exact Ht].
    + intros [Hx Hall]. inversion Hall; subst. split; [lia | assumption].
Qed.

Lemma fold_left_max_spec (l : list Z) (x : Z) (hi : Z) :
  fold_left Z.max l x < hi <-> x < hi /\ Forall (fun y => y < hi) l.
Proof.
  revert x. induction l as [| y t IH]; intros x; simpl.
  - split; [intros H; split; [exact H | constructor] | intros [H _]; exact H].
  - rewrite IH. split.
    + intros [Hm Ht]. split; [lia |]. constructor; [lia | exact Ht].
    + intros [Hx Hall]. inversion Hall; subst. split; [lia | assumption].
Qed.

Lemma acceptable_length (l : list Z) (ndims : Z) :
  acceptable_axes l ndims -> 0 < Z.of_nat (length l) <= ndims.
Proof.
  intros (Hne & Hr & Hnd). split.
  - destruct l; [contradiction | simpl; lia].
  - assert (H : (length (map Z.to_nat l) <= length (seq 0 (Z.to_nat ndims)))%nat).
    { apply NoDup_incl_length.
      - clear Hne. induction Hnd as [| x t Hx Hnd IH]; simpl; constructor.
        + intros Hin. apply in_map_iff in Hin as (y & Hy & Hin).
          inversion Hr as [| ? ? Hx0 Ht]; subst.
          rewrite Forall_forall in Ht. specialize (Ht y Hin).
          assert (x = y) by lia. subst. contradiction.
        + apply IH. now inversion Hr.
      - intros k Hk. apply in_map_iff in Hk as (y & <- & Hin).
        rewrite Forall_forall in Hr. specialize (Hr y Hin).
        apply in_seq. lia. }
    rewrite length_map, length_seq in H.
    destruct l as [| x t]; [contradiction |].
    inversion Hr; subst. lia.
Qed.

Lemma resolve_axes_spec (a : axes_arg) (ndims : Z) (l : list Z) :
  TensorProductSpace.resolve_axes a ndims = Ok l <->
  l = resolved_axes a ndims /\ acceptable_axes l ndims.
Proof.
  unfold TensorProductSpace.resolve_axes. fold (resolved_axes a ndims).
  set (ax := resolved_axes a ndims). split.
  - intros H.
    apply bind_ok_inv in H as (lo & Hlo & H).
    apply bind_ok_inv in H as (u1 & Hge & H). apply assert_ok_inv in Hge.
    apply bind_ok_inv in H as (hi & Hhi & H).
    apply bind_ok_inv in H as (u2 & Hlt & H). apply assert_ok_inv in Hlt.
    apply bind_ok_inv in H as (u3 & Hlen & H). apply assert_ok_inv in Hlen.
    apply bind_ok_inv in H as (u4 & Hnd & H). apply assert_ok_inv in Hnd.
    injection H as <-. split; [reflexivity |].
    apply sorted_eq_sorted_set_iff in Hnd.
    destruct ax as [| x t]; [discriminate |].
    simpl in Hlo, Hhi. injection Hlo as <-. injection Hhi as <-.
    apply Z.geb_le in Hge. apply Z.ltb_lt in Hlt.
    apply fold_left_min_spec in Hge as [Hx0 Ht0].
    apply fold_left_max_spec in Hlt as [Hx1 Ht1].
    split; [discriminate |]. split; [| exact Hnd].
    constructor; [lia |].
    rewrite Forall_forall in *. intros y Hy.
    specialize (Ht0 y Hy). specialize (Ht1 y Hy). lia.
  - intros [-> Hacc].
    pose proof (acceptable_length _ _ Hacc) as Hlen.
    destruct Hacc as (Hne & Hr & Hnd).
    destruct ax as [| x t] eqn:Eax; [contradiction |].
    inversion Hr as [| ? ? Hx Ht]; subst.
    unfold py_min, py_max. cbv beta iota delta [bind assert].
    assert (Hge : (fold_left Z.min t x >=? 0) = true).
    { apply Z.geb_le. apply fold_left_min_spec. split; [lia |].
      eapply Forall_impl; [| exact Ht]. simpl. intros; lia. }
    rewrite Hge. cbv beta iota delta [bind assert].
    assert (Hlt : (fold_left Z.max t x <? ndims) = true).
    { apply Z.ltb_lt. apply fold_left_max_spec. split; [lia |].
      eapply Forall_impl; [| exact Ht]. simpl. intros; lia. }
    rewrite Hlt. cbv beta iota delta [bind assert].
    assert (Hl : ((0 <? Z.of_nat (length (x :: t)))
                  && (Z.of_nat (length (x :: t)) <=? ndims)) = true).
    { apply andb_true_iff. split; [apply Z.ltb_lt | apply Z.leb_le]; lia. }
    rewrite Hl. cbv beta iota delta [bind assert].
    apply sorted_eq_sorted_set_iff in Hnd. rewrite Hnd. reflexivity.
Qed.

End AxesFacts.

(** ** The planned pipeline keeps its plan *)

Section PipelineFacts.

Variable Subcomm_new : Z -> list Z -> list Z.
Variable decompose : list Z -> list Z -> Z -> list Z * list Z.
Variable plan_output : basis -> list Z -> Z -> dtype -> list Z * dtype.
Variable run_xfftn : basis -> ndarray -> ndarray.
Variable run_transfer : transfer_op -> ndarray -> ndarray.
Variable lambdify_bc :
  bcval -> bcval -> TensorProductSpace.t -> result (bcval * bcval).

Import TensorProductSpace.

Lemma same_plan_refl (T : t) : same_plan T T.
Proof. repeat split. Qed.

Lemma same_plan_trans (T1 T2 T3 : t) :
  same_plan T1 T2 -> same_plan T2 T3 -> same_plan T1 T3.
Proof.
  unfold same_plan. intros (A1 & A2 & A3 & A4 & A5 & A6) (B1 & B2 & B3 & B4 & B5 & B6).
  repeat split; congruence.
Qed.

Lemma put_stage_same_plan (T : t) (i : Z) (s : stage) :
  same_plan T (put_stage T i s).
Proof.
  unfold same_plan, put_stage, set_xfftn. simpl.
  rewrite length_replace_at. repeat split.
Qed.

Lemma add_call_same_plan (e : event) (T : t) : same_plan T (add_call e T).
Proof. repeat split. Qed.

Lemma set_input_same_plan (T T' : t) (i : Z) (a : ndarray) :
  set_input T i a = Ok T' -> same_plan T T'.
Proof.
  unfold set_input. intros H.
  apply bind_ok_inv in H as (s & _ & H).
  apply bind_ok_inv in H as (a' & _ & H).
  injection H as <-. apply put_stage_same_plan.
Qed.

Lemma call_xfftn_same_plan (T T' : t) (i : Z) :
  call_xfftn run_xfftn T i = Ok T' -> same_plan T T'.
Proof.
  unfold call_xfftn. intros H.
  apply bind_ok_inv in H as (s & _ & H).
  apply bind_ok_inv in H as (b & _ & H).
  injection H as <-.
  eapply same_plan_trans; [apply put_stage_same_plan | apply add_call_same_plan].
Qed.

Lemma copy_through_same_plan (T T' : t) (i : Z) :
  copy_through T i = Ok T' -> same_plan T T'.
Proof.
  unfold copy_through. intros H.
  apply bind_ok_inv in H as (s & _ & H).
  apply bind_ok_inv in H as (o & _ & H).
  injection H as <-. apply put_stage_same_plan.
Qed.

Lemma call_transfer_same_plan (T T' : t) (i : Z) :
  call_transfer run_transfer T i = Ok T' -> same_plan T T'.
Proof.
  unfold call_transfer. intros H.
  apply bind_ok_inv in H as (sa & _ & H).
  apply bind_ok_inv in H as (sb & _ & H).
  apply bind_ok_inv in H as (tr & _ & H).
  injection H as <-.
  eapply same_plan_trans; [apply put_stage_same_plan | apply add_call_same_plan].
Qed.

Lemma push_before_same_plan (T T' : t) (b b' : ndarray) (k : Z) :
  push_before run_xfftn run_transfer T b k = Ok (T', b') -> same_plan T T'.
Proof.
  unfold push_before. intros H.
  destruct (k =? 0).
  { injection H as <- _. apply same_plan_refl. }
  destruct (k =? 1).
  { apply bind_ok_inv in H as (T1 & H1 & H).
    apply bind_ok_inv in H as (T2 & H2 & H).
    apply bind_ok_inv in H as (T3 & H3 & H).
    apply bind_ok_inv in H as (s & _ & H). injection H as <- _.
    apply set_input_same_plan in H1. apply call_xfftn_same_plan in H2.
    apply call_transfer_same_plan in H3.
    eauto using same_plan_trans. }
  destruct (k =? 2); [| discriminate].
  apply bind_ok_inv in H as (T1 & H1 & H).
  apply bind_ok_inv in H as (T2 & H2 & H).
  apply bind_ok_inv in H as (T3 & H3 & H).
  apply bind_ok_inv in H as (T4 & H4 & H).
  apply bind_ok_inv in H as (T5 & H5 & H).
  apply bind_ok_inv in H as (s & _ & H). injection H as <- _.
  apply set_input_same_plan in H1. apply call_xfftn_same_plan in H2.
  apply call_transfer_same_plan in H3. apply call_xfftn_same_plan in H4.
  apply call_transfer_same_plan in H5.
  eauto 6 using same_plan_trans.
Qed.

Lemma stage_call_same_plan (T T' : t) (tag : bool) (i : Z) :
  (if tag then copy_through T i else call_xfftn run_xfftn T i) = Ok T' ->
  same_plan T T'.
Proof.
  destruct tag; [apply copy_through_same_plan | apply call_xfftn_same_plan].
Qed.

Lemma final_loop_same_plan (fuel : nat) (T T' : t) (tags : list bool) (i : Z) :
  final_loop run_xfftn run_transfer T tags i fuel = Ok T' -> same_plan T T'.
Proof.
  revert T i. induction fuel as [| fuel IH]; intros T i H; simpl in H.
  - injection H as <-. apply same_plan_refl.
  - apply bind_ok_inv in H as (tag & _ & H).
    apply bind_ok_inv in H as (T1 & H1 & H).
    apply bind_ok_inv in H as (T2 & H2 & H).
    apply stage_call_same_plan in H1. apply call_transfer_same_plan in H2.
    apply IH in H. eauto using same_plan_trans.
Qed.

Lemma final_pass_same_plan (T T' : t) (b b' : ndarray) (tags : list bool) :
  final_pass run_xfftn run_transfer T b tags = Ok (T', b') -> same_plan T T'.
Proof.
  unfold final_pass. intros H.
  apply bind_ok_inv in H as (T1 & H1 & H).
  apply bind_ok_inv in H as (T2 & H2 & H).
  apply bind_ok_inv in H as (tag & _ & H).
  apply bind_ok_inv in H as (T3 & H3 & H).
  apply bind_ok_inv in H as (s & _ & H). injection H as <- _.
  apply set_input_same_plan in H1. apply final_loop_same_plan in H2.
  apply stage_call_same_plan in H3. eauto using same_plan_trans.
Qed.

Lemma set_tensor_bcs_space_same_plan (self self' : BoundaryValues.t) (T T' : t) :
  set_tensor_bcs_space run_xfftn run_transfer lambdify_bc self T = Ok (self', T') ->
  same_plan T T'.
Proof.
  unfold set_tensor_bcs_space. intros H.
  destruct (existsb _ _); [| injection H as _ <-; apply same_plan_refl].
  apply bind_ok_inv in H as (sc & _ & H).
  apply bind_ok_inv in H as (dbase & _ & H).
  apply bind_ok_inv in H as (ax & _ & H).
  apply bind_ok_inv in H as (nh & _ & H).
  destruct (negb nh); [injection H as _ <-; apply same_plan_refl |].
  apply bind_ok_inv in H as (b & _ & H).
  apply bind_ok_inv in H as ([T1 b_hat] & H1 & H).
  apply bind_ok_inv in H as (c0 & _ & H).
  apply bind_ok_inv in H as (c1 & _ & H).
  apply bind_ok_inv in H as ([T2 b_fin] & H2 & H).
  apply bind_ok_inv in H as (f0 & _ & H).
  apply bind_ok_inv in H as (f1 & _ & H). injection H as _ <-.
  apply push_before_same_plan in H1. apply final_pass_same_plan in H2.
  eauto using same_plan_trans.
Qed.

Lemma map_replace_at {A B : Type} (f : A -> B) (i : nat) (x : A) (l : list A) :
  nth_error (map f l) i = Some (f x) -> map f (replace_at i x l) = map f l.
Proof.
  revert l. induction i as [| i IH]; intros [| y l]; simpl; intros H;
    try reflexivity.
  - now injection H as ->.
  - now rewrite IH.
Qed.

Lemma wire_bcs_same_plan (idxs : list nat) (T T' : t) :
  wire_bcs run_xfftn run_transfer lambdify_bc T idxs = Ok T' -> same_plan T T'.
Proof.
  revert T. induction idxs as [| i rest IH]; intros T H; simpl in H.
  - injection H as <-. apply same_plan_refl.
  - destruct (nth_error (bases T) i) as [base |] eqn:Hb; [| now apply IH].
    destruct (is_dirichlet (kind base)); [| now apply IH].
    apply bind_ok_inv in H as (bc & _ & H).
    apply bind_ok_inv in H as ([bc' T1] & H1 & H).
    apply set_tensor_bcs_space_same_plan in H1.
    apply IH in H.
    eapply same_plan_trans; [exact H1 |].
    eapply same_plan_trans; [| exact H].
    destruct H1 as (_ & _ & _ & _ & Hk & Ha).
    unfold same_plan, set_bases. simpl.
    rewrite !map_replace_at; [repeat split | |].
    + rewrite <- Ha. now rewrite nth_error_map, Hb.
    + rewrite <- Hk. now rewrite nth_error_map, Hb.
Qed.

Lemma plan_step_lengths (acc acc' : planning) (ax : Z) :
  plan_step decompose plan_output acc ax = Ok acc' ->
  length (pl_xfftn acc') = S (length (pl_xfftn acc)) /\
  length (pl_transfer acc') = S (length (pl_transfer acc)).
Proof.
  unfold plan_step. intros H.
  apply bind_ok_inv in H as ([[bs s] odt] & _ & H).
  apply bind_ok_inv in H as ([[p dt] sh] & _ & H).
  injection H as <-. simpl. rewrite !length_app. simpl. lia.
Qed.

Lemma plan_loop_lengths (l : list Z) (acc acc' : planning) :
  plan_loop decompose plan_output acc l = Ok acc' ->
  length (pl_xfftn acc') = (length (pl_xfftn acc) + length l)%nat /\
  length (pl_transfer acc') = (length (pl_transfer acc) + length l)%nat.
Proof.
  revert acc. induction l as [| ax rest IH]; intros acc H; simpl in H.
  - injection H as <-. simpl. lia.
  - apply bind_ok_inv in H as (acc1 & H1 & H).
    apply plan_step_lengths in H1 as [Hx Ht].
    apply IH in H as [Hx' Ht']. simpl. lia.
Qed.

Lemma length_removelast {A : Type} (l : list A) :
  length (removelast l) = pred (length l).
Proof.
  rewrite removelast_firstn_len, length_firstn. lia.
Qed.

(** What a successful construction went through. *)
Lemma init_inv (c : comm_arg) (bs : list basis) (a : axes_arg)
    (dt : option dtype) (slab : bool) (T : t) :
  init Subcomm_new decompose plan_output run_xfftn run_transfer lambdify_bc
       c bs a dt slab = Ok T ->
  exists axes0 last lastb,
    resolve_axes a (Z.of_nat (length bs)) = Ok axes0 /\
    py_nth axes0 (-1) = Ok last /\
    py_nth bs last = Ok lastb /\
    resolve_dtype dt lastb = Ok (t_dtype T) /\
    axes T = map (fun x => [x]) axes0 /\
    length (xfftn T) = length axes0 /\
    length (transfer T) = pred (length axes0).
Proof.
  unfold init. intros H.
  apply bind_ok_inv in H as (u1 & _ & H).
  apply bind_ok_inv in H as (lo & _ & H).
  apply bind_ok_inv in H as (u2 & _ & H).
  unfold shape_of in H. rewrite length_map in H.
  apply bind_ok_inv in H as (axes0 & Hax & H).
  apply bind_ok_inv in H as (last & Hlast & H).
  apply bind_ok_inv in H as (lastb & Hlastb & H).
  apply bind_ok_inv in H as (dt0 & Hdt & H).
  apply bind_ok_inv in H as (sc & _ & H).
  apply bind_ok_inv in H as ([[bs1 s0] odt] & _ & H).
  apply bind_ok_inv in H as ([[pA dt1] sh1] & _ & H).
  apply bind_ok_inv in H as (acc & Hloop & H).
  apply wire_bcs_same_plan in H as (Hd & Ha & Ht & Hx & _).
  apply plan_loop_lengths in Hloop as [Lx Lt].
  simpl in *. rewrite length_rev, length_removelast in Lx, Lt.
  exists axes0, last, lastb.
  apply resolve_axes_spec in Hax as Hacc. destruct Hacc as (_ & Hne & _).
  assert (Hlen : length axes0 = S (pred (length axes0)))
    by (destruct axes0; [contradiction | reflexivity]).
  split; [exact Hax |]. split; [exact Hlast |]. split; [exact Hlastb |].
  split; [now rewrite <- Hd |]. split; [now rewrite <- Ha |].
  split; [rewrite <- Hx, Lx, Hlen; reflexivity | now rewrite <- Ht].
Qed.

End PipelineFacts.

(** ** Construction succeeds on homogeneous boundary values *)

Section ListIndexFacts.

Lemma py_nth_nonneg {A : Type} (l : list A) (k : Z) (x : A) :
  0 <= k -> nth_error l (Z.to_nat k) = Some x -> py_nth l k = Ok x.
Proof.
  intros Hk Hx. unfold py_nth.
  destruct (k <? 0) eqn:E; [apply Z.ltb_lt in E; lia |].
  rewrite E. now rewrite Hx.
Qed.

Lemma py_nth_in_range {A : Type} (l : list A) (k : Z) :
  0 <= k < Z.of_nat (length l) ->
  exists x, py_nth l k = Ok x /\ nth_error l (Z.to_nat k) = Some x.
Proof.
  intros Hk.
  destruct (nth_error l (Z.to_nat k)) as [x |] eqn:E.
  - exists x. split; [apply py_nth_nonneg; [lia | exact E] | reflexivity].
  - apply nth_error_None in E. lia.
Qed.

Lemma py_nth_nil {A : Type} (k : Z) : py_nth (@nil A) k = Raise IndexError.
Proof.
  unfold py_nth. simpl.
  destruct ((if k <? 0 then k + 0 else k) <? 0); [reflexivity |].
  destruct (Z.to_nat _); reflexivity.
Qed.

Lemma py_nth_nonneg_inv {A : Type} (l : list A) (k : Z) (x : A) :
  0 <= k -> py_nth l k = Ok x -> nth_error l (Z.to_nat k) = Some x.
Proof.
  intros Hk. unfold py_nth.
  destruct (k <? 0) eqn:E; [apply Z.ltb_lt in E; lia |]. rewrite E.
  destruct (nth_error l (Z.to_nat k)); [intros H; now injection H as -> |].
  discriminate.
Qed.

Lemma nth_error_last {A : Type} (l : list A) (d : A) :
  l <> [] -> nth_error l (pred (length l)) = Some (last l d).
Proof.
  induction l as [| x t IH]; [contradiction |]. intros _.
  destruct t as [| y t']; [reflexivity |].
  change (nth_error (y :: t') (pred (length (y :: t'))) = Some (last (y :: t') d)).
  apply IH. discriminate.
Qed.

Lemma py_nth_last {A : Type} (l : list A) (d : A) :
  l <> [] -> py_nth l (-1) = Ok (last l d).
Proof.
  intros Hne. unfold py_nth.
  assert (Hlen : (0 < length l)%nat) by (destruct l; [contradiction | simpl; lia]).
  change (-1 <? 0) with true. cbv beta iota.
  destruct (-1 + Z.of_nat (length l) <? 0) eqn:E; [apply Z.ltb_lt in E; lia |].
  replace (Z.to_nat (-1 + Z.of_nat (length l))) with (pred (length l)) by lia.
  now rewrite (nth_error_last l d Hne).
Qed.

Lemma last_In {A : Type} (l : list A) (d : A) : l <> [] -> In (last l d) l.
Proof.
  intros Hne. apply (nth_error_In l (pred (length l))).
  now apply nth_error_last.
Qed.

Lemma py_min_positive (l : list Z) :
  l <> [] -> Forall (fun x => 0 < x) l ->
  exists lo, py_min l = Ok lo /\ (lo >? 0) = true.
Proof.
  intros Hne Hpos. destruct l as [| x t]; [contradiction |].
  inversion Hpos; subst. eexists. split; [reflexivity |].
  apply Z.gtb_lt.
  assert (1 <= fold_left Z.min t x); [| lia].
  apply fold_left_min_spec. split; [lia |].
  eapply Forall_impl; [| eassumption]. simpl. intros; lia.
Qed.

Lemma nth_error_replace_at_same {A : Type} (k : nat) (x y : A) (l : list A) :
  nth_error l k = Some y -> nth_error (replace_at k x l) k = Some x.
Proof.
  revert l. induction k as [| k IH]; intros [| z l]; simpl; intros H;
    try discriminate; [reflexivity | now apply IH].
Qed.

Lemma nth_error_replace_at_other {A : Type} (k j : nat) (x : A) (l : list A) :
  k <> j -> nth_error (replace_at k x l) j = nth_error l j.
Proof.
  revert l j. induction k as [| k IH]; intros [| z l] [| j] Hkj; simpl;
    try reflexivity; try contradiction.
  apply IH. congruence.
Qed.

End ListIndexFacts.

Section ConstructionFacts.

Variable Subcomm_new : Z -> list Z -> list Z.
Variable decompose : list Z -> list Z -> Z -> list Z * list Z.
Variable plan_output : basis -> list Z -> Z -> dtype -> list Z * dtype.
Variable run_xfftn : basis -> ndarray -> ndarray.
Variable run_transfer : transfer_op -> ndarray -> ndarray.
Variable lambdify_bc :
  bcval -> bcval -> TensorProductSpace.t -> result (bcval * bcval).

(** A pencil and a planned transform keep the number of dimensions. *)
Hypothesis decompose_rank :
  forall sc sh ax, length (fst (decompose sc sh ax)) = length sh.
Hypothesis plan_output_rank :
  forall b sub ax dt, length (fst (plan_output b sub ax dt)) = length sub.

Import TensorProductSpace.

Lemma py_index_nonneg {A : Type} (l : list A) (k : Z) :
  0 <= k -> py_index l k = Z.to_nat k.
Proof.
  intros Hk. unfold py_index.
  destruct (k <? 0) eqn:E; [apply Z.ltb_lt in E; lia | reflexivity].
Qed.

Lemma plan_stage_ok (bs : list basis) (ax : Z) (sub : list Z) (dt : dtype) :
  0 <= ax < Z.of_nat (length bs) ->
  exists b,
    nth_error bs (Z.to_nat ax) = Some b /\
    plan_stage plan_output bs ax sub dt
    = Ok (replace_at (Z.to_nat ax) (with_axis (Z.to_nat ax) b) bs,
          mkStage ax (zeros sub)
            (zeros (fst (plan_output (with_axis (Z.to_nat ax) b) sub ax dt))),
          snd (plan_output (with_axis (Z.to_nat ax) b) sub ax dt)).
Proof.
  intros Hax. destruct (py_nth_in_range bs ax Hax) as (b & Hb & Hn).
  exists b. split; [exact Hn |].
  unfold plan_stage. rewrite Hb. cbv beta iota delta [bind].
  now rewrite py_index_nonneg by lia.
Qed.

Lemma after_plan_ok (sc sh : list Z) (ax : Z) (dt odt : dtype) (p : Pencil)
    (s : stage) (nd : nat) :
  length sh = nd -> length (shape (output_array s)) = nd ->
  length (p_shape p) = nd ->
  0 <= ax < Z.of_nat nd ->
  exists p' dt' sh',
    after_plan decompose sc sh ax dt p s odt = Ok (p', dt', sh') /\
    length sh' = nd /\ length (p_shape p') = nd.
Proof.
  intros Hsh Hout Hp Hax.
  destruct (py_nth_in_range sh ax) as (n0 & Hn & _); [lia |].
  destruct (py_nth_in_range (shape (output_array s)) ax) as (m0 & Hm & _); [lia |].
  unfold after_plan. rewrite Hn, Hm. cbv beta iota delta [bind].
  destruct (negb (n0 =? m0)).
  - do 3 eexists. split; [reflexivity |].
    simpl. now rewrite length_replace_at.
  - do 3 eexists. split; [reflexivity |]. now split.
Qed.

Lemma planned_at_replace (bs : list basis) (k : nat) (b : basis) (ax : Z) :
  nth_error bs k = Some b ->
  planned_at bs ax ->
  planned_at (replace_at k (with_axis k b) bs) ax.
Proof.
  intros Hb (H0 & b' & Hb' & Hax). split; [exact H0 |].
  destruct (Nat.eq_dec k (Z.to_nat ax)) as [-> | Hne].
  - exists (with_axis (Z.to_nat ax) b). split; [| reflexivity].
    now apply (nth_error_replace_at_same _ _ b).
  - exists b'. split; [| exact Hax].
    now rewrite nth_error_replace_at_other.
Qed.

Lemma planning_ok_after_stage (nd : nat) (bs0 bs : list basis) (done : list Z)
    (sh sh' : list Z) (p p' : Pencil) (ax : Z) (b : basis) :
  planning_ok nd bs0 done sh p bs ->
  0 <= ax -> nth_error bs (Z.to_nat ax) = Some b ->
  length sh' = nd -> length (p_shape p') = nd ->
  planning_ok nd bs0 (ax :: done) sh' p'
    (replace_at (Z.to_nat ax) (with_axis (Z.to_nat ax) b) bs).
Proof.
  intros (_ & _ & Hlen & Hk & Hbc & Hdone) H0 Hb Hsh Hp.
  repeat split; try assumption.
  - now rewrite length_replace_at.
  - rewrite <- Hk. apply map_replace_at. now rewrite nth_error_map, Hb.
  - rewrite <- Hbc. apply map_replace_at. now rewrite nth_error_map, Hb.
  - constructor.
    + split; [exact H0 |]. exists (with_axis (Z.to_nat ax) b).
      split; [now apply (nth_error_replace_at_same _ _ b) | reflexivity].
    + eapply Forall_impl; [| exact Hdone].
      intros a Ha. now apply planned_at_replace.
Qed.

Lemma plan_step_ok (nd : nat) (bs0 : list basis) (done : list Z)
    (acc : planning) (ax : Z) :
  planning_ok nd bs0 done (pl_shape acc) (pl_pencil acc) (pl_bases acc) ->
  0 <= ax < Z.of_nat nd ->
  exists acc',
    plan_step decompose plan_output acc ax = Ok acc' /\
    planning_ok nd bs0 (ax :: done) (pl_shape acc') (pl_pencil acc')
      (pl_bases acc').
Proof.
  intros Hok Hax. pose proof Hok as (Hsh & Hp & Hlen & _).
  unfold plan_step.
  set (pencilB := new_pencil decompose (p_subcomm (pl_pencil acc))
                    (p_shape (pl_pencil acc)) ax).
  destruct (plan_stage_ok (pl_bases acc) ax (subshape pencilB) (pl_dtype acc))
    as (b & Hb & Hstage); [lia |].
  rewrite Hstage. cbv beta iota delta [bind].
  match goal with
  | |- context [after_plan decompose ?sc ?sh ?a ?dt ?p ?s ?odt] =>
      destruct (after_plan_ok sc sh a dt odt p s nd) as (p' & dt' & sh' & Hafter & Hsh' & Hp')
  end; try assumption.
  - unfold zeros. cbn [shape output_array].
    rewrite (plan_output_rank _ (subshape pencilB) ax (pl_dtype acc)).
    unfold pencilB, new_pencil. cbn [subshape].
    now rewrite decompose_rank.
  - rewrite Hafter. cbv beta iota delta [bind].
    eexists. split; [reflexivity |]. simpl.
    apply (planning_ok_after_stage nd bs0 (pl_bases acc) done
             (pl_shape acc) sh' (pl_pencil acc) p' ax b); try assumption; lia.
Qed.

Lemma plan_loop_ok (nd : nat) (bs0 : list basis) (l : list Z) :
  forall (done : list Z) (acc : planning),
    planning_ok nd bs0 done (pl_shape acc) (pl_pencil acc) (pl_bases acc) ->
    Forall (fun ax => 0 <= ax < Z.of_nat nd) l ->
    exists acc',
      plan_loop decompose plan_output acc l = Ok acc' /\
      planning_ok nd bs0 (rev l ++ done) (pl_shape acc') (pl_pencil acc')
        (pl_bases acc').
Proof.
  induction l as [| ax rest IH]; intros done acc Hok Hl; simpl.
  - exists acc. split; [reflexivity | exact Hok].
  - inversion Hl as [| ? ? Hax Hrest]; subst.
    destruct (plan_step_ok nd bs0 done acc ax Hok Hax) as (acc1 & H1 & Hok1).
    rewrite H1. cbv beta iota delta [bind].
    destruct (IH (ax :: done) acc1 Hok1 Hrest) as (acc' & H' & Hok').
    exists acc'. split; [exact H' |].
    now rewrite <- app_assoc.
Qed.

End ConstructionFacts.

Section WiringFacts.

Variable run_xfftn : basis -> ndarray -> ndarray.
Variable run_transfer : transfer_op -> ndarray -> ndarray.
Variable lambdify_bc :
  bcval -> bcval -> TensorProductSpace.t -> result (bcval * bcval).

Import TensorProductSpace.

Local Abbreviation set_tensor_bcs_space' :=
  (set_tensor_bcs_space run_xfftn
     run_transfer lambdify_bc).
Local Abbreviation wire_bcs' :=
  (wire_bcs run_xfftn
     run_transfer lambdify_bc).

Lemma scan_step_ok (T : t) (acc : scan) (ax : Z) :
  planned_at (bases T) ax ->
  exists acc',
    scan_step T acc [ax] = Ok acc' /\
    (scan_found acc \/ dirichlet_at (bases T) ax -> scan_found acc').
Proof.
  intros (H0 & b & Hb & Hax).
  unfold scan_step.
  assert (E0 : py_nth [ax] 0 = Ok ax) by reflexivity.
  rewrite E0. cbv beta iota delta [bind].
  rewrite (py_nth_nonneg (bases T) ax b H0 Hb). cbv beta iota delta [bind].
  change (assert (Z.of_nat (length [ax]) =? 1)) with (Ok tt).
  cbv beta iota delta [bind]. rewrite Hax. cbv beta iota delta [bind].
  rewrite Z2Nat.id by exact H0. rewrite Z.eqb_refl.
  cbv beta iota delta [bind assert].
  destruct (is_dirichlet (kind b)) eqn:Hd.
  - eexists. split; [reflexivity |]. intros _.
    exists (Z.to_nat ax), b. split; reflexivity.
  - eexists. split; [reflexivity |].
    intros [Hf | (b' & Hb' & Hd')]; [exact Hf | congruence].
Qed.

Lemma scan_axes_ok (T : t) (l : list Z) :
  forall acc,
    Forall (planned_at (bases T)) l ->
    exists acc',
      scan_axes T acc (map (fun x => [x]) l) = Ok acc' /\
      (scan_found acc \/ Exists (dirichlet_at (bases T)) l -> scan_found acc').
Proof.
  induction l as [| ax rest IH]; intros acc Hl; simpl.
  - exists acc. split; [reflexivity |].
    intros [Hf | Hex]; [exact Hf | inversion Hex].
  - inversion Hl as [| ? ? Hax Hrest]; subst.
    destruct (scan_step_ok T acc ax Hax) as (acc1 & H1 & Hf1).
    rewrite H1. cbv beta iota delta [bind].
    destruct (IH acc1 Hrest) as (acc' & H' & Hf').
    exists acc'. split; [exact H' |].
    intros [Hf | Hex]; apply Hf'.
    + left. apply Hf1. now left.
    + inversion Hex; subst; [left; apply Hf1; now right | now right].
Qed.

Lemma homogeneous_not_nonhomogeneous (v : BoundaryValues.t) :
  homogeneous v -> BoundaryValues.has_nonhomogeneous_bcs v = Ok false.
Proof.
  intros (c0 & c1 & Hb & H0 & H1).
  unfold BoundaryValues.has_nonhomogeneous_bcs. rewrite Hb. simpl.
  now rewrite H0, H1.
Qed.

(** The homogeneous fast path of [set_tensor_bcs]: both pairs become
    [(0, 0)] and the space is returned as it was. *)
Lemma set_tensor_bcs_space_homogeneous (axes0 : list Z) (T : t)
    (self : BoundaryValues.t) (i : nat) (base : basis) :
  wired_ok axes0 T ->
  nth_error (bases T) i = Some base -> is_dirichlet (kind base) = true ->
  homogeneous self ->
  exists ax,
    set_tensor_bcs_space' self T
    = Ok (BoundaryValues.set_bcs_final zero_pair
            (BoundaryValues.set_bcs zero_pair
               (BoundaryValues.set_slices ax (BoundaryValues.set_axis ax self))),
          T).
Proof.
  intros (Hcalls & Haxes & Hplanned & Hdir) Hb Hd Hhom.
  unfold set_tensor_bcs_space.
  assert (Hex : existsb (fun b => is_dirichlet (kind b)) (bases T) = true).
  { apply existsb_exists. exists base. split; [| exact Hd].
    now apply (nth_error_In _ i). }
  rewrite Hex, Haxes, <- map_rev.
  destruct (Hdir i base Hb Hd) as [Hin _].
  destruct (scan_axes_ok T (rev axes0) (mkScan None None 0 []))
    as (sc & Hscan & Hfound).
  { now apply Forall_rev. }
  rewrite Hscan. cbv beta iota delta [bind].
  destruct Hfound as (a & d & Ha & Hdb).
  { right. apply Exists_exists. exists (Z.of_nat i).
    split; [now apply in_rev in Hin |].
    exists base. split; [now rewrite Nat2Z.id | exact Hd]. }
  rewrite Hdb, Ha. cbv beta iota delta [bind].
  rewrite homogeneous_not_nonhomogeneous.
  - exists a. reflexivity.
  - destruct Hhom as (c0 & c1 & Hbc & H0 & H1). now exists c0, c1.
Qed.

Lemma planned_at_with_bc (bs : list basis) (k : nat) (b : basis)
    (v : BoundaryValues.t) (ax : Z) :
  nth_error bs k = Some b ->
  planned_at bs ax -> planned_at (replace_at k (with_bc v b) bs) ax.
Proof.
  intros Hb (H0 & b' & Hb' & Hax). split; [exact H0 |].
  destruct (Nat.eq_dec k (Z.to_nat ax)) as [-> | Hne].
  - exists (with_bc v b). split; [now apply (nth_error_replace_at_same _ _ b) |].
    rewrite Hb in Hb'. injection Hb' as <-. exact Hax.
  - exists b'. split; [| exact Hax].
    now rewrite nth_error_replace_at_other.
Qed.

Lemma wired_ok_set_bc (axes0 : list Z) (T : t) (i : nat) (base : basis)
    (v : BoundaryValues.t) :
  wired_ok axes0 T ->
  nth_error (bases T) i = Some base -> is_dirichlet (kind base) = true ->
  BoundaryValues.bcs v = zero_pair ->
  wired_ok axes0 (set_bases (replace_at i (with_bc v base) (bases T)) T).
Proof.
  intros (Hcalls & Haxes & Hplanned & Hdir) Hb Hd Hv.
  split; [exact Hcalls |]. split; [exact Haxes |]. split.
  - simpl. eapply Forall_impl; [| exact Hplanned].
    intros a Ha. now apply planned_at_with_bc.
  - simpl. intros j b Hj Hdj.
    destruct (Nat.eq_dec i j) as [<- | Hne].
    + rewrite (nth_error_replace_at_same _ _ base _ Hb) in Hj.
      injection Hj as <-. split; [exact (proj1 (Hdir i base Hb Hd)) |].
      exists v. split; [reflexivity |].
      exists C0, C0. split; [exact Hv | split; reflexivity].
    + rewrite nth_error_replace_at_other in Hj by exact Hne.
      now apply Hdir.
Qed.

Lemma zeroed_replace (bs : list basis) (i j : nat) (base : basis)
    (v : BoundaryValues.t) :
  nth_error bs i = Some base ->
  BoundaryValues.bcs v = zero_pair -> BoundaryValues.bcs_final v = zero_pair ->
  (i = j \/ zeroed bs j) -> zeroed (replace_at i (with_bc v base) bs) j.
Proof.
  intros Hb Hv Hf Hj.
  destruct (Nat.eq_dec i j) as [<- | Hne].
  - exists (with_bc v base), v.
    split; [now apply (nth_error_replace_at_same _ _ base) |].
    split; [reflexivity | split; assumption].
  - destruct Hj as [-> | (b & w & Hbj & Hw)]; [contradiction |].
    exists b, w. split; [| exact Hw].
    now rewrite nth_error_replace_at_other.
Qed.

Lemma wire_bcs_ok (axes0 : list Z) (idxs : list nat) :
  forall T,
    wired_ok axes0 T ->
    exists T',
      wire_bcs' T idxs = Ok T' /\
      wired_ok axes0 T' /\
      (forall i k, In i idxs -> nth_error (map kind (bases T)) i = Some k ->
                   is_dirichlet k = true -> zeroed (bases T') i) /\
      (forall i, zeroed (bases T) i -> zeroed (bases T') i).
Proof.
  induction idxs as [| i rest IH]; intros T Hok; simpl.
  - exists T. split; [reflexivity |]. split; [exact Hok |].
    split; [intros i k [] | auto].
  - simpl.
    destruct (nth_error (bases T) i) as [base |] eqn:Hb.
    + destruct (is_dirichlet (kind base)) eqn:Hd.
      * destruct Hok as (Hcalls & Haxes & Hplanned & Hdir).
        destruct (Hdir i base Hb Hd) as (Hin & v & Hv & Hhom).
        rewrite Hv. cbv beta iota delta [bind].
        destruct (set_tensor_bcs_space_homogeneous axes0 T v i base
                    (conj Hcalls (conj Haxes (conj Hplanned Hdir))) Hb Hd Hhom)
          as (ax & Hset).
        rewrite Hset.
        cbv beta iota delta [bind].
        set (v' := BoundaryValues.set_bcs_final zero_pair _).
        set (T1 := set_bases _ T).
        assert (Hok1 : wired_ok axes0 T1).
        { apply wired_ok_set_bc; try assumption; [| reflexivity].
          exact (conj Hcalls (conj Haxes (conj Hplanned Hdir))). }
        destruct (IH T1 Hok1) as (T' & HT' & Hok' & Hz & Hmono).
        exists T'. split; [exact HT' |]. split; [exact Hok' |].
        assert (Hk1 : map kind (bases T1) = map kind (bases T)).
        { unfold T1, set_bases. simpl. apply map_replace_at.
          now rewrite nth_error_map, Hb. }
        split.
        -- intros j k [<- | Hj] Hk Hdk.
           ++ apply Hmono. unfold T1, set_bases. simpl.
              apply zeroed_replace; try assumption; try reflexivity. now left.
           ++ apply (Hz j k Hj); [now rewrite Hk1 | exact Hdk].
        -- intros j Hzj. apply Hmono. unfold T1, set_bases. simpl.
           apply zeroed_replace; try assumption; try reflexivity. now right.
      * destruct (IH T Hok) as (T' & HT' & Hok' & Hz & Hmono).
        exists T'. split; [exact HT' |]. split; [exact Hok' |].
        split; [| exact Hmono].
        intros j k [<- | Hj] Hk Hdk; [| now apply (Hz j k)].
        rewrite nth_error_map, Hb in Hk. simpl in Hk. congruence.
    + destruct (IH T Hok) as (T' & HT' & Hok' & Hz & Hmono).
      exists T'. split; [exact HT' |]. split; [exact Hok' |].
      split; [| exact Hmono].
      intros j k [<- | Hj] Hk Hdk; [| now apply (Hz j k)].
      rewrite nth_error_map, Hb in Hk. discriminate.
Qed.

End WiringFacts.

Section ConstructionSucceeds.

Variable Subcomm_new : Z -> list Z -> list Z.
Variable decompose : list Z -> list Z -> Z -> list Z * list Z.
Variable plan_output : basis -> list Z -> Z -> dtype -> list Z * dtype.
Variable run_xfftn : basis -> ndarray -> ndarray.
Variable run_transfer : transfer_op -> ndarray -> ndarray.
Variable lambdify_bc :
  bcval -> bcval -> TensorProductSpace.t -> result (bcval * bcval).

Hypothesis decompose_rank :
  forall sc sh ax, length (fst (decompose sc sh ax)) = length sh.
Hypothesis plan_output_rank :
  forall b sub ax dt, length (fst (plan_output b sub ax dt)) = length sub.

Import TensorProductSpace.

Local Abbreviation init' :=
  (init Subcomm_new decompose plan_output
     run_xfftn run_transfer lambdify_bc).

Lemma Forall_removelast {A : Type} (P : A -> Prop) (l : list A) :
  Forall P l -> Forall P (removelast l).
Proof.
  intros H. destruct l as [| x t]; [constructor |].
  rewrite (app_removelast_last x (l := x :: t)) in H by discriminate.
  now apply Forall_app in H.
Qed.

Lemma nth_error_map_inv {A B : Type} (f : A -> B) (l : list A) (i : nat) (y : B) :
  nth_error (map f l) i = Some y -> exists x, nth_error l i = Some x /\ f x = y.
Proof.
  rewrite nth_error_map. destruct (nth_error l i) as [x |]; simpl; intros H;
    [injection H as <-; now exists x | discriminate].
Qed.

Lemma resolve_subcomm_comm (nprocs : Z) (slab : bool) (nd : nat) (axes0 : list Z) :
  axes0 <> [] ->
  exists sc, resolve_subcomm Subcomm_new (Comm nprocs) slab nd axes0 = Ok sc.
Proof.
  intros Hne. unfold resolve_subcomm.
  rewrite (py_nth_last axes0 0 Hne). cbv beta iota delta [bind].
  destruct slab; [| eexists; reflexivity].
  destruct axes0 as [| x t]; [contradiction |].
  change (py_nth (x :: t) 0) with (Ok (A := Z) x).
  cbv beta iota delta [bind]. eexists; reflexivity.
Qed.

(** Construction on homogeneous boundary values succeeds, whatever the
    pipeline order and however many axes it has. *)
Lemma init_homogeneous_ok (nprocs : Z) (bs : list basis) (a : axes_arg)
    (dt : option dtype) (slab : bool) (axes0 : list Z) (lastb : basis)
    (dt0 : dtype) :
  bs <> [] ->
  Forall (fun b => 0 < np_round (inject_Z (N b) * padding_factor b)) bs ->
  resolve_axes a (Z.of_nat (length bs)) = Ok axes0 ->
  nth_error bs (Z.to_nat (last axes0 0)) = Some lastb ->
  resolve_dtype dt lastb = Ok dt0 ->
  (forall i b, nth_error bs i = Some b -> is_dirichlet (kind b) = true ->
               In (Z.of_nat i) axes0 /\ exists v, b_bc b = Some v /\ homogeneous v) ->
  exists T,
    init' (Comm nprocs) bs a dt slab = Ok T /\
    wired_ok axes0 T /\
    t_dtype T = dt0 /\
    map kind (bases T) = map kind bs /\
    (forall i b, nth_error bs i = Some b -> is_dirichlet (kind b) = true ->
                 zeroed (bases T) i).
Proof.
  intros Hne Hpos Haxes Hlastb Hdt Hdir.
  pose proof Haxes as Hacc. apply resolve_axes_spec in Hacc.
  destruct Hacc as (_ & Hne0 & Hrange & Hnd).
  set (nd := length bs).
  assert (Hlast : 0 <= last axes0 0 < Z.of_nat nd).
  { rewrite Forall_forall in Hrange. apply Hrange. now apply last_In. }
  unfold init. cbv zeta.
  assert (Hshlen : length (shape_of bs) = nd) by apply length_map.
  assert (E1 : negb (Nat.eqb (length (shape_of bs)) 0) = true).
  { rewrite Hshlen. unfold nd. destruct bs; [contradiction | reflexivity]. }
  rewrite E1. cbv beta iota delta [bind assert].
  destruct (py_min_positive (shape_of bs)) as (lo & Hlo & Hlo0).
  { intros E. apply (f_equal (@length Z)) in E. rewrite Hshlen in E.
    unfold nd in E. destruct bs; [contradiction | discriminate]. }
  { unfold shape_of. apply Forall_map. exact Hpos. }
  rewrite Hlo. cbv beta iota delta [bind]. rewrite Hlo0.
  cbv beta iota delta [bind assert].
  rewrite Hshlen. fold nd in Haxes. rewrite Haxes.
  cbv beta iota delta [bind].
  rewrite (py_nth_last axes0 0 Hne0). cbv beta iota delta [bind].
  rewrite (py_nth_nonneg bs (last axes0 0) lastb (proj1 Hlast) Hlastb).
  cbv beta iota delta [bind]. rewrite Hdt. cbv beta iota delta [bind].
  destruct (resolve_subcomm_comm nprocs slab nd axes0 Hne0) as (sc & Hsc).
  rewrite Hsc. cbv beta iota delta [bind].
  set (pencil0 := new_pencil decompose sc (shape_of bs) (last axes0 0)).
  destruct (plan_stage_ok plan_output bs (last axes0 0) (subshape pencil0) dt0 Hlast)
    as (b0 & Hb0 & Hstage).
  rewrite Hstage. cbv beta iota delta [bind].
  match goal with
  | |- context [after_plan decompose ?sc' ?sh ?ax ?d ?p ?s ?odt] =>
      destruct (after_plan_ok decompose sc' sh ax d odt p s nd)
        as (pA & dt1 & sh1 & Hafter & Hsh1 & HpA)
  end; try assumption; try reflexivity.
  { unfold zeros. cbn [shape output_array].
    rewrite (plan_output_rank _ (subshape pencil0) (last axes0 0) dt0).
    unfold pencil0, new_pencil. cbn [subshape].
    now rewrite decompose_rank. }
  rewrite Hafter. cbv beta iota delta [bind].
  set (bs1 := replace_at (Z.to_nat (last axes0 0)) _ bs).
  assert (Hok1 : planning_ok nd bs [last axes0 0] sh1 pA bs1).
  { apply (planning_ok_after_stage nd bs bs [] (shape_of bs) sh1 pencil0 pA
             (last axes0 0) b0); try assumption; try lia.
    repeat split; try assumption; try reflexivity. constructor. }
  match goal with
  | |- context [plan_loop decompose plan_output ?acc0 ?l] =>
      destruct (plan_loop_ok decompose plan_output decompose_rank
                  plan_output_rank nd bs l [last axes0 0] acc0 Hok1)
        as (acc & Hloop & Hok)
  end.
  { apply Forall_rev. now apply Forall_removelast. }
  rewrite Hloop. cbv beta iota delta [bind].
  rewrite rev_involutive, <- app_removelast_last in Hok by exact Hne0.
  destruct Hok as (_ & _ & Hlen & Hkind & Hbc & Hplanned).
  match goal with
  | |- context [wire_bcs run_xfftn run_transfer lambdify_bc ?T0 ?idxs] =>
      destruct (wire_bcs_ok run_xfftn run_transfer lambdify_bc axes0 idxs T0)
        as (T & HT & HokT & Hz & _)
  end.
  { split; [reflexivity |]. split; [reflexivity |]. split; [exact Hplanned |].
    simpl. intros i b Hb Hd.
    assert (Hk : nth_error (map kind bs) i = Some (kind b))
      by (rewrite <- Hkind; now rewrite nth_error_map, Hb).
    assert (Hv : nth_error (map b_bc bs) i = Some (b_bc b))
      by (rewrite <- Hbc; now rewrite nth_error_map, Hb).
    apply nth_error_map_inv in Hk as (x & Hx & Hkx).
    apply nth_error_map_inv in Hv as (x' & Hx' & Hvx).
    rewrite Hx in Hx'. injection Hx' as <-.
    rewrite <- Hkx in Hd. rewrite <- Hvx.
    now apply (Hdir i x). }
  exists T. split; [exact HT |]. split; [exact HokT |].
  pose proof (wire_bcs_same_plan run_xfftn run_transfer lambdify_bc _ _ _ HT)
    as (Hd & _ & _ & _ & HkT & _).
  simpl in Hd, HkT.
  split; [now rewrite <- Hd |]. split; [now rewrite <- HkT |].
  intros i b Hb Hdb. apply (Hz i (kind b)); [| | exact Hdb].
  - apply in_seq. simpl. rewrite Hlen.
    assert (i < length bs)%nat by (apply nth_error_Some; congruence).
    unfold nd. lia.
  - simpl. rewrite Hkind. now rewrite nth_error_map, Hb.
Qed.

End ConstructionSucceeds.

(** ** The serial collaborators keep the number of dimensions *)

Lemma serial_decompose_rank (sc sh : list Z) (ax : Z) :
  length (fst (serial_decompose sc sh ax)) = length sh.
Proof. reflexivity. Qed.

Lemma serial_plan_output_rank (b : basis) (sub : list Z) (ax : Z) (dt : dtype) :
  length (fst (serial_plan_output b sub ax dt)) = length sub.
Proof.
  unfold serial_plan_output.
  destruct (kind b); try reflexivity. apply length_replace_at.
Qed.

(** ** Homogeneity test *)

Lemma has_nonhomogeneous_bcs_numeric (v : BoundaryValues.t) (c0 c1 : Cx) :
  BoundaryValues.bcs v = (BNum c0, BNum c1) ->
  BoundaryValues.has_nonhomogeneous_bcs v
  = Ok (negb (Cis_zero c0 && Cis_zero c1)).
Proof.
  intros H. unfold BoundaryValues.has_nonhomogeneous_bcs. rewrite H. simpl.
  destruct (Cis_zero c0); [destruct (Cis_zero c1) |]; reflexivity.
Qed.

Lemma has_nonhomogeneous_bcs_array (v : BoundaryValues.t) (a : ndarray)
    (w : bcval) :
  BoundaryValues.bcs v = (BArr a, w) -> 1 < size a ->
  BoundaryValues.has_nonhomogeneous_bcs v = Raise ValueError.
Proof.
  intros H Hs. unfold BoundaryValues.has_nonhomogeneous_bcs. rewrite H. simpl.
  destruct (size a =? 1) eqn:E1; [apply Z.eqb_eq in E1; lia |].
  destruct (size a =? 0) eqn:E0; [apply Z.eqb_eq in E0; lia |].
  reflexivity.
Qed.

(** C2. A space with a Dirichlet axis ([N = 16], boundary values [(1, -1)])
    and one periodic axis ([N = 16]) builds; the wiring leaves arrays of nine
    coefficients in [bcs], and on them [has_nonhomogeneous_bcs] raises a
    [ValueError] where a non-zero boundary value should make it return
    true. *)
Theorem has_nonhomogeneous_bcs_raises_after_wiring :
  serial_init (Comm 1) [dirichlet_basis 16 1 (-1); fourier_basis R2CBasis 16]
    AxesNone None false = Ok channel_space /\
  exists b v a0 a1,
    nth_error (TensorProductSpace.bases channel_space) 0 = Some b /\
    b_bc b = Some v /\
    BoundaryValues.bc v = (BNum (Cx_of_Q 1), BNum (Cx_of_Q (-1))) /\
    BoundaryValues.bcs v = (BArr a0, BArr a1) /\
    shape a0 = [9] /\
    BoundaryValues.has_nonhomogeneous_bcs v = Raise ValueError.
Proof.
  split; [vm_compute; reflexivity |].
  do 4 eexists.
  split; [vm_compute; reflexivity |].
  split; [reflexivity |].
  split; [reflexivity |].
  split; [reflexivity |].
  split; reflexivity.
Qed.

(** ** Construction: dtype, pipeline order, boundary wiring *)

Section ConstructionClaims.

Variable Subcomm_new : Z -> list Z -> list Z.
Variable decompose : list Z -> list Z -> Z -> list Z * list Z.
Variable plan_output : basis -> list Z -> Z -> dtype -> list Z * dtype.
Variable run_xfftn : basis -> ndarray -> ndarray.
Variable run_transfer : transfer_op -> ndarray -> ndarray.
Variable lambdify_bc :
  bcval -> bcval -> TensorProductSpace.t -> result (bcval * bcval).

Import TensorProductSpace.

Local Abbreviation init' :=
  (init Subcomm_new decompose plan_output
     run_xfftn run_transfer lambdify_bc).

Lemma resolve_dtype_None (lastb : basis) :
  resolve_dtype None lastb
  = Ok (if is_C2C (kind lastb) then np_complex else np_float).
Proof. unfold resolve_dtype. destruct (is_C2C (kind lastb)); reflexivity. Qed.

Lemma resolve_dtype_inconsistent (d : dtype) (lastb : basis) :
  (is_C2C (kind lastb) = true /\ in_fdg d = true) \/
  (is_R2C (kind lastb) = true /\ in_FDG d = true) ->
  resolve_dtype (Some d) lastb = Raise AssertionError.
Proof.
  unfold resolve_dtype. intros [[Hk Hd] | [Hk Hd]].
  - rewrite Hk. destruct d; try discriminate; reflexivity.
  - destruct (kind lastb); try discriminate. simpl.
    destruct d; try discriminate; reflexivity.
Qed.

Lemma resolve_dtype_Some_ok (d d' : dtype) (lastb : basis) :
  resolve_dtype (Some d) lastb = Ok d' -> d' = d /\ in_fdgFDG d = true.
Proof.
  unfold resolve_dtype. intros H.
  apply bind_ok_inv in H as (d1 & H1 & H).
  apply bind_ok_inv in H as (u & Hu & H). apply assert_ok_inv in Hu.
  injection H as <-.
  assert (d1 = d); [| subst; now split].
  destruct (is_C2C (kind lastb)); [| destruct (is_R2C (kind lastb))].
  - apply bind_ok_inv in H1 as (u1 & _ & H1). now injection H1.
  - apply bind_ok_inv in H1 as (u1 & _ & H1). now injection H1.
  - now injection H1.
Qed.

Lemma init_rejects_dtype (c : comm_arg) (bs : list basis) (a : axes_arg)
    (dt : option dtype) (slab : bool) (axes0 : list Z) (lastb : basis) :
  resolve_axes a (Z.of_nat (length bs)) = Ok axes0 ->
  py_nth bs (last axes0 0) = Ok lastb ->
  resolve_dtype dt lastb = Raise AssertionError ->
  init' c bs a dt slab = Raise AssertionError.
Proof.
  intros Haxes Hlastb Hdt.
  pose proof Haxes as Hacc. apply resolve_axes_spec in Hacc.
  destruct Hacc as (_ & Hne0 & _).
  unfold init. cbv zeta.
  destruct (negb (Nat.eqb (length (shape_of bs)) 0)); [| reflexivity].
  cbv beta iota delta [bind assert].
  destruct (py_min (shape_of bs)) as [lo | e] eqn:Hlo.
  2:{ destruct (shape_of bs) as [| x t] eqn:E; [| discriminate Hlo].
      apply (f_equal (@length Z)) in E. unfold shape_of in E.
      rewrite length_map in E. destruct bs; [| discriminate E].
      rewrite py_nth_nil in Hlastb. discriminate Hlastb. }
  cbv beta iota delta [bind].
  destruct (lo >? 0); [| reflexivity].
  cbv beta iota delta [bind].
  unfold shape_of. rewrite length_map, Haxes. cbv beta iota delta [bind].
  rewrite (py_nth_last axes0 0 Hne0). cbv beta iota delta [bind].
  rewrite Hlastb. cbv beta iota delta [bind].
  now rewrite Hdt.
Qed.

Lemma init_last_basis (c : comm_arg) (bs : list basis) (a : axes_arg)
    (dt : option dtype) (slab : bool) (T : t) (axes0 : list Z) (lastb : basis) :
  init' c bs a dt slab = Ok T ->
  resolve_axes a (Z.of_nat (length bs)) = Ok axes0 ->
  py_nth bs (last axes0 0) = Ok lastb ->
  resolve_dtype dt lastb = Ok (t_dtype T).
Proof.
  intros H Haxes Hlastb.
  apply init_inv in H as (axes1 & last1 & lastb1 & Ha & Hl & Hb & Hd & _).
  rewrite Haxes in Ha. injection Ha as <-.
  rewrite (py_nth_last axes0 0) in Hl.
  - injection Hl as <-. rewrite Hlastb in Hb. now injection Hb as <-.
  - apply resolve_axes_spec in Haxes. apply Haxes.
Qed.

Lemma acceptable_full_is_permutation (l : list Z) (n : nat) :
  acceptable_axes l (Z.of_nat n) -> length l = n ->
  Permutation l (map Z.of_nat (seq 0 n)).
Proof.
  intros (_ & Hr & Hnd) Hlen.
  assert (Hnd' : NoDup (map Z.of_nat (seq 0 n))).
  { apply Injective_map_NoDup; [| apply seq_NoDup].
    intros x y Hxy. now apply Nat2Z.inj. }
  assert (Hincl : incl l (map Z.of_nat (seq 0 n))).
  { intros x Hx. rewrite Forall_forall in Hr. specialize (Hr x Hx).
    apply in_map_iff. exists (Z.to_nat x). split; [lia |].
    apply in_seq. lia. }
  apply NoDup_Permutation; try assumption.
  intros x. split; [apply Hincl |].
  apply NoDup_length_incl; try assumption.
  rewrite length_map, length_seq. lia.
Qed.

Lemma resolve_axes_accepts_iff (a : axes_arg) (nd : Z) :
  is_ok (resolve_axes a nd) = true <-> acceptable_axes (resolved_axes a nd) nd.
Proof.
  split.
  - destruct (resolve_axes a nd) as [l |] eqn:E; [| discriminate].
    intros _. apply resolve_axes_spec in E as [-> H]. exact H.
  - intros H.
    assert (E : resolve_axes a nd = Ok (resolved_axes a nd))
      by (apply resolve_axes_spec; now split).
    now rewrite E.
Qed.

End ConstructionClaims.

(** C5. Let the pipeline order be accepted and [lastb] be the basis of its
    last axis. Without an explicit dtype the working dtype is complex when
    [lastb] is complex-to-complex and real otherwise: every construction
    that succeeds has it, and construction does succeed on a plain
    communicator when the collaborators keep the number of dimensions, the
    sizes are positive and the Dirichlet bases are homogeneous. With an
    explicit dtype, construction raises an [AssertionError] for a real dtype
    on a complex-to-complex [lastb] and for a complex dtype on a
    real-to-complex [lastb]; a construction that succeeds keeps the explicit
    dtype, which is one of the float or complex float types. *)
Theorem dtype_inferred_from_last_basis_and_checked :
  forall (Subcomm_new : Z -> list Z -> list Z)
         (decompose : list Z -> list Z -> Z -> list Z * list Z)
         (plan_output : basis -> list Z -> Z -> dtype -> list Z * dtype)
         (run_xfftn : basis -> ndarray -> ndarray)
         (run_transfer : transfer_op -> ndarray -> ndarray)
         (lambdify_bc : bcval -> bcval -> TensorProductSpace.t -> result (bcval * bcval))
         (c : comm_arg) (bs : list basis) (a : axes_arg) (slab : bool)
         (axes0 : list Z) (lastb : basis),
    TensorProductSpace.resolve_axes a (Z.of_nat (length bs)) = Ok axes0 ->
    py_nth bs (last axes0 0) = Ok lastb ->
    let init' := init Subcomm_new decompose plan_output run_xfftn run_transfer
                      lambdify_bc in
    let inferred := if is_C2C (kind lastb) then np_complex else np_float in
    TensorProductSpace.resolve_dtype None lastb = Ok inferred /\
    (forall T, init' c bs a None slab = Ok T ->
               TensorProductSpace.t_dtype T = inferred) /\
    (forall d,
        (is_C2C (kind lastb) = true /\ in_fdg d = true) \/
        (is_R2C (kind lastb) = true /\ in_FDG d = true) ->
        init' c bs a (Some d) slab = Raise AssertionError) /\
    (forall d T, init' c bs a (Some d) slab = Ok T ->
                 TensorProductSpace.t_dtype T = d /\ in_fdgFDG d = true) /\
    ((forall sc sh ax, length (fst (decompose sc sh ax)) = length sh) ->
     (forall b sub ax dt, length (fst (plan_output b sub ax dt)) = length sub) ->
     Forall (fun b => 0 < np_round (inject_Z (N b) * padding_factor b)) bs ->
     (forall i b, nth_error bs i = Some b -> is_dirichlet (kind b) = true ->
                  In (Z.of_nat i) axes0 /\
                  exists v, b_bc b = Some v /\ homogeneous v) ->
     forall nprocs,
     exists T, init' (Comm nprocs) bs a None slab = Ok T /\
               TensorProductSpace.t_dtype T = inferred).
Proof.
  intros Subcomm_new decompose plan_output run_xfftn run_transfer lambdify_bc
         c bs a slab axes0 lastb Haxes Hlastb init' inferred.
  split; [apply resolve_dtype_None |].
  split.
  { intros T HT.
    pose proof (init_last_basis Subcomm_new decompose plan_output run_xfftn
                  run_transfer lambdify_bc c bs a None slab T axes0 lastb HT
                  Haxes Hlastb) as H.
    rewrite resolve_dtype_None in H. injection H as H. symmetry. exact H. }
  split.
  { intros d Hd.
    apply (init_rejects_dtype Subcomm_new decompose plan_output run_xfftn
             run_transfer lambdify_bc c bs a (Some d) slab axes0 lastb Haxes
             Hlastb).
    apply resolve_dtype_inconsistent. exact Hd. }
  split.
  { intros d T HT.
    pose proof (init_last_basis Subcomm_new decompose plan_output run_xfftn
                  run_transfer lambdify_bc c bs a (Some d) slab T axes0 lastb HT
                  Haxes Hlastb) as H.
    apply resolve_dtype_Some_ok in H. exact H. }
  intros Hdec Hplan Hpos Hdir nprocs.
  pose proof Haxes as Hacc. apply resolve_axes_spec in Hacc.
  destruct Hacc as (_ & Hne0 & Hrange & _).
  assert (Hlast : 0 <= last axes0 0).
  { rewrite Forall_forall in Hrange. apply Hrange. now apply last_In. }
  destruct (init_homogeneous_ok Subcomm_new decompose plan_output run_xfftn
              run_transfer lambdify_bc Hdec Hplan nprocs bs a None slab axes0
              lastb inferred) as (T & HT & _ & Hd & _); try assumption.
  - intros ->. rewrite py_nth_nil in Hlastb. discriminate Hlastb.
  - apply py_nth_nonneg_inv; assumption.
  - apply resolve_dtype_None.
  - exists T. split; [exact HT | exact Hd].
Qed.

Lemma dtype_inferred_from_last_basis_and_checked_witness :
  TensorProductSpace.resolve_axes (AxesSeq [-1; 0]) 2 = Ok [1; 0] /\
  py_nth [fourier_basis R2CBasis 8; fourier_basis C2CBasis 8] 0
  = Ok (fourier_basis R2CBasis 8) /\
  serial_init (Comm 1) [fourier_basis R2CBasis 8; fourier_basis C2CBasis 8]
    (AxesSeq [-1; 0]) None false = Ok swapped_space /\
  TensorProductSpace.t_dtype swapped_space = np_float /\
  serial_init (Comm 1) [fourier_basis R2CBasis 8; fourier_basis C2CBasis 8]
    (AxesSeq [-1; 0]) (Some np_complex) false = Raise AssertionError.
Proof.
  split; [reflexivity |]. split; [reflexivity |].
  split; [vm_compute; reflexivity |].
  destruct (dtype_inferred_from_last_basis_and_checked serial_Subcomm
              serial_decompose serial_plan_output serial_xfftn serial_transfer
              serial_lambdify (Comm 1)
              [fourier_basis R2CBasis 8; fourier_basis C2CBasis 8]
              (AxesSeq [-1; 0]) false [1; 0] (fourier_basis R2CBasis 8)
              eq_refl eq_refl) as (_ & Hinf & Hrej & _).
  split.
  - apply Hinf. vm_compute. reflexivity.
  - apply Hrej. right. split; reflexivity.
Defined.

(** C6, first as stated: an order that leaves a dimension out is expected
    to be rejected, and a space to hold [ndim - 1] redistributions. With two
    bases and the order [[0]] the construction succeeds; the order of the
    space is not a permutation of [0, 1] and the space holds no
    redistribution. *)
Lemma construction_accepts_partial_pipeline :
  serial_init (Comm 1) [fourier_basis C2CBasis 8; fourier_basis R2CBasis 8]
    (AxesSeq [0]) None false = Ok partial_space /\
  length (TensorProductSpace.bases partial_space) = 2%nat /\
  TensorProductSpace.axes partial_space = [[0]] /\
  ~ Permutation (concat (TensorProductSpace.axes partial_space))
                (map Z.of_nat (seq 0 2)) /\
  length (TensorProductSpace.transfer partial_space) <> (2 - 1)%nat.
Proof.
  split; [vm_compute; reflexivity |].
  split; [reflexivity |]. split; [reflexivity |]. split.
  - intros H. apply Permutation_length in H. discriminate H.
  - discriminate.
Qed.

(** C6, amended. A construction that succeeds went through these checks:
    the pipeline order, with negative indices resolved, is a non-empty list
    of distinct dimension indices in range (out-of-range and repeated
    indices are rejected, missing ones are not); the space holds one local
    transform per axis of the order and one redistribution less. When the
    order names every dimension it is a permutation of [0 .. ndim-1] and
    the space holds [ndim - 1] redistributions. The check of the order
    passes exactly on such lists. *)
Theorem construction_requires_distinct_axes_in_range :
  forall (Subcomm_new : Z -> list Z -> list Z)
         (decompose : list Z -> list Z -> Z -> list Z * list Z)
         (plan_output : basis -> list Z -> Z -> dtype -> list Z * dtype)
         (run_xfftn : basis -> ndarray -> ndarray)
         (run_transfer : transfer_op -> ndarray -> ndarray)
         (lambdify_bc : bcval -> bcval -> TensorProductSpace.t -> result (bcval * bcval))
         (c : comm_arg) (bs : list basis) (a : axes_arg) (dt : option dtype)
         (slab : bool) (T : TensorProductSpace.t),
    init Subcomm_new decompose plan_output run_xfftn run_transfer lambdify_bc
         c bs a dt slab = Ok T ->
    let axes0 := resolved_axes a (Z.of_nat (length bs)) in
    acceptable_axes axes0 (Z.of_nat (length bs)) /\
    TensorProductSpace.axes T = map (fun x => [x]) axes0 /\
    length (TensorProductSpace.xfftn T) = length axes0 /\
    length (TensorProductSpace.transfer T) = pred (length axes0) /\
    (length axes0 = length bs ->
     Permutation axes0 (map Z.of_nat (seq 0 (length bs))) /\
     length (TensorProductSpace.transfer T) = pred (length bs)) /\
    (forall a' nd',
        is_ok (TensorProductSpace.resolve_axes a' nd') = true <->
        acceptable_axes (resolved_axes a' nd') nd').
Proof.
  intros Subcomm_new decompose plan_output run_xfftn run_transfer lambdify_bc
         c bs a dt slab T HT axes0.
  apply init_inv in HT as (axes1 & last1 & lastb1 & Ha & _ & _ & _ & Hax & Hx & Ht).
  apply resolve_axes_spec in Ha as [-> Hacc]. fold axes0 in Hacc, Hax, Hx, Ht.
  split; [exact Hacc |]. split; [exact Hax |]. split; [exact Hx |].
  split; [exact Ht |]. split.
  - intros Hlen. split; [now apply acceptable_full_is_permutation |].
    now rewrite <- Hlen.
  - intros a' nd'. apply resolve_axes_accepts_iff.
Qed.

Lemma construction_requires_distinct_axes_in_range_witness :
  serial_init (Comm 1) [fourier_basis R2CBasis 8; fourier_basis C2CBasis 8]
    (AxesSeq [-1; 0]) None false = Ok swapped_space /\
  TensorProductSpace.axes swapped_space = [[1]; [0]] /\
  length (TensorProductSpace.transfer swapped_space) = 1%nat /\
  Permutation [1; 0] [0; 1].
Proof.
  assert (H : serial_init (Comm 1)
                [fourier_basis R2CBasis 8; fourier_basis C2CBasis 8]
                (AxesSeq [-1; 0]) None false = Ok swapped_space)
    by (vm_compute; reflexivity).
  split; [exact H |].
  destruct (construction_requires_distinct_axes_in_range serial_Subcomm
              serial_decompose serial_plan_output serial_xfftn serial_transfer
              serial_lambdify (Comm 1)
              [fourier_basis R2CBasis 8; fourier_basis C2CBasis 8]
              (AxesSeq [-1; 0]) None false swapped_space H)
    as (_ & Hax & _ & Ht & Hperm & _).
  split; [exact Hax |]. split; [exact Ht |].
  exact (proj1 (Hperm eq_refl)).
Defined.

(** With three or more transforms before the Dirichlet stage no branch of
    [set_tensor_bcs] binds [b_hat]. *)
Lemma push_before_unbound (run_xfftn : basis -> ndarray -> ndarray)
    (run_transfer : transfer_op -> ndarray -> ndarray)
    (T : TensorProductSpace.t) (b : ndarray) (n : Z) :
  3 <= n -> push_before run_xfftn run_transfer T b n = Raise UnboundLocalError.
Proof.
  intros Hn. unfold push_before.
  destruct (n =? 0) eqn:E0; [apply Z.eqb_eq in E0; lia |].
  destruct (n =? 1) eqn:E1; [apply Z.eqb_eq in E1; lia |].
  destruct (n =? 2) eqn:E2; [apply Z.eqb_eq in E2; lia |].
  reflexivity.
Qed.

Lemma deep_nonhomogeneous_pipeline_raises :
  serial_init (Comm 1) (deep_bases 1 (-1)) AxesNone None false
  = Raise UnboundLocalError.
Proof. vm_compute. reflexivity. Qed.

(** C7, first as stated: a Dirichlet axis with three periodic axes
    transformed before it is expected to be refused at construction for
    every choice of boundary values. With homogeneous boundary values the
    construction succeeds. *)
Lemma deep_homogeneous_pipeline_is_built :
  serial_init (Comm 1) (deep_bases 0 0) AxesNone None false = Ok deep_space /\
  exists sc,
    scan_axes deep_space (mkScan None None 0 [])
      (rev (TensorProductSpace.axes deep_space)) = Ok sc /\
    sc_after sc = 3.
Proof.
  split; [vm_compute; reflexivity |].
  eexists. split; [vm_compute; reflexivity | reflexivity].
Qed.

(** C7, amended. Construction does not look at the number of periodic axes
    transformed before a Dirichlet axis. On a plain communicator, with
    collaborators that keep the number of dimensions, positive sizes, an
    accepted pipeline order and dtype, and every Dirichlet basis in the
    pipeline with homogeneous boundary values, construction succeeds for
    any number of axes: it calls no transform and no redistribution, and
    leaves every Dirichlet basis with [bcs] and [bcs_final] equal to
    [(0, 0)]. *)
Theorem homogeneous_construction_succeeds_at_any_depth :
  forall (Subcomm_new : Z -> list Z -> list Z)
         (decompose : list Z -> list Z -> Z -> list Z * list Z)
         (plan_output : basis -> list Z -> Z -> dtype -> list Z * dtype)
         (run_xfftn : basis -> ndarray -> ndarray)
         (run_transfer : transfer_op -> ndarray -> ndarray)
         (lambdify_bc : bcval -> bcval -> TensorProductSpace.t -> result (bcval * bcval))
         (nprocs : Z) (bs : list basis) (a : axes_arg) (dt : option dtype)
         (slab : bool) (axes0 : list Z) (lastb : basis) (dt0 : dtype),
    (forall sc sh ax, length (fst (decompose sc sh ax)) = length sh) ->
    (forall b sub ax d, length (fst (plan_output b sub ax d)) = length sub) ->
    bs <> [] ->
    Forall (fun b => 0 < np_round (inject_Z (N b) * padding_factor b)) bs ->
    TensorProductSpace.resolve_axes a (Z.of_nat (length bs)) = Ok axes0 ->
    nth_error bs (Z.to_nat (last axes0 0)) = Some lastb ->
    TensorProductSpace.resolve_dtype dt lastb = Ok dt0 ->
    (forall i b, nth_error bs i = Some b -> is_dirichlet (kind b) = true ->
                 In (Z.of_nat i) axes0 /\
                 exists v, b_bc b = Some v /\ homogeneous v) ->
    exists T,
      init Subcomm_new decompose plan_output run_xfftn run_transfer lambdify_bc
           (Comm nprocs) bs a dt slab = Ok T /\
      TensorProductSpace.calls T = [] /\
      map kind (TensorProductSpace.bases T) = map kind bs /\
      (forall i b, nth_error bs i = Some b -> is_dirichlet (kind b) = true ->
                   zeroed (TensorProductSpace.bases T) i).
Proof.
  intros Subcomm_new decompose plan_output run_xfftn run_transfer lambdify_bc
         nprocs bs a dt slab axes0 lastb dt0 Hdec Hplan Hne Hpos Haxes Hlastb
         Hdt Hdir.
  destruct (init_homogeneous_ok Subcomm_new decompose plan_output run_xfftn
              run_transfer lambdify_bc Hdec Hplan nprocs bs a dt slab axes0
              lastb dt0 Hne Hpos Haxes Hlastb Hdt Hdir)
    as (T & HT & Hok & _ & Hk & Hz).
  exists T. split; [exact HT |]. split; [exact (proj1 Hok) |].
  split; [exact Hk | exact Hz].
Qed.

Lemma homogeneous_construction_succeeds_at_any_depth_witness :
  (forall sc sh ax, length (fst (serial_decompose sc sh ax)) = length sh) /\
  (forall b sub ax d, length (fst (serial_plan_output b sub ax d)) = length sub) /\
  deep_bases 0 0 <> [] /\
  Forall (fun b => 0 < np_round (inject_Z (N b) * padding_factor b))
         (deep_bases 0 0) /\
  TensorProductSpace.resolve_axes AxesNone 4 = Ok [0; 1; 2; 3] /\
  nth_error (deep_bases 0 0) 3 = Some (fourier_basis R2CBasis 8) /\
  TensorProductSpace.resolve_dtype None (fourier_basis R2CBasis 8) = Ok np_float /\
  (forall i b, nth_error (deep_bases 0 0) i = Some b ->
               is_dirichlet (kind b) = true ->
               In (Z.of_nat i) [0; 1; 2; 3] /\
               exists v, b_bc b = Some v /\ homogeneous v) /\
  exists T,
    serial_init (Comm 1) (deep_bases 0 0) AxesNone None false = Ok T /\
    TensorProductSpace.calls T = [] /\
    zeroed (TensorProductSpace.bases T) 0.
Proof.
  assert (Hdir : forall i b, nth_error (deep_bases 0 0) i = Some b ->
                   is_dirichlet (kind b) = true ->
                   In (Z.of_nat i) [0; 1; 2; 3] /\
                   exists v, b_bc b = Some v /\ homogeneous v).
  { intros i b Hb Hd.
    destruct i as [| [| [| [| i]]]]; simpl in Hb;
      try (injection Hb as <-; discriminate Hd);
      try (destruct i; discriminate Hb).
    injection Hb as <-. split; [left; reflexivity |].
    exists (numeric_bvals 0 0). split; [reflexivity |].
    exists (Cx_of_Q 0), (Cx_of_Q 0). repeat split. }
  assert (Hpos : Forall (fun b => 0 < np_round (inject_Z (N b) * padding_factor b))
                   (deep_bases 0 0))
    by (repeat constructor).
  split; [exact serial_decompose_rank |].
  split; [exact serial_plan_output_rank |].
  split; [discriminate |]. split; [exact Hpos |].
  split; [reflexivity |]. split; [reflexivity |]. split; [reflexivity |].
  split; [exact Hdir |].
  destruct (homogeneous_construction_succeeds_at_any_depth serial_Subcomm
              serial_decompose serial_plan_output serial_xfftn serial_transfer
              serial_lambdify 1 (deep_bases 0 0) AxesNone None false
              [0; 1; 2; 3] (fourier_basis R2CBasis 8) np_float
              serial_decompose_rank serial_plan_output_rank
              ltac:(discriminate) Hpos eq_refl eq_refl eq_refl Hdir)
    as (T & HT & Hcalls & _ & Hz).
  exists T. split; [exact HT |]. split; [exact Hcalls |].
  apply (Hz 0%nat (dirichlet_basis 8 0 0)); reflexivity.
Defined.

(** ** Further properties of the real-to-complex truncation and padding *)

Lemma valid_index_nth (s i : list Z) (ax : nat) (n : Z) :
  valid_index s i -> nth_error s ax = Some n -> 0 <= nth ax i (-1) < n.
Proof.
  unfold valid_index. intros H. revert ax.
  induction H as [| k d i s Hk _ IH]; intros [| ax] Hn; simpl in *;
    try discriminate.
  - injection Hn as <-. exact Hk.
  - exact (IH ax Hn).
Qed.

Lemma valid_index_length (s i : list Z) :
  valid_index s i -> length i = length s.
Proof.
  unfold valid_index. induction 1; simpl; [reflexivity | now f_equal].
Qed.

Lemma in_block_beyond (s i : list Z) (ax : nat) (n : Z) :
  nth_error s ax = Some n -> n <= nth ax i (-1) -> R2C.in_block s i = false.
Proof.
  revert i ax. induction s as [| d s IH]; intros i [| ax] Hn Hk; simpl in *;
    try discriminate.
  - injection Hn as ->. destruct i as [| k i]; [reflexivity |]. simpl in Hk.
    destruct (k <? n) eqn:E; [apply Z.ltb_lt in E; lia | reflexivity].
  - destruct i as [| k i]; [reflexivity |]. simpl in Hk.
    rewrite (IH i ax Hn Hk). apply andb_false_r.
Qed.

Section PaddingFacts.

Variable b : R2C.t.
Variables small big : ndarray.
Variables n m : Z.

Hypothesis Hpad : R2C.is_padded b = true.
Hypothesis Hshape : Forall (fun d => 0 <= d) (shape small).
Hypothesis Hn : nth_error (shape small) (R2C.axis b) = Some n.
Hypothesis Hn1 : 1 <= n.
Hypothesis Hbig : shape big = replace_at (R2C.axis b) m (shape small).
Hypothesis Hnm : n <= m.

Lemma truncation_forward_odd :
  R2C.even_N b = false ->
  exists t,
    R2C._truncation_forward b big small = Ok t /\
    shape t = shape small /\
    forall i, valid_index (shape small) i -> item t i = item big i.
Proof.
  intros Hodd. unfold R2C._truncation_forward. rewrite Hpad, Hodd.
  unfold axis_len. simpl shape. rewrite Hn. simpl bind.
  rewrite (take_along_big b small big n m Hn Hbig Hnm). simpl bind.
  unfold assign_all, as_operand. simpl shape.
  rewrite broadcastable_refl. simpl bind.
  eexists. split; [reflexivity |]. split; [reflexivity |].
  intros i Hi. simpl. now rewrite (bcast_index_valid _ _ Hi).
Qed.

Lemma padding_backward_odd :
  R2C.even_N b = false ->
  exists p,
    R2C._padding_backward b small big = Ok p /\
    shape p = shape big /\
    forall i, valid_index (shape small) i -> item p i = item small i.
Proof.
  intros Hodd. unfold R2C._padding_backward. rewrite Hpad, Hodd.
  rewrite (axis_len_ok small _ n Hn). simpl bind.
  rewrite Hbig, length_replace_at, Nat.ltb_irrefl.
  unfold as_operand.
  rewrite (block_shape_padded _ _ n m Hshape Hn Hnm), broadcastable_refl.
  simpl bind.
  eexists. split; [reflexivity |]. split; [reflexivity |].
  intros i Hi. simpl.
  now rewrite (in_block_valid _ _ Hi), (bcast_index_valid _ _ Hi).
Qed.

Lemma padding_backward_zero_fill :
  exists p,
    R2C._padding_backward b small big = Ok p /\
    shape p = shape big /\
    forall i, n <= nth (R2C.axis b) i (-1) -> item p i = C0.
Proof.
  unfold R2C._padding_backward. rewrite Hpad.
  rewrite (axis_len_ok small _ n Hn). simpl bind.
  rewrite Hbig, length_replace_at, Nat.ltb_irrefl.
  unfold as_operand.
  rewrite (block_shape_padded _ _ n m Hshape Hn Hnm), broadcastable_refl.
  simpl bind.
  destruct (R2C.even_N b).
  - unfold axis_len. simpl shape.
    rewrite (nth_error_replace_at _ _ m n Hn). simpl bind.
    rewrite (resolve_index_nonneg m (n - 1)) by lia. simpl bind.
    eexists. split; [reflexivity |]. split; [reflexivity |].
    intros i Hk. simpl.
    destruct (nth (R2C.axis b) i (-1) =? n - 1) eqn:E;
      [apply Z.eqb_eq in E; lia |].
    simpl. now rewrite (in_block_beyond _ _ _ _ Hn Hk).
  - eexists. split; [reflexivity |]. split; [reflexivity |].
    intros i Hk. simpl. now rewrite (in_block_beyond _ _ _ _ Hn Hk).
Qed.

End PaddingFacts.

(** X1. Padding a real-to-complex spectrum and truncating it again gives the
    spectrum back. For a padding factor above [1 + 1e-8], a truncated array
    with at least one mode along the axis of the transform and a padded array
    that differs from it only by a longer axis: [_padding_backward] followed
    by [_truncation_forward] succeeds and returns every coefficient
    unchanged, except that for even [N] the last retained mode comes back
    with its real part only. *)
Theorem r2c_truncation_inverts_padding :
  forall (b : R2C.t) (small big out : ndarray) (n m : Z),
    (1 + (1 # 100000000) < R2C.padding_factor b)%Q ->
    Forall (fun d => 0 <= d) (shape small) ->
    nth_error (shape small) (R2C.axis b) = Some n ->
    1 <= n ->
    shape big = replace_at (R2C.axis b) m (shape small) ->
    n <= m ->
    shape out = shape small ->
    exists p t,
      R2C._padding_backward b small big = Ok p /\
      R2C._truncation_forward b p out = Ok t /\
      shape t = shape small /\
      forall i, valid_index (shape small) i ->
        if R2C.even_N b && (nth (R2C.axis b) i (-1) =? n - 1)
        then Ceq (item t i) (Creal (item small i))
        else item t i = item small i.
Proof.
  intros b small big out n m Hpf Hshape Hn Hn1 Hbig Hnm Hout.
  apply is_padded_spec in Hpf.
  assert (Hn' : nth_error (shape out) (R2C.axis b) = Some n)
    by (rewrite Hout; exact Hn).
  destruct (R2C.even_N b) eqn:Heven.
  - destruct (padding_backward_nyquist b small big n m Hpf Heven Hshape Hn Hn1
                Hbig Hnm) as (p & Hp & Hps & Hpi).
    assert (Hbig' : shape p = replace_at (R2C.axis b) m (shape out))
      by (rewrite Hps, Hout; exact Hbig).
    destruct (truncation_forward_nyquist b out p n m Hpf Heven Hn' Hn1 Hbig'
                Hnm) as (t & Ht & Hts & Hti).
    exists p, t. split; [exact Hp |]. split; [exact Ht |].
    split; [rewrite Hts; exact Hout |].
    intros i Hi. simpl andb.
    assert (Hi' : valid_index (shape out) i) by (rewrite Hout; exact Hi).
    destruct (Hpi i Hi) as [Hp1 Hp2]. destruct (Hti i Hi') as [Ht1 Ht2].
    destruct (nth (R2C.axis b) i (-1) =? n - 1) eqn:E.
    + apply Z.eqb_eq in E. destruct (Ht1 E) as [Hre Him].
      destruct (Hp1 E) as [Hre' _]. simpl in Hre, Him, Hre'.
      split; simpl; [| exact Him].
      rewrite Hre, Hre'. field.
    + apply Z.eqb_neq in E.
      pose proof (valid_index_nth _ _ _ _ Hi Hn) as Hr.
      rewrite Ht2 by lia. apply Hp2. lia.
  - destruct (padding_backward_odd b small big n m Hpf Hshape Hn Hbig Hnm Heven)
      as (p & Hp & Hps & Hpi).
    assert (Hbig' : shape p = replace_at (R2C.axis b) m (shape out))
      by (rewrite Hps, Hout; exact Hbig).
    destruct (truncation_forward_odd b out p n m Hpf Hn' Hbig' Hnm Heven)
      as (t & Ht & Hts & Hti).
    exists p, t. split; [exact Hp |]. split; [exact Ht |].
    split; [rewrite Hts; exact Hout |].
    intros i Hi. simpl andb.
    assert (Hi' : valid_index (shape out) i) by (rewrite Hout; exact Hi).
    rewrite (Hti i Hi'). exact (Hpi i Hi).
Qed.

Lemma r2c_truncation_inverts_padding_witness :
  (1 + (1 # 100000000) < R2C.padding_factor sample_r2c)%Q /\
  Forall (fun d => 0 <= d) (shape (sample_spectrum 5)) /\
  nth_error (shape (sample_spectrum 5)) (R2C.axis sample_r2c) = Some 5 /\
  1 <= 5 /\
  shape (sample_spectrum 7)
  = replace_at (R2C.axis sample_r2c) 7 (shape (sample_spectrum 5)) /\
  5 <= 7 /\
  shape (zeros [5]) = shape (sample_spectrum 5) /\
  exists p t,
    R2C._padding_backward sample_r2c (sample_spectrum 5) (sample_spectrum 7)
    = Ok p /\
    R2C._truncation_forward sample_r2c p (zeros [5]) = Ok t /\
    shape t = [5].
Proof.
  split; [reflexivity |].
  split; [repeat constructor; discriminate |].
  split; [reflexivity |]. split; [lia |].
  split; [reflexivity |]. split; [lia |]. split; [reflexivity |].
  destruct (r2c_truncation_inverts_padding sample_r2c (sample_spectrum 5)
              (sample_spectrum 7) (zeros [5]) 5 7 eq_refl
              ltac:(repeat constructor; discriminate) eq_refl ltac:(lia)
              eq_refl ltac:(lia) eq_refl) as (p & t & Hp & Ht & Hs & _).
  exists p, t. repeat split; assumption.
Defined.

(** X2. The padding of a real-to-complex spectrum is a zero padding: under
    the conditions of X1 (either parity of [N]), every entry of the padded
    array whose position along the axis of the transform is at or beyond the
    number of retained modes is zero, and the padded array keeps its
    shape. *)
Theorem r2c_padding_zero_fills_high_modes :
  forall (b : R2C.t) (small big : ndarray) (n m : Z),
    (1 + (1 # 100000000) < R2C.padding_factor b)%Q ->
    Forall (fun d => 0 <= d) (shape small) ->
    nth_error (shape small) (R2C.axis b) = Some n ->
    1 <= n ->
    shape big = replace_at (R2C.axis b) m (shape small) ->
    n <= m ->
    exists p,
      R2C._padding_backward b small big = Ok p /\
      shape p = shape big /\
      forall i, n <= nth (R2C.axis b) i (-1) -> item p i = C0.
Proof.
  intros b small big n m Hpf Hshape Hn Hn1 Hbig Hnm.
  apply is_padded_spec in Hpf.
  exact (padding_backward_zero_fill b small big n m Hpf Hshape Hn Hn1 Hbig Hnm).
Qed.

Lemma r2c_padding_zero_fills_high_modes_witness :
  (1 + (1 # 100000000) < R2C.padding_factor sample_r2c_odd)%Q /\
  Forall (fun d => 0 <= d) (shape (sample_spectrum 4)) /\
  nth_error (shape (sample_spectrum 4)) (R2C.axis sample_r2c_odd) = Some 4 /\
  1 <= 4 /\
  shape (sample_spectrum 6)
  = replace_at (R2C.axis sample_r2c_odd) 6 (shape (sample_spectrum 4)) /\
  4 <= 6 /\
  exists p,
    R2C._padding_backward sample_r2c_odd (sample_spectrum 4) (sample_spectrum 6)
    = Ok p /\
    item p [5] = C0.
Proof.
  split; [reflexivity |].
  split; [repeat constructor; discriminate |].
  split; [reflexivity |]. split; [lia |].
  split; [reflexivity |]. split; [lia |].
  destruct (r2c_padding_zero_fills_high_modes sample_r2c_odd (sample_spectrum 4)
              (sample_spectrum 6) 4 6 eq_refl
              ltac:(repeat constructor; discriminate) eq_refl ltac:(lia)
              eq_refl ltac:(lia)) as (p & Hp & _ & Hz).
  exists p. split; [exact Hp |]. apply Hz. simpl. lia.
Defined.

(** X3. The 2/3-rule of the real-to-complex basis. For a basis that is not
    padded (padding factor at most [1 + 1e-8]) with [dealias_direct] set and
    [N >= 0], [_padding_backward] ignores the truncated array, keeps the
    shape of the padded array, sets every mode from [N//3] on along the axis
    of the transform to zero and leaves the lower modes as they are; applied
    a second time it changes nothing. *)
Theorem r2c_dealias_direct_zeroes_upper_modes :
  forall (b : R2C.t) (trunc padded : ndarray) (m : Z),
    (R2C.padding_factor b <= 1 + (1 # 100000000))%Q ->
    R2C.dealias_direct b = true ->
    0 <= R2C.N b ->
    nth_error (shape padded) (R2C.axis b) = Some m ->
    exists p,
      R2C._padding_backward b trunc padded = Ok p /\
      shape p = shape padded /\
      (forall i, 0 <= nth (R2C.axis b) i (-1) < m ->
         (R2C.N b / 3 <= nth (R2C.axis b) i (-1) -> item p i = C0) /\
         (nth (R2C.axis b) i (-1) < R2C.N b / 3 -> item p i = item padded i)) /\
      exists p',
        R2C._padding_backward b trunc p = Ok p' /\
        shape p' = shape p /\
        forall i, item p' i = item p i.
Proof.
  intros b trunc padded m Hpf Hd HN Hm.
  assert (Hnp : R2C.is_padded b = false).
  { unfold R2C.is_padded. apply Qle_bool_iff in Hpf. now rewrite Hpf. }
  assert (H3 : 0 <= R2C.N b / 3) by (apply Z.div_pos; lia).
  unfold R2C._padding_backward. rewrite Hnp, Hd, Hm.
  eexists. split; [reflexivity |]. split; [reflexivity |]. split.
  - intros i Hi. simpl. unfold R2C.slice_start.
    destruct (R2C.N b / 3 <? 0) eqn:E; [apply Z.ltb_lt in E; lia |].
    split; intros Hk.
    + destruct (Z.min (R2C.N b / 3) m <=? nth (R2C.axis b) i (-1)) eqn:E1;
        [reflexivity | apply Z.leb_gt in E1; lia].
    + destruct (Z.min (R2C.N b / 3) m <=? nth (R2C.axis b) i (-1)) eqn:E1;
        [apply Z.leb_le in E1; lia | reflexivity].
  - simpl shape. rewrite Hm.
    eexists. split; [reflexivity |]. split; [reflexivity |].
    intros i. simpl.
    destruct (R2C.slice_start m (R2C.N b / 3) <=? nth (R2C.axis b) i (-1));
      reflexivity.
Qed.

Lemma r2c_dealias_direct_zeroes_upper_modes_witness :
  (R2C.padding_factor sample_r2c_dealias <= 1 + (1 # 100000000))%Q /\
  R2C.dealias_direct sample_r2c_dealias = true /\
  0 <= R2C.N sample_r2c_dealias /\
  nth_error (shape (sample_spectrum 5)) (R2C.axis sample_r2c_dealias) = Some 5 /\
  exists p,
    R2C._padding_backward sample_r2c_dealias (sample_spectrum 5)
      (sample_spectrum 5) = Ok p /\
    item p [3] = C0 /\
    item p [2] = item (sample_spectrum 5) [2].
Proof.
  split; [discriminate |]. split; [reflexivity |].
  split; [discriminate |]. split; [reflexivity |].
  destruct (r2c_dealias_direct_zeroes_upper_modes sample_r2c_dealias
              (sample_spectrum 5) (sample_spectrum 5) 5
              ltac:(discriminate) eq_refl ltac:(discriminate) eq_refl)
    as (p & Hp & _ & Hi & _).
  exists p. split; [exact Hp |].
  destruct (Hi [3] ltac:(change (0 <= 3 < 5); lia)) as [Hz _].
  destruct (Hi [2] ltac:(change (0 <= 2 < 5); lia)) as [_ Hk].
  split; [apply Hz; change (3 <= 3) | apply Hk; change (2 < 3)]; lia.
Defined.

(** ** Truncation and padding of the complex-to-complex basis *)

(** ** Slices along an axis *)

Lemma slice_bounds_prefix (len c : Z) :
  0 <= c <= len -> slice_bounds len (Some 0) (Some c) = (0, c).
Proof.
  intros H. unfold slice_bounds. simpl.
  destruct (c <? 0) eqn:E; [apply Z.ltb_lt in E; lia |].
  f_equal; lia.
Qed.

Lemma slice_bounds_suffix (len h : Z) :
  1 <= h <= len -> slice_bounds len (Some (- h)) None = (len - h, len).
Proof.
  intros H. unfold slice_bounds.
  destruct (- h <? 0) eqn:E; [| apply Z.ltb_ge in E; lia].
  f_equal; lia.
Qed.

Lemma shift_at_0 (ax : nat) (i : list Z) : shift_at ax 0 i = i.
Proof.
  revert i. induction ax as [| ax IH]; intros [| k i]; simpl;
    try reflexivity.
  - now rewrite Z.add_0_r.
  - now rewrite IH.
Qed.

Lemma shift_at_shift (ax : nat) (a c : Z) (i : list Z) :
  shift_at ax a (shift_at ax c i) = shift_at ax (c + a) i.
Proof.
  revert i. induction ax as [| ax IH]; intros [| k i]; simpl;
    try reflexivity.
  - now rewrite Z.add_assoc.
  - now rewrite IH.
Qed.

Lemma nth_shift_at (ax : nat) (d : Z) (i : list Z) :
  (ax < length i)%nat -> nth ax (shift_at ax d i) (-1) = nth ax i (-1) + d.
Proof.
  revert i. induction ax as [| ax IH]; intros [| k i] H; simpl in *;
    try lia.
  apply IH. lia.
Qed.

Lemma valid_index_shift (s i : list Z) (ax : nat) (len d c : Z) :
  valid_index s i -> nth_error s ax = Some len ->
  0 <= nth ax i (-1) + d < c ->
  valid_index (replace_at ax c s) (shift_at ax d i).
Proof.
  unfold valid_index. intros H. revert ax.
  induction H as [| k e i s Hk Hrest IH]; intros [| ax] Hn Hc; simpl in *;
    try discriminate.
  - constructor; [exact Hc | exact Hrest].
  - constructor; [exact Hk | exact (IH ax Hn Hc)].
Qed.

Lemma valid_index_longer (s i : list Z) (ax : nat) (n m : Z) :
  valid_index s i -> nth_error s ax = Some n -> n <= m ->
  valid_index (replace_at ax m s) i.
Proof.
  intros Hi Hn Hnm.
  rewrite <- (shift_at_0 ax i).
  apply (valid_index_shift s i ax n 0 m Hi Hn).
  pose proof (valid_index_nth _ _ _ _ Hi Hn). lia.
Qed.

Lemma slice_along_ok (a : ndarray) (k ax : nat) (start stop : option Z)
    (len lo hi : Z) :
  (k <= length (shape a))%nat ->
  nth_error (shape a) ax = Some len ->
  slice_bounds len start stop = (lo, hi) ->
  slice_along a k ax start stop
  = Ok (mkArr (replace_at ax (hi - lo) (shape a))
              (fun i => item a (shift_at ax lo i))).
Proof.
  intros Hk Hn Hb. unfold slice_along.
  destruct (length (shape a) <? k)%nat eqn:E; [apply Nat.ltb_lt in E; lia |].
  now rewrite Hn, Hb.
Qed.

Lemma update_slice_ok (f : Cx -> Cx -> Cx) (dst : ndarray) (k ax : nat)
    (start stop : option Z) (src : ndarray) (len lo hi : Z) :
  (k <= length (shape dst))%nat ->
  nth_error (shape dst) ax = Some len ->
  slice_bounds len start stop = (lo, hi) ->
  shape src = replace_at ax (hi - lo) (shape dst) ->
  exists r,
    update_slice f dst k ax start stop src = Ok r /\
    shape r = shape dst /\
    forall i, valid_index (shape dst) i ->
      item r i = if (lo <=? nth ax i (-1)) && (nth ax i (-1) <? hi)
                 then f (item dst i) (item src (shift_at ax (- lo) i))
                 else item dst i.
Proof.
  intros Hk Hn Hb Hs. unfold update_slice.
  destruct (length (shape dst) <? k)%nat eqn:E; [apply Nat.ltb_lt in E; lia |].
  rewrite Hn, Hb. simpl fst. simpl snd. unfold as_operand.
  rewrite Hs, broadcastable_refl. simpl bind.
  eexists. split; [reflexivity |]. split; [reflexivity |].
  intros i Hi. simpl.
  destruct ((lo <=? nth ax i (-1)) && (nth ax i (-1) <? hi)) eqn:C;
    [| reflexivity].
  apply andb_true_iff in C as [C1 C2].
  apply Z.leb_le in C1. apply Z.ltb_lt in C2.
  rewrite bcast_index_valid; [reflexivity |].
  apply (valid_index_shift _ _ _ len _ _ Hi Hn). lia.
Qed.
Section C2CFacts.

Variable b : R2C.t.
Variables small big : ndarray.
Variables n m : Z.

Hypothesis Hpad : R2C.is_padded b = true.
Hypothesis Hn : nth_error (shape small) (R2C.axis b) = Some n.
Hypothesis Hn2 : 2 <= n.
Hypothesis Hbig : shape big = replace_at (R2C.axis b) m (shape small).
Hypothesis Hnm : n < m.

Lemma half_bounds : 1 <= n / 2 /\ 2 * (n / 2) <= n <= 2 * (n / 2) + 1.
Proof.
  pose proof (Z.div_mod n 2 ltac:(lia)).
  pose proof (Z.mod_pos_bound n 2 ltac:(lia)). lia.
Qed.

Lemma big_axis : nth_error (shape big) (R2C.axis b) = Some m.
Proof. rewrite Hbig. exact (nth_error_replace_at _ _ m n Hn). Qed.

Lemma big_rank : length (shape big) = length (shape small).
Proof. rewrite Hbig. apply length_replace_at. Qed.

Lemma c2c_truncation_items :
  exists t,
    C2C._truncation_forward b big small = Ok t /\
    shape t = shape small /\
    forall i, valid_index (shape small) i ->
      (nth (R2C.axis b) i (-1) < n - n / 2 -> item t i = item big i) /\
      (n - n / 2 <= nth (R2C.axis b) i (-1) ->
       item t i
       = Cadd (if nth (R2C.axis b) i (-1) <? n / 2 + 1 then item big i else C0)
              (item big (shift_at (R2C.axis b) (m - n) i))).
Proof.
  pose proof half_bounds as Hh.
  unfold C2C._truncation_forward. rewrite Hpad.
  unfold axis_len, ndim. simpl shape. rewrite Hn.
  cbv beta iota delta [bind].
  rewrite (slice_along_ok big (length (shape small)) (R2C.axis b) (Some 0) (Some (n / 2 + 1)) m 0 (n / 2 + 1)
             ltac:(rewrite big_rank; lia) big_axis
             (slice_bounds_prefix m (n / 2 + 1) ltac:(lia))).
  destruct (update_slice_ok (fun _ x => x) (zeros (shape small))
              (length (shape small)) (R2C.axis b) (Some 0) (Some (n / 2 + 1))
              (mkArr (replace_at (R2C.axis b) (n / 2 + 1 - 0) (shape big))
                     (fun i => item big (shift_at (R2C.axis b) 0 i)))
              n 0 (n / 2 + 1) (le_n _) Hn
              (slice_bounds_prefix n (n / 2 + 1) ltac:(lia))
              ltac:(simpl; rewrite Hbig; apply replace_at_twice))
    as (t1 & Ht1 & Hs1 & Hi1).
  rewrite Ht1.
  rewrite (slice_along_ok big (length (shape small)) (R2C.axis b) (Some (- (n / 2))) None m (m - n / 2) m
             ltac:(rewrite big_rank; lia) big_axis
             (slice_bounds_suffix m (n / 2) ltac:(lia))).
  simpl shape in Hs1.
  destruct (update_slice_ok Cadd t1
              (length (shape small)) (R2C.axis b) (Some (- (n / 2))) None
              (mkArr (replace_at (R2C.axis b) (m - (m - n / 2)) (shape big))
                     (fun i => item big (shift_at (R2C.axis b) (m - n / 2) i)))
              n (n - n / 2) n
              ltac:(rewrite Hs1; lia) ltac:(rewrite Hs1; exact Hn)
              (slice_bounds_suffix n (n / 2) ltac:(lia))
              ltac:(simpl; rewrite Hs1, Hbig, replace_at_twice; f_equal; lia))
    as (t & Ht & Hs & Hi).
  rewrite Ht. exists t. split; [reflexivity |].
  split; [rewrite Hs; exact Hs1 |].
  intros i Hv.
  pose proof (valid_index_nth _ _ _ _ Hv Hn) as Hj.
  rewrite (Hi i ltac:(rewrite Hs1; exact Hv)).
  rewrite (Hi1 i Hv). simpl item.
  rewrite !shift_at_shift, !shift_at_0.
  replace (- (n - n / 2) + (m - n / 2)) with (m - n) by lia.
  split; intros Hk.
  - destruct (n - n / 2 <=? nth (R2C.axis b) i (-1)) eqn:E1;
      [apply Z.leb_le in E1; lia |]. simpl.
    destruct (0 <=? nth (R2C.axis b) i (-1)) eqn:E2;
      [| apply Z.leb_gt in E2; lia].
    destruct (nth (R2C.axis b) i (-1) <? n / 2 + 1) eqn:E3;
      [reflexivity | apply Z.ltb_ge in E3; lia].
  - destruct (n - n / 2 <=? nth (R2C.axis b) i (-1)) eqn:E1;
      [| apply Z.leb_gt in E1; lia].
    destruct (nth (R2C.axis b) i (-1) <? n) eqn:E4;
      [| apply Z.ltb_ge in E4; lia]. simpl.
    destruct (0 <=? nth (R2C.axis b) i (-1)) eqn:E2;
      [| apply Z.leb_gt in E2; lia]. simpl.
    reflexivity.
Qed.

Lemma c2c_padding_items :
  exists p,
    C2C._padding_backward b small big = Ok p /\
    shape p = shape big /\
    forall i, valid_index (shape big) i ->
      (nth (R2C.axis b) i (-1) <= n / 2 ->
       item p i
       = if R2C.even_N b && (nth (R2C.axis b) i (-1) =? n / 2)
         then Cmul (item small i) (Cx_of_Q (1 # 2))
         else item small i) /\
      (n / 2 < nth (R2C.axis b) i (-1) < m - n / 2 -> item p i = C0) /\
      (m - n / 2 <= nth (R2C.axis b) i (-1) ->
       item p i
       = if R2C.even_N b && (nth (R2C.axis b) i (-1) =? m - n / 2)
         then Cmul (item small (shift_at (R2C.axis b) (n - m) i))
                   (Cx_of_Q (1 # 2))
         else item small (shift_at (R2C.axis b) (n - m) i)).
Proof.
  pose proof half_bounds as Hh. pose proof big_axis as Hm.
  pose proof big_rank as Hr.
  unfold C2C._padding_backward. rewrite Hpad.
  rewrite (axis_len_ok small _ n Hn). unfold ndim.
  cbv beta iota delta [bind].
  rewrite (slice_along_ok small (length (shape small)) (R2C.axis b)
             (Some 0) (Some (n / 2 + 1)) n 0 (n / 2 + 1)
             (le_n _) Hn (slice_bounds_prefix n (n / 2 + 1) ltac:(lia))).
  destruct (update_slice_ok (fun _ x => x) (zeros (shape big))
              (length (shape small)) (R2C.axis b) (Some 0) (Some (n / 2 + 1))
              (mkArr (replace_at (R2C.axis b) (n / 2 + 1 - 0) (shape small))
                     (fun i => item small (shift_at (R2C.axis b) 0 i)))
              m 0 (n / 2 + 1) ltac:(simpl; lia) Hm
              (slice_bounds_prefix m (n / 2 + 1) ltac:(lia))
              ltac:(simpl; rewrite Hbig; symmetry; apply replace_at_twice))
    as (p1 & Hp1 & Hs1 & Hi1).
  rewrite Hp1. simpl shape in Hs1.
  rewrite (slice_along_ok small (length (shape small)) (R2C.axis b)
             (Some (- (n / 2))) None n (n - n / 2) n
             (le_n _) Hn (slice_bounds_suffix n (n / 2) ltac:(lia))).
  destruct (update_slice_ok (fun _ x => x) p1
              (length (shape small)) (R2C.axis b) (Some (- (n / 2))) None
              (mkArr (replace_at (R2C.axis b) (n - (n - n / 2)) (shape small))
                     (fun i => item small (shift_at (R2C.axis b) (n - n / 2) i)))
              m (m - n / 2) m
              ltac:(rewrite Hs1; lia) ltac:(rewrite Hs1; exact Hm)
              (slice_bounds_suffix m (n / 2) ltac:(lia))
              ltac:(simpl; rewrite Hs1, Hbig, replace_at_twice; f_equal; lia))
    as (p2 & Hp2 & Hs2 & Hi2).
  rewrite Hp2.
  assert (Hitem : forall i, valid_index (shape big) i ->
            item p2 i
            = if m - n / 2 <=? nth (R2C.axis b) i (-1)
              then item small (shift_at (R2C.axis b) (n - m) i)
              else if nth (R2C.axis b) i (-1) <? n / 2 + 1
                   then item small i else C0).
  { intros i Hv.
    pose proof (valid_index_nth _ _ _ _ Hv Hm) as Hj.
    rewrite (Hi2 i ltac:(rewrite Hs1; exact Hv)), (Hi1 i Hv). simpl item.
    rewrite !shift_at_shift, !shift_at_0.
    replace (- (m - n / 2) + (n - n / 2)) with (n - m) by lia.
    destruct (m - n / 2 <=? nth (R2C.axis b) i (-1)) eqn:E1.
    - destruct (nth (R2C.axis b) i (-1) <? m) eqn:E2;
        [reflexivity | apply Z.ltb_ge in E2; lia].
    - simpl.
      destruct (0 <=? nth (R2C.axis b) i (-1)) eqn:E2;
        [reflexivity | apply Z.leb_gt in E2; lia]. }
  assert (Hshape2 : shape p2 = shape big) by (rewrite Hs2; exact Hs1).
  destruct (R2C.even_N b).
  - unfold scale_at. rewrite Hshape2.
    destruct (length (shape big) <? length (shape small))%nat eqn:E;
      [apply Nat.ltb_lt in E; lia |].
    rewrite (axis_len_ok p2 _ m ltac:(rewrite Hshape2; exact Hm)).
    cbv beta iota delta [bind].
    rewrite (resolve_index_nonneg m (n / 2)) by lia.
    simpl shape. rewrite Hshape2, E.
    unfold axis_len. simpl shape. rewrite Hshape2, Hm.
    rewrite (resolve_index_neg m (n / 2)) by lia.
    eexists. split; [reflexivity |]. split; [exact Hshape2 |].
    intros i Hv. simpl. rewrite (Hitem i Hv).
    pose proof (valid_index_nth _ _ _ _ Hv Hm) as Hj.
    repeat split; intros Hk.
    + destruct (nth (R2C.axis b) i (-1) =? m - n / 2) eqn:E1;
        [apply Z.eqb_eq in E1; lia |].
      destruct (m - n / 2 <=? nth (R2C.axis b) i (-1)) eqn:E2;
        [apply Z.leb_le in E2; lia |].
      destruct (nth (R2C.axis b) i (-1) <? n / 2 + 1) eqn:E3;
        [| apply Z.ltb_ge in E3; lia].
      reflexivity.
    + destruct (nth (R2C.axis b) i (-1) =? m - n / 2) eqn:E1;
        [apply Z.eqb_eq in E1; lia |].
      destruct (nth (R2C.axis b) i (-1) =? n / 2) eqn:E0;
        [apply Z.eqb_eq in E0; lia |].
      destruct (m - n / 2 <=? nth (R2C.axis b) i (-1)) eqn:E2;
        [apply Z.leb_le in E2; lia |].
      destruct (nth (R2C.axis b) i (-1) <? n / 2 + 1) eqn:E3;
        [apply Z.ltb_lt in E3; lia | reflexivity].
    + destruct (m - n / 2 <=? nth (R2C.axis b) i (-1)) eqn:E2;
        [| apply Z.leb_gt in E2; lia].
      destruct (nth (R2C.axis b) i (-1) =? n / 2) eqn:E0;
        [apply Z.eqb_eq in E0; lia |].
      destruct (nth (R2C.axis b) i (-1) =? m - n / 2); reflexivity.
  - exists p2. split; [reflexivity |]. split; [exact Hshape2 |].
    intros i Hv. rewrite (Hitem i Hv). simpl andb.
    pose proof (valid_index_nth _ _ _ _ Hv Hm) as Hj.
    repeat split; intros Hk.
    + destruct (m - n / 2 <=? nth (R2C.axis b) i (-1)) eqn:E2;
        [apply Z.leb_le in E2; lia |].
      destruct (nth (R2C.axis b) i (-1) <? n / 2 + 1) eqn:E3;
        [reflexivity | apply Z.ltb_ge in E3; lia].
    + destruct (m - n / 2 <=? nth (R2C.axis b) i (-1)) eqn:E2;
        [apply Z.leb_le in E2; lia |].
      destruct (nth (R2C.axis b) i (-1) <? n / 2 + 1) eqn:E3;
        [apply Z.ltb_lt in E3; lia | reflexivity].
    + destruct (m - n / 2 <=? nth (R2C.axis b) i (-1)) eqn:E2;
        [reflexivity | apply Z.leb_gt in E2; lia].
Qed.

End C2CFacts.

Lemma Cadd_halves (x : Cx) :
  Ceq (Cadd (Cmul x (Cx_of_Q (1 # 2))) (Cmul x (Cx_of_Q (1 # 2)))) x.
Proof. split; simpl; ring. Qed.

Lemma Cadd_C0_l (x : Cx) : Ceq (Cadd C0 x) x.
Proof. split; simpl; ring. Qed.

Lemma Ceq_refl (x : Cx) : Ceq x x.
Proof. split; reflexivity. Qed.

(** X4. Padding a complex-to-complex spectrum and truncating it again gives
    the spectrum back. For a padding factor above [1 + 1e-8], a truncated
    array with [n >= 2] modes along the axis of the transform, [n] of the
    parity of [N], and a padded array that differs from it only by a
    strictly longer axis: [_padding_backward] followed by
    [_truncation_forward] succeeds and returns every coefficient with its
    value (the two halves of the Nyquist mode of an even [N] add up
    again). *)
Theorem c2c_truncation_inverts_padding :
  forall (b : R2C.t) (small big out : ndarray) (n m : Z),
    (1 + (1 # 100000000) < R2C.padding_factor b)%Q ->
    nth_error (shape small) (R2C.axis b) = Some n ->
    2 <= n ->
    shape big = replace_at (R2C.axis b) m (shape small) ->
    n < m ->
    shape out = shape small ->
    R2C.even_N b = Z.even n ->
    exists p t,
      C2C._padding_backward b small big = Ok p /\
      C2C._truncation_forward b p out = Ok t /\
      shape t = shape small /\
      forall i, valid_index (shape small) i -> Ceq (item t i) (item small i).
Proof.
  intros b small big out n m Hpf Hn Hn2 Hbig Hnm Hout Hpar.
  apply is_padded_spec in Hpf.
  pose proof (half_bounds n Hn2) as Hh.
  assert (Hn' : nth_error (shape out) (R2C.axis b) = Some n)
    by (rewrite Hout; exact Hn).
  destruct (c2c_padding_items b small big n m Hpf Hn Hn2 Hbig Hnm)
    as (p & Hp & Hps & Hpi).
  assert (Hbig' : shape p = replace_at (R2C.axis b) m (shape out))
    by (rewrite Hps, Hout; exact Hbig).
  destruct (c2c_truncation_items b out p n m Hpf Hn' Hn2 Hbig' Hnm)
    as (t & Ht & Hts & Hti).
  exists p, t. split; [exact Hp |]. split; [exact Ht |].
  split; [rewrite Hts; exact Hout |].
  intros i Hi.
  pose proof (valid_index_nth _ _ _ _ Hi Hn) as Hj.
  assert (Hax : (R2C.axis b < length i)%nat).
  { rewrite (valid_index_length _ _ Hi). apply nth_error_Some. congruence. }
  assert (Hvb : valid_index (shape big) i)
    by (rewrite Hbig; apply (valid_index_longer _ _ _ n m Hi Hn); lia).
  assert (Hvs : valid_index (shape big) (shift_at (R2C.axis b) (m - n) i))
    by (rewrite Hbig; apply (valid_index_shift _ _ _ n _ _ Hi Hn); lia).
  destruct (Hti i ltac:(rewrite Hout; exact Hi)) as [Hlow Hhigh].
  destruct (Hpi i Hvb) as [Hp_low _].
  destruct (Hpi _ Hvs) as [_ [_ Hp_high]].
  rewrite (nth_shift_at _ _ _ Hax) in Hp_high.
  rewrite shift_at_shift in Hp_high.
  replace (m - n + (n - m)) with 0 in Hp_high by lia.
  rewrite shift_at_0 in Hp_high.
  assert (Heven : Z.even n = true -> n = 2 * (n / 2)).
  { intros He. pose proof (Z.div_mod n 2 ltac:(lia)) as Hd.
    rewrite Zmod_even, He in Hd. lia. }
  assert (Hodd : Z.even n = false -> n = 2 * (n / 2) + 1).
  { intros He. pose proof (Z.div_mod n 2 ltac:(lia)) as Hd.
    rewrite Zmod_even, He in Hd. lia. }
  rewrite Hpar in Hp_low, Hp_high.
  destruct (Z_lt_le_dec (nth (R2C.axis b) i (-1)) (n - n / 2)) as [Hc | Hc].
  - rewrite (Hlow Hc), (Hp_low ltac:(lia)).
    destruct (Z.even n) eqn:He; [| apply Ceq_refl].
    specialize (Heven eq_refl).
    destruct (nth (R2C.axis b) i (-1) =? n / 2) eqn:E;
      [apply Z.eqb_eq in E; lia | apply Ceq_refl].
  - rewrite (Hhigh Hc), (Hp_high ltac:(lia)).
    destruct (Z.even n) eqn:He.
    + specialize (Heven eq_refl).
      destruct (nth (R2C.axis b) i (-1) <? n / 2 + 1) eqn:E1.
      * apply Z.ltb_lt in E1.
        rewrite (Hp_low ltac:(lia)).
        replace (nth (R2C.axis b) i (-1) =? n / 2) with true
          by (symmetry; apply Z.eqb_eq; lia).
        replace (nth (R2C.axis b) i (-1) + (m - n) =? m - n / 2) with true
          by (symmetry; apply Z.eqb_eq; lia).
        apply Cadd_halves.
      * apply Z.ltb_ge in E1.
        replace (nth (R2C.axis b) i (-1) + (m - n) =? m - n / 2) with false
          by (symmetry; apply Z.eqb_neq; lia).
        apply Cadd_C0_l.
    + specialize (Hodd eq_refl).
      destruct (nth (R2C.axis b) i (-1) <? n / 2 + 1) eqn:E1;
        [apply Z.ltb_lt in E1; lia |].
      apply Cadd_C0_l.
Qed.

Lemma c2c_truncation_inverts_padding_witness :
  (1 + (1 # 100000000) < R2C.padding_factor sample_c2c)%Q /\
  nth_error (shape (sample_spectrum 8)) (R2C.axis sample_c2c) = Some 8 /\
  2 <= 8 /\
  shape (sample_spectrum 12)
  = replace_at (R2C.axis sample_c2c) 12 (shape (sample_spectrum 8)) /\
  8 < 12 /\
  shape (zeros [8]) = shape (sample_spectrum 8) /\
  R2C.even_N sample_c2c = Z.even 8 /\
  exists p t,
    C2C._padding_backward sample_c2c (sample_spectrum 8) (sample_spectrum 12)
    = Ok p /\
    C2C._truncation_forward sample_c2c p (zeros [8]) = Ok t /\
    Ceq (item t [4]) (item (sample_spectrum 8) [4]).
Proof.
  split; [reflexivity |]. split; [reflexivity |]. split; [lia |].
  split; [reflexivity |]. split; [lia |]. split; [reflexivity |].
  split; [reflexivity |].
  destruct (c2c_truncation_inverts_padding sample_c2c (sample_spectrum 8)
              (sample_spectrum 12) (zeros [8]) 8 12 eq_refl eq_refl
              ltac:(lia) eq_refl ltac:(lia) eq_refl eq_refl)
    as (p & t & Hp & Ht & _ & Hi).
  exists p, t. split; [exact Hp |]. split; [exact Ht |].
  apply Hi. unfold valid_index. simpl. repeat (constructor; try lia).
Defined.

(** X5. The layout of a padded complex-to-complex spectrum. Under the
    conditions of X4 (whatever the parity of [n]), [_padding_backward]
    copies the modes [0..n//2] to the start of the padded axis and the last
    [n//2] modes to its end, and every entry in between is zero; when [N]
    is even the entries at [n//2] and at [-(n//2)] are both halved, so that
    for even [n] the Nyquist mode is split between the two ends. *)
Theorem c2c_padding_layout :
  forall (b : R2C.t) (small big : ndarray) (n m : Z),
    (1 + (1 # 100000000) < R2C.padding_factor b)%Q ->
    nth_error (shape small) (R2C.axis b) = Some n ->
    2 <= n ->
    shape big = replace_at (R2C.axis b) m (shape small) ->
    n < m ->
    exists p,
      C2C._padding_backward b small big = Ok p /\
      shape p = shape big /\
      forall i, valid_index (shape big) i ->
        (nth (R2C.axis b) i (-1) <= n / 2 ->
         item p i
         = if R2C.even_N b && (nth (R2C.axis b) i (-1) =? n / 2)
           then Cmul (item small i) (Cx_of_Q (1 # 2))
           else item small i) /\
        (n / 2 < nth (R2C.axis b) i (-1) < m - n / 2 -> item p i = C0) /\
        (m - n / 2 <= nth (R2C.axis b) i (-1) ->
         item p i
         = if R2C.even_N b && (nth (R2C.axis b) i (-1) =? m - n / 2)
           then Cmul (item small (shift_at (R2C.axis b) (n - m) i))
                     (Cx_of_Q (1 # 2))
           else item small (shift_at (R2C.axis b) (n - m) i)).
Proof.
  intros b small big n m Hpf Hn Hn2 Hbig Hnm.
  apply is_padded_spec in Hpf.
  exact (c2c_padding_items b small big n m Hpf Hn Hn2 Hbig Hnm).
Qed.

Lemma c2c_padding_layout_witness :
  (1 + (1 # 100000000) < R2C.padding_factor sample_c2c)%Q /\
  nth_error (shape (sample_spectrum 8)) (R2C.axis sample_c2c) = Some 8 /\
  2 <= 8 /\
  shape (sample_spectrum 12)
  = replace_at (R2C.axis sample_c2c) 12 (shape (sample_spectrum 8)) /\
  8 < 12 /\
  exists p,
    C2C._padding_backward sample_c2c (sample_spectrum 8) (sample_spectrum 12)
    = Ok p /\
    item p [5] = C0 /\
    item p [11] = item (sample_spectrum 8) [7].
Proof.
  split; [reflexivity |]. split; [reflexivity |]. split; [lia |].
  split; [reflexivity |]. split; [lia |].
  destruct (c2c_padding_layout sample_c2c (sample_spectrum 8)
              (sample_spectrum 12) 8 12 eq_refl eq_refl
              ltac:(lia) eq_refl ltac:(lia))
    as (p & Hp & _ & Hi).
  exists p. split; [exact Hp |].
  destruct (Hi [5] ltac:(unfold valid_index; simpl; repeat (constructor; try lia))) as [_ [Hz _]].
  destruct (Hi [11] ltac:(unfold valid_index; simpl; repeat (constructor; try lia))) as [_ [_ Hk]].
  split.
  - apply Hz. change (4 < 5 < 8). lia.
  - apply Hk. change (8 <= 11). lia.
Defined.

(** X6. The forward truncation of the complex-to-complex basis folds the
    padded spectrum. For a padding factor above [1 + 1e-8], an output array
    with [n >= 2] modes along the axis of the transform and a padded array
    that differs from it only by a strictly longer axis of length [m]:
    positions below [n - n//2] receive the padded coefficient at the same
    position; positions from [n - n//2] on receive the padded coefficient
    [m - n] places further up, and for even [n] the position [n//2] receives
    the sum of the padded coefficients at [n//2] and at [m - n//2]. What the
    output array held before is discarded. *)
Theorem c2c_truncation_folds_upper_half :
  forall (b : R2C.t) (out big : ndarray) (n m : Z),
    (1 + (1 # 100000000) < R2C.padding_factor b)%Q ->
    nth_error (shape out) (R2C.axis b) = Some n ->
    2 <= n ->
    shape big = replace_at (R2C.axis b) m (shape out) ->
    n < m ->
    exists t,
      C2C._truncation_forward b big out = Ok t /\
      shape t = shape out /\
      forall i, valid_index (shape out) i ->
        (nth (R2C.axis b) i (-1) < n - n / 2 -> item t i = item big i) /\
        (n - n / 2 <= nth (R2C.axis b) i (-1) ->
         item t i
         = Cadd (if nth (R2C.axis b) i (-1) <? n / 2 + 1
                 then item big i else C0)
                (item big (shift_at (R2C.axis b) (m - n) i))).
Proof.
  intros b out big n m Hpf Hn Hn2 Hbig Hnm.
  apply is_padded_spec in Hpf.
  exact (c2c_truncation_items b out big n m Hpf Hn Hn2 Hbig Hnm).
Qed.

Lemma c2c_truncation_folds_upper_half_witness :
  (1 + (1 # 100000000) < R2C.padding_factor sample_c2c)%Q /\
  nth_error (shape (zeros [8])) (R2C.axis sample_c2c) = Some 8 /\
  2 <= 8 /\
  shape (sample_spectrum 12)
  = replace_at (R2C.axis sample_c2c) 12 (shape (zeros [8])) /\
  8 < 12 /\
  exists t,
    C2C._truncation_forward sample_c2c (sample_spectrum 12) (zeros [8]) = Ok t /\
    item t [4]
    = Cadd (item (sample_spectrum 12) [4]) (item (sample_spectrum 12) [8]).
Proof.
  split; [reflexivity |]. split; [reflexivity |]. split; [lia |].
  split; [reflexivity |]. split; [lia |].
  destruct (c2c_truncation_folds_upper_half sample_c2c (zeros [8])
              (sample_spectrum 12) 8 12 eq_refl eq_refl
              ltac:(lia) eq_refl ltac:(lia))
    as (t & Ht & _ & Hi).
  exists t. split; [exact Ht |].
  destruct (Hi [4] ltac:(unfold valid_index; simpl; repeat (constructor; try lia))) as [_ Hk].
  apply Hk. change (4 <= 4). lia.
Defined.

(** X7. A complex-to-complex basis with a single mode cannot be truncated
    from a longer array: with [n = 1] the slice [slice(-(n//2), None)] is
    the whole axis, and adding the [m >= 2] padded coefficients onto the one
    truncated coefficient is a [ValueError]. Stated for one-dimensional
    arrays. *)
Theorem c2c_truncation_single_mode_raises :
  forall (b : R2C.t) (big out : ndarray) (m : Z),
    (1 + (1 # 100000000) < R2C.padding_factor b)%Q ->
    R2C.axis b = 0%nat ->
    shape out = [1] ->
    shape big = [m] ->
    2 <= m ->
    C2C._truncation_forward b big out = Raise ValueError.
Proof.
  intros b big out m Hpf Hax Hout Hbig Hm.
  apply is_padded_spec in Hpf.
  unfold C2C._truncation_forward. rewrite Hpf, Hax, Hout.
  unfold axis_len, ndim. simpl shape. simpl nth_error.
  cbv beta iota delta [bind].
  change (1 / 2) with 0. change (- 0) with 0. change (0 + 1) with 1.
  change (length [1]) with 1%nat.
  assert (Hr : (1 <= length (shape big))%nat) by (rewrite Hbig; simpl; lia).
  assert (Hm0 : nth_error (shape big) 0 = Some m) by (rewrite Hbig; reflexivity).
  rewrite (slice_along_ok big 1 0 (Some 0) (Some 1) m 0 1 Hr Hm0
             (slice_bounds_prefix m 1 ltac:(lia))).
  destruct (update_slice_ok (fun _ x => x) (zeros [1]) 1 0 (Some 0) (Some 1)
              (mkArr (replace_at 0 (1 - 0) (shape big))
                     (fun i => item big (shift_at 0 0 i)))
              1 0 1 (le_n _) eq_refl eq_refl
              ltac:(simpl; rewrite Hbig; reflexivity))
    as (t1 & Ht1 & Hs1 & _).
  rewrite Ht1.
  rewrite (slice_along_ok big 1 0 (Some 0) None m 0 m Hr Hm0
             ltac:(unfold slice_bounds; simpl; f_equal; lia)).
  unfold update_slice. rewrite Hs1. simpl shape.
  change (length [1] <? 1)%nat with false. cbv iota.
  change (nth_error [1] 0) with (Some 1). cbv iota.
  unfold as_operand. simpl shape. rewrite Hbig.
  change (snd (slice_bounds 1 (Some 0) None) - fst (slice_bounds 1 (Some 0) None))
    with 1.
  unfold broadcastable. simpl.
  destruct (m - 0 =? 1) eqn:E; [apply Z.eqb_eq in E; lia | reflexivity].
Qed.

Lemma c2c_truncation_single_mode_raises_witness :
  (1 + (1 # 100000000) < R2C.padding_factor sample_c2c)%Q /\
  R2C.axis sample_c2c = 0%nat /\
  shape (zeros [1]) = [1] /\
  shape (sample_spectrum 3) = [3] /\
  2 <= 3 /\
  C2C._truncation_forward sample_c2c (sample_spectrum 3) (zeros [1])
  = Raise ValueError.
Proof.
  split; [reflexivity |]. split; [reflexivity |]. split; [reflexivity |].
  split; [reflexivity |]. split; [lia |].
  apply (c2c_truncation_single_mode_raises sample_c2c (sample_spectrum 3)
           (zeros [1]) 3); [reflexivity | reflexivity | reflexivity
                           | reflexivity | lia].
Defined.

(** ** Legendre polynomials at the end points *)

Lemma inject_Z_index_nonzero (k : nat) : ~ (inject_Z (Z.of_nat k + 2) == 0)%Q.
Proof. unfold Qeq. simpl. lia. Qed.

Lemma legendre_pair_at_one (x : Q) (k : nat) :
  (x == 1)%Q ->
  (fst (leg.legendre_pair x k) == 1)%Q /\ (snd (leg.legendre_pair x k) == 1)%Q.
Proof.
  intros Hx. induction k as [| k [IH1 IH2]]; simpl.
  - split; [reflexivity | exact Hx].
  - split; [exact IH2 |].
    rewrite IH1, IH2, Hx. field. apply inject_Z_index_nonzero.
Qed.

Lemma alternating_S (k : nat) : (alternating (S k) == - alternating k)%Q.
Proof.
  unfold alternating. rewrite Nat.even_succ, <- Nat.negb_even.
  destruct (Nat.even k); reflexivity.
Qed.

Lemma legendre_pair_at_minus_one (x : Q) (k : nat) :
  (x == -1)%Q ->
  (fst (leg.legendre_pair x k) == alternating k)%Q /\
  (snd (leg.legendre_pair x k) == - alternating k)%Q.
Proof.
  intros Hx. induction k as [| k [IH1 IH2]].
  - simpl. split; [reflexivity | rewrite Hx; reflexivity].
  - cbn [leg.legendre_pair fst snd]. split.
    + rewrite IH2, alternating_S. reflexivity.
    + rewrite IH1, IH2, Hx, alternating_S. field.
      apply inject_Z_index_nonzero.
Qed.

Lemma legendre_at_one (x : Q) (k : nat) :
  (x == 1)%Q -> (leg.legendre k x == 1)%Q.
Proof. intros Hx. exact (proj1 (legendre_pair_at_one x k Hx)). Qed.

Lemma legendre_at_minus_one (x : Q) (k : nat) :
  (x == -1)%Q -> (leg.legendre k x == alternating k)%Q.
Proof. intros Hx. exact (proj1 (legendre_pair_at_minus_one x k Hx)). Qed.

Lemma alternating_SS (k : nat) : (alternating (S (S k)) == alternating k)%Q.
Proof. rewrite !alternating_S. ring. Qed.

(** ** The Shen bases of the Legendre family at the end points *)

(** the rows of the Dirichlet basis matrix at the end points *)
Lemma shen_dirichlet_rows_at_end_points :
  forall (np_sqrt : Q -> Q) (self : ShenDirichlet.t) (x : list Q) (j : nat),
    2 <= ShenDirichlet.N self ->
    (j < length x)%nat ->
    exists V P,
      legendre_vandermonde (ShenDirichlet.N self) x = Ok V /\
      ShenDirichlet.get_vandermonde_basis np_sqrt self V = Ok P /\
      nrows P = length x /\
      ncols P = Z.to_nat (ShenDirichlet.N self) /\
      ((nth j x 0 == 1 \/ nth j x 0 == -1)%Q ->
       forall k, Z.of_nat k < ShenDirichlet.spectral_shape self ->
                 (entry P j k == 0)%Q) /\
      ((nth j x 0 == 1)%Q ->
       (entry P j (ncols P - 2) == 1)%Q /\ (entry P j (ncols P - 1) == 0)%Q) /\
      ((nth j x 0 == -1)%Q ->
       (entry P j (ncols P - 2) == 0)%Q /\ (entry P j (ncols P - 1) == 1)%Q).
Proof.
  intros np_sqrt self x j HN Hj.
  unfold legendre_vandermonde, leg.legvander.
  destruct (ShenDirichlet.N self - 1 <? 0) eqn:E; [apply Z.ltb_lt in E; lia |].
  replace (ShenDirichlet.N self - 1 + 1) with (ShenDirichlet.N self) by lia.
  assert (Hc : (Z.to_nat (ShenDirichlet.N self) - 2
                = Z.to_nat (ShenDirichlet.N self - 2))%nat) by lia.
  assert (Hpre : (if ShenDirichlet.is_scaled self then Ok tt else Ok tt)
                 = @Ok unit tt)
    by (destruct (ShenDirichlet.is_scaled self); reflexivity).
  eexists. eexists. split; [reflexivity |].
  unfold ShenDirichlet.get_vandermonde_basis. cbn [ncols nrows entry].
  rewrite Hc, Nat.eqb_refl. simpl orb. cbv beta iota.
  rewrite Hpre. cbv beta iota delta [bind].
  destruct (Z.to_nat (ShenDirichlet.N self) <? 2)%nat eqn:E2;
    [apply Nat.ltb_lt in E2; lia |].
  split; [reflexivity |].
  cbn [ncols nrows entry]. split; [reflexivity |]. split; [reflexivity |].
  unfold ShenDirichlet.spectral_shape. rewrite <- Hc.
  split; [| split].
  - intros Hx k Hk.
    destruct (k <? Z.to_nat (ShenDirichlet.N self) - 2)%nat eqn:E3;
      [| apply Nat.ltb_ge in E3; lia].
    assert (Hnum : (leg.legendre k (nth j x 0%Q)
                    - leg.legendre (k + 2) (nth j x 0%Q) == 0)%Q).
    { replace (k + 2)%nat with (S (S k)) by lia.
      destruct Hx as [Hx | Hx].
      - rewrite !(legendre_at_one _ _ Hx). ring.
      - rewrite !(legendre_at_minus_one _ _ Hx), alternating_SS. ring. }
    destruct (ShenDirichlet.is_scaled self); [| exact Hnum].
    rewrite Hnum. unfold Qdiv. ring.
  - intros Hx. rewrite Nat.ltb_irrefl, Nat.eqb_refl.
    destruct (Z.to_nat (ShenDirichlet.N self) - 1
              <? Z.to_nat (ShenDirichlet.N self) - 2)%nat eqn:E3;
      [apply Nat.ltb_lt in E3; lia |].
    destruct (Z.to_nat (ShenDirichlet.N self) - 1
              =? Z.to_nat (ShenDirichlet.N self) - 2)%nat eqn:E4;
      [apply Nat.eqb_eq in E4; lia |].
    rewrite !(legendre_at_one _ _ Hx). split; field.
  - intros Hx. rewrite Nat.ltb_irrefl, Nat.eqb_refl.
    destruct (Z.to_nat (ShenDirichlet.N self) - 1
              <? Z.to_nat (ShenDirichlet.N self) - 2)%nat eqn:E3;
      [apply Nat.ltb_lt in E3; lia |].
    destruct (Z.to_nat (ShenDirichlet.N self) - 1
              =? Z.to_nat (ShenDirichlet.N self) - 2)%nat eqn:E4;
      [apply Nat.eqb_eq in E4; lia |].
    rewrite !(legendre_at_minus_one _ _ Hx). split; unfold alternating; simpl; field.
Qed.

(** X8. The Dirichlet basis functions of the Legendre family, as
    [get_vandermonde_basis] builds them from the Vandermonde matrix of a
    basis with [N >= 2] points (scaled or not): in a row whose point is [1]
    or [-1] the first [spectral_shape()] columns vanish; the column before
    the last is [1] at the point [1] and [0] at [-1], and the last column
    is [0] at [1] and [1] at [-1]. An expansion therefore takes the value of
    its coefficient [N-2] at [x = 1] and of its coefficient [N-1] at
    [x = -1]. *)
Theorem shen_dirichlet_basis_at_end_points :
  forall (np_sqrt : Q -> Q) (self : ShenDirichlet.t) (x : list Q) (j : nat),
    2 <= ShenDirichlet.N self ->
    (j < length x)%nat ->
    exists V P,
      legendre_vandermonde (ShenDirichlet.N self) x = Ok V /\
      ShenDirichlet.get_vandermonde_basis np_sqrt self V = Ok P /\
      nrows P = length x /\
      ncols P = Z.to_nat (ShenDirichlet.N self) /\
      ((nth j x 0 == 1 \/ nth j x 0 == -1)%Q ->
       forall k, Z.of_nat k < ShenDirichlet.spectral_shape self ->
                 (entry P j k == 0)%Q) /\
      ((nth j x 0 == 1)%Q ->
       (entry P j (ncols P - 2) == 1)%Q /\ (entry P j (ncols P - 1) == 0)%Q) /\
      ((nth j x 0 == -1)%Q ->
       (entry P j (ncols P - 2) == 0)%Q /\ (entry P j (ncols P - 1) == 1)%Q).
Proof.
  intros np_sqrt self x j HN Hj.
  exact (shen_dirichlet_rows_at_end_points np_sqrt self x j HN Hj).
Qed.

Lemma shen_dirichlet_basis_at_end_points_witness :
  2 <= ShenDirichlet.N (shen_dirichlet 4) /\
  (0 < length [1%Q; 0%Q; (-1)%Q])%nat /\
  exists V P,
    legendre_vandermonde 4 [1%Q; 0%Q; (-1)%Q] = Ok V /\
    ShenDirichlet.get_vandermonde_basis (fun q => q) (shen_dirichlet 4) V
    = Ok P /\
    (entry P 0 2 == 1)%Q /\ (entry P 0 3 == 0)%Q.
Proof.
  split; [simpl; lia |]. split; [simpl; lia |].
  destruct (shen_dirichlet_basis_at_end_points (fun q => q) (shen_dirichlet 4)
              [1%Q; 0%Q; (-1)%Q] 0%nat ltac:(simpl; lia) ltac:(simpl; lia))
    as (V & P & HV & HP & _ & Hc & _ & H1 & _).
  exists V, P. split; [exact HV |]. split; [exact HP |].
  rewrite Hc in H1. apply H1. reflexivity.
Defined.

(** X9. The biharmonic basis functions of the Legendre family vanish at
    both end points: for a basis with [N >= 1] points, every entry of
    [get_vandermonde_basis] of the Vandermonde matrix is zero in a row whose
    point is [1] or [-1]. *)
Theorem shen_biharmonic_basis_vanishes_at_end_points :
  forall (N : Z) (x : list Q) (j : nat),
    1 <= N ->
    (j < length x)%nat ->
    (nth j x 0 == 1 \/ nth j x 0 == -1)%Q ->
    exists V,
      legendre_vandermonde N x = Ok V /\
      ncols (ShenBiharmonic.get_vandermonde_basis V) = Z.to_nat N /\
      forall k, (entry (ShenBiharmonic.get_vandermonde_basis V) j k == 0)%Q.
Proof.
  intros N x j HN Hj Hx.
  unfold legendre_vandermonde, leg.legvander.
  destruct (N - 1 <? 0) eqn:E; [apply Z.ltb_lt in E; lia |].
  eexists. split; [reflexivity |].
  unfold ShenBiharmonic.get_vandermonde_basis. cbn [ncols nrows entry].
  split; [f_equal; lia |].
  intros k. destruct (k <? Z.to_nat (N - 1 + 1) - 4)%nat; [| reflexivity].
  assert (Hk : ~ (2 * inject_Z (Z.of_nat k) + 7 == 0)%Q).
  { unfold Qeq. cbn -[Z.mul Z.add Z.of_nat]. lia. }
  replace (k + 2)%nat with (S (S k)) by lia.
  replace (k + 4)%nat with (S (S (S (S k)))) by lia.
  destruct Hx as [Hx | Hx].
  - rewrite !(legendre_at_one _ _ Hx). field. exact Hk.
  - rewrite !(legendre_at_minus_one _ _ Hx), !alternating_SS. field. exact Hk.
Qed.

Lemma shen_biharmonic_basis_vanishes_at_end_points_witness :
  1 <= 6 /\
  (2 < length [1%Q; 0%Q; (-1)%Q])%nat /\
  (nth 2 [1%Q; 0%Q; (-1)%Q] 0 == 1 \/ nth 2 [1%Q; 0%Q; (-1)%Q] 0 == -1)%Q /\
  exists V,
    legendre_vandermonde 6 [1%Q; 0%Q; (-1)%Q] = Ok V /\
    (entry (ShenBiharmonic.get_vandermonde_basis V) 2 1 == 0)%Q.
Proof.
  split; [lia |]. split; [simpl; lia |].
  split; [right; reflexivity |].
  destruct (shen_biharmonic_basis_vanishes_at_end_points 6 [1%Q; 0%Q; (-1)%Q]
              2%nat ltac:(lia) ltac:(simpl; lia) ltac:(right; reflexivity))
    as (V & HV & _ & Hz).
  exists V. split; [exact HV | apply Hz].
Defined.

Lemma series_shift2 (X : Q) :
  (forall k, leg.legendre (S (S k)) X == leg.legendre k X)%Q ->
  forall c k, (leg.series X (S (S k)) c == leg.series X k c)%Q.
Proof.
  intros Hp. induction c as [| a t IH]; intros k; simpl; [reflexivity |].
  rewrite (Hp k), (IH (S k)). reflexivity.
Qed.

Lemma length_firstn_but2 {A : Type} (l : list A) :
  length (firstn (length l - 2) l) = (length l - 2)%nat.
Proof. rewrite length_firstn. lia. Qed.

Lemma nth_error_nth_default {A : Type} (l : list A) (k : nat) (d : A) :
  (k < length l)%nat -> nth_error l k = Some (nth k l d).
Proof. intros H. now apply nth_error_nth'. Qed.

Lemma py_nth_from_end {A : Type} (l : list A) (k : Z) (d : A) :
  0 < k <= Z.of_nat (length l) ->
  py_nth l (- k) = Ok (nth (length l - Z.to_nat k) l d).
Proof.
  intros Hk. unfold py_nth.
  destruct (- k <? 0) eqn:E; [| apply Z.ltb_ge in E; lia].
  destruct (- k + Z.of_nat (length l) <? 0) eqn:E1; [apply Z.ltb_lt in E1; lia |].
  replace (Z.to_nat (- k + Z.of_nat (length l)))
    with (length l - Z.to_nat k)%nat by lia.
  rewrite (nth_error_nth_default l _ d) by lia. reflexivity.
Qed.

(** X10. [ShenDirichletBasis.eval] of the Legendre family at the end
    points. For the unscaled basis, a coefficient array [fk] of at least
    three entries and a work array of the same length: the call succeeds and
    leaves the basis as it is; at a point that maps to [1] it returns the
    last coefficient, [fk[-1]], minus the sum of the first two entries of
    the work array, and at a point that maps to [-1] it returns [fk[-2]]
    minus their difference. With a zero-filled work array the value at [1]
    is [fk[-1]] and the value at [-1] is [fk[-2]] (the basis functions of
    [get_vandermonde_basis] give [fk[-2]] at [1], see X8). *)
Theorem shen_dirichlet_eval_at_end_points :
  forall (scaled_factor : nat -> result (list Q))
         (map_reference_domain : Q -> Q) (n : Z) (x : Q) (fk w_hat : list Q),
    length w_hat = length fk ->
    (3 <= length fk)%nat ->
    exists v,
      ShenDirichlet.eval scaled_factor map_reference_domain (shen_dirichlet n)
        x fk w_hat = Ok (shen_dirichlet n, v) /\
      ((map_reference_domain x == 1)%Q ->
       (v == nth (length fk - 1) fk 0 - (nth 0 w_hat 0 + nth 1 w_hat 0))%Q) /\
      ((map_reference_domain x == -1)%Q ->
       (v == nth (length fk - 2) fk 0 - (nth 0 w_hat 0 - nth 1 w_hat 0))%Q).
Proof.
  intros scaled_factor mrd n x fk w_hat Hlen H3.
  unfold ShenDirichlet.eval, ShenDirichlet.set_factor_array, shen_dirichlet.
  cbn [ShenDirichlet.is_scaled ShenDirichlet._scaled ShenDirichlet._factor].
  cbv beta iota delta [bind].
  unfold bmul.
  cbn [ShenDirichlet.is_scaled ShenDirichlet._scaled ShenDirichlet._factor
       length Nat.eqb nth].
  set (c := map (fun v => (v * 1)%Q) (firstn (length fk - 2) fk)).
  assert (Hc : length c = (length fk - 2)%nat)
    by (unfold c; rewrite length_map; apply length_firstn_but2).
  clearbody c.
  assert (Hval : forall l, l <> [] -> leg.legval (mrd x) l = Ok (leg.series (mrd x) 0 l))
    by (intros [| a t] Hl; [contradiction | reflexivity]).
  rewrite (Hval c) by (intros Hnil; rewrite Hnil in Hc; simpl in Hc; lia).
  unfold assign_from. rewrite Hc, Hlen, Nat.eqb_refl.
  rewrite Hval by (destruct w_hat as [| w0 [| w1 wt]]; simpl in *; try lia; discriminate).
  assert (P1 : py_nth fk (-1) = Ok (nth (length fk - 1) fk 0%Q))
    by (apply (py_nth_from_end fk 1 0%Q); lia).
  assert (P2 : py_nth fk (-2) = Ok (nth (length fk - 2) fk 0%Q))
    by (apply (py_nth_from_end fk 2 0%Q); lia).
  rewrite P1, P2.
  eexists. split; [reflexivity |].
  destruct w_hat as [| w0 [| w1 wt]]; try (simpl in Hlen; lia).
  cbn [firstn app leg.series nth].
  change (leg.legendre 0 (mrd x)) with 1%Q.
  change (leg.legendre 1 (mrd x)) with (mrd x).
  split; intros Hx.
  - rewrite (series_shift2 (mrd x)
               ltac:(intros k; rewrite !(legendre_at_one _ _ Hx); reflexivity) c 0%nat).
    generalize (leg.series (mrd x) 0 c). intros s.
    rewrite Hx. ring.
  - rewrite (series_shift2 (mrd x)
               ltac:(intros k; rewrite !(legendre_at_minus_one _ _ Hx);
                     apply alternating_SS) c 0%nat).
    generalize (leg.series (mrd x) 0 c). intros s.
    rewrite Hx. ring.
Qed.

Lemma shen_dirichlet_eval_at_end_points_witness :
  length [0%Q; 0%Q; 0%Q; 0%Q] = length [5%Q; 7%Q; 2%Q; 3%Q] /\
  (3 <= length [5%Q; 7%Q; 2%Q; 3%Q])%nat /\
  exists v,
    ShenDirichlet.eval (fun _ => Ok []) (fun q => q) (shen_dirichlet 4) 1
      [5%Q; 7%Q; 2%Q; 3%Q] [0%Q; 0%Q; 0%Q; 0%Q] = Ok (shen_dirichlet 4, v) /\
    (v == 3 - (0 + 0))%Q.
Proof.
  split; [reflexivity |]. split; [simpl; lia |].
  destruct (shen_dirichlet_eval_at_end_points (fun _ => Ok []) (fun q => q) 4 1
              [5%Q; 7%Q; 2%Q; 3%Q] [0%Q; 0%Q; 0%Q; 0%Q] eq_refl
              ltac:(simpl; lia)) as (v & Hv & H1 & _).
  exists v. split; [exact Hv |]. apply H1. reflexivity.
Defined.

(** ** Wiring boundary values keeps the layout of the space *)

Section LayoutFacts.

Variable run_xfftn : basis -> ndarray -> ndarray.
Variable run_transfer : transfer_op -> ndarray -> ndarray.
Variable lambdify_bc :
  bcval -> bcval -> TensorProductSpace.t -> result (bcval * bcval).

Import TensorProductSpace.

Lemma same_layout_refl (T : t) : same_layout T T.
Proof. repeat split. Qed.

Lemma same_layout_trans (T1 T2 T3 : t) :
  same_layout T1 T2 -> same_layout T2 T3 -> same_layout T1 T3.
Proof.
  unfold same_layout.
  intros (A1 & A2 & A3 & A4 & A5 & A6 & A7 & A8 & A9)
         (B1 & B2 & B3 & B4 & B5 & B6 & B7 & B8 & B9).
  repeat split; congruence.
Qed.

Lemma py_nth_index {A : Type} (l : list A) (i : Z) (x : A) :
  py_nth l i = Ok x -> nth_error l (py_index l i) = Some x.
Proof.
  unfold py_nth, py_index.
  destruct ((if i <? 0 then i + Z.of_nat (length l) else i) <? 0);
    [discriminate |].
  destruct (nth_error l _) as [y |]; [| discriminate].
  intros H. injection H as ->. reflexivity.
Qed.

Lemma put_stage_same_layout (T : t) (i : Z) (s s' : stage) :
  py_nth (xfftn T) i = Ok s ->
  stage_frame s' = stage_frame s ->
  same_layout T (put_stage T i s').
Proof.
  intros Hs Hf. apply py_nth_index in Hs.
  unfold stage_frame in Hf. injection Hf as H1 H2 H3.
  unfold same_layout, put_stage, set_xfftn. simpl.
  rewrite !map_replace_at.
  - repeat split.
  - rewrite nth_error_map, Hs. simpl. now rewrite H3.
  - rewrite nth_error_map, Hs. simpl. now rewrite H2.
  - rewrite nth_error_map, Hs. simpl. now rewrite H1.
Qed.

Lemma add_call_same_layout (e : event) (T : t) : same_layout T (add_call e T).
Proof. repeat split. Qed.

Lemma assign_all_shape (dst src r : ndarray) :
  assign_all dst src = Ok r -> shape r = shape dst.
Proof.
  unfold assign_all. intros H.
  apply bind_ok_inv in H as (rhs & _ & H). injection H as <-. reflexivity.
Qed.

Lemma set_input_same_layout (T T' : t) (i : Z) (a : ndarray) :
  set_input T i a = Ok T' -> same_layout T T'.
Proof.
  unfold set_input. intros H.
  apply bind_ok_inv in H as (s & Hs & H).
  apply bind_ok_inv in H as (a' & Ha & H).
  injection H as <-. apply (put_stage_same_layout T i s _ Hs).
  unfold stage_frame. simpl. now rewrite (assign_all_shape _ _ _ Ha).
Qed.

Lemma call_xfftn_same_layout (T T' : t) (i : Z) :
  call_xfftn run_xfftn T i = Ok T' -> same_layout T T'.
Proof.
  unfold call_xfftn. intros H.
  apply bind_ok_inv in H as (s & Hs & H).
  apply bind_ok_inv in H as (b & _ & H).
  injection H as <-.
  eapply same_layout_trans; [| apply add_call_same_layout].
  apply (put_stage_same_layout T i s _ Hs). reflexivity.
Qed.

Lemma copy_through_same_layout (T T' : t) (i : Z) :
  copy_through T i = Ok T' -> same_layout T T'.
Proof.
  unfold copy_through. intros H.
  apply bind_ok_inv in H as (s & Hs & H).
  apply bind_ok_inv in H as (o & Ho & H).
  injection H as <-. apply (put_stage_same_layout T i s _ Hs).
  unfold stage_frame. simpl. now rewrite (assign_all_shape _ _ _ Ho).
Qed.

Lemma call_transfer_same_layout (T T' : t) (i : Z) :
  call_transfer run_transfer T i = Ok T' -> same_layout T T'.
Proof.
  unfold call_transfer. intros H.
  apply bind_ok_inv in H as (sa & _ & H).
  apply bind_ok_inv in H as (sb & Hsb & H).
  apply bind_ok_inv in H as (tr & _ & H).
  injection H as <-.
  eapply same_layout_trans; [| apply add_call_same_layout].
  apply (put_stage_same_layout T (i + 1) sb _ Hsb). reflexivity.
Qed.

Lemma push_before_same_layout (T T' : t) (b b' : ndarray) (k : Z) :
  push_before run_xfftn run_transfer T b k = Ok (T', b') -> same_layout T T'.
Proof.
  unfold push_before. intros H.
  destruct (k =? 0).
  { injection H as <- _. apply same_layout_refl. }
  destruct (k =? 1).
  { apply bind_ok_inv in H as (T1 & H1 & H).
    apply bind_ok_inv in H as (T2 & H2 & H).
    apply bind_ok_inv in H as (T3 & H3 & H).
    apply bind_ok_inv in H as (s & _ & H). injection H as <- _.
    apply set_input_same_layout in H1. apply call_xfftn_same_layout in H2.
    apply call_transfer_same_layout in H3.
    eauto using same_layout_trans. }
  destruct (k =? 2); [| discriminate].
  apply bind_ok_inv in H as (T1 & H1 & H).
  apply bind_ok_inv in H as (T2 & H2 & H).
  apply bind_ok_inv in H as (T3 & H3 & H).
  apply bind_ok_inv in H as (T4 & H4 & H).
  apply bind_ok_inv in H as (T5 & H5 & H).
  apply bind_ok_inv in H as (s & _ & H). injection H as <- _.
  apply set_input_same_layout in H1. apply call_xfftn_same_layout in H2.
  apply call_transfer_same_layout in H3. apply call_xfftn_same_layout in H4.
  apply call_transfer_same_layout in H5.
  eauto 6 using same_layout_trans.
Qed.

Lemma stage_call_same_layout (T T' : t) (tag : bool) (i : Z) :
  (if tag then copy_through T i else call_xfftn run_xfftn T i) = Ok T' ->
  same_layout T T'.
Proof.
  destruct tag; [apply copy_through_same_layout | apply call_xfftn_same_layout].
Qed.

Lemma final_loop_same_layout (fuel : nat) (T T' : t) (tags : list bool) (i : Z) :
  final_loop run_xfftn run_transfer T tags i fuel = Ok T' -> same_layout T T'.
Proof.
  revert T i. induction fuel as [| fuel IH]; intros T i H; simpl in H.
  - injection H as <-. apply same_layout_refl.
  - apply bind_ok_inv in H as (tag & _ & H).
    apply bind_ok_inv in H as (T1 & H1 & H).
    apply bind_ok_inv in H as (T2 & H2 & H).
    apply stage_call_same_layout in H1. apply call_transfer_same_layout in H2.
    apply IH in H. eauto using same_layout_trans.
Qed.

Lemma final_pass_same_layout (T T' : t) (b b' : ndarray) (tags : list bool) :
  final_pass run_xfftn run_transfer T b tags = Ok (T', b') -> same_layout T T'.
Proof.
  unfold final_pass. intros H.
  apply bind_ok_inv in H as (T1 & H1 & H).
  apply bind_ok_inv in H as (T2 & H2 & H).
  apply bind_ok_inv in H as (tag & _ & H).
  apply bind_ok_inv in H as (T3 & H3 & H).
  apply bind_ok_inv in H as (s & _ & H). injection H as <- _.
  apply set_input_same_layout in H1. apply final_loop_same_layout in H2.
  apply stage_call_same_layout in H3. eauto using same_layout_trans.
Qed.

Lemma set_tensor_bcs_space_same_layout (self self' : BoundaryValues.t) (T T' : t) :
  set_tensor_bcs_space run_xfftn run_transfer lambdify_bc self T = Ok (self', T') ->
  same_layout T T'.
Proof.
  unfold set_tensor_bcs_space. intros H.
  destruct (existsb _ _); [| injection H as _ <-; apply same_layout_refl].
  apply bind_ok_inv in H as (sc & _ & H).
  apply bind_ok_inv in H as (dbase & _ & H).
  apply bind_ok_inv in H as (ax & _ & H).
  apply bind_ok_inv in H as (nh & _ & H).
  destruct (negb nh); [injection H as _ <-; apply same_layout_refl |].
  apply bind_ok_inv in H as (b & _ & H).
  apply bind_ok_inv in H as ([T1 b_hat] & H1 & H).
  apply bind_ok_inv in H as (c0 & _ & H).
  apply bind_ok_inv in H as (c1 & _ & H).
  apply bind_ok_inv in H as ([T2 b_fin] & H2 & H).
  apply bind_ok_inv in H as (f0 & _ & H).
  apply bind_ok_inv in H as (f1 & _ & H). injection H as _ <-.
  apply push_before_same_layout in H1. apply final_pass_same_layout in H2.
  eauto using same_layout_trans.
Qed.

Lemma wire_bcs_same_layout (idxs : list nat) (T T' : t) :
  wire_bcs run_xfftn run_transfer lambdify_bc T idxs = Ok T' -> same_layout T T'.
Proof.
  revert T. induction idxs as [| i rest IH]; intros T H; simpl in H.
  - injection H as <-. apply same_layout_refl.
  - destruct (nth_error (bases T) i) as [base |] eqn:Hb; [| now apply IH].
    destruct (is_dirichlet (kind base)); [| now apply IH].
    apply bind_ok_inv in H as (bc & _ & H).
    apply bind_ok_inv in H as ([bc' T1] & H1 & H).
    apply set_tensor_bcs_space_same_layout in H1.
    apply IH in H.
    eapply same_layout_trans; [exact H1 |].
    eapply same_layout_trans; [| exact H].
    destruct H1 as (_ & _ & _ & _ & _ & _ & _ & HN & Hp).
    unfold same_layout, set_bases. simpl.
    rewrite !map_replace_at; [repeat split | |].
    + rewrite <- Hp. now rewrite nth_error_map, Hb.
    + rewrite <- HN. now rewrite nth_error_map, Hb.
Qed.

End LayoutFacts.

(** ** What construction leaves behind *)

Section ConstructionFrame.

Variable Subcomm_new : Z -> list Z -> list Z.
Variable decompose : list Z -> list Z -> Z -> list Z * list Z.
Variable plan_output : basis -> list Z -> Z -> dtype -> list Z * dtype.
Variable run_xfftn : basis -> ndarray -> ndarray.
Variable run_transfer : transfer_op -> ndarray -> ndarray.
Variable lambdify_bc :
  bcval -> bcval -> TensorProductSpace.t -> result (bcval * bcval).

Import TensorProductSpace.

Lemma with_axis_idem (ax : nat) (b : basis) :
  with_axis ax (with_axis ax b) = with_axis ax b.
Proof. reflexivity. Qed.

Lemma planned_from_nil (bs : list basis) : planned_from [] bs bs.
Proof. split; [reflexivity |]. intros i b0 H. exact H. Qed.

Lemma planned_from_step (done : list Z) (bs0 bs : list basis) (ax : Z)
    (b : basis) :
  planned_from done bs0 bs ->
  0 <= ax ->
  py_nth bs ax = Ok b ->
  planned_from (ax :: done) bs0
    (replace_at (py_index bs ax) (with_axis (Z.to_nat ax) b) bs).
Proof.
  intros [Hlen Hnth] Hax Hb.
  apply (py_nth_nonneg_inv bs ax b Hax) in Hb.
  assert (Hidx : py_index bs ax = Z.to_nat ax).
  { unfold py_index.
    destruct (ax <? 0) eqn:E; [apply Z.ltb_lt in E; lia | reflexivity]. }
  rewrite Hidx. split; [rewrite length_replace_at; exact Hlen |].
  intros i b0 Hb0. specialize (Hnth i b0 Hb0). simpl zmem.
  destruct (Nat.eq_dec i (Z.to_nat ax)) as [-> | Hne].
  - rewrite (nth_error_replace_at _ _ _ _ Hb).
    rewrite Hnth in Hb. injection Hb as <-.
    rewrite Z2Nat.id by exact Hax. rewrite Z.eqb_refl. simpl orb.
    destruct (zmem ax done); reflexivity.
  - rewrite nth_error_replace_at_other by (intros E; apply Hne; now rewrite E).
    rewrite Hnth.
    destruct (Z.of_nat i =? ax) eqn:E; [apply Z.eqb_eq in E; lia |].
    reflexivity.
Qed.

Lemma plan_stage_inv (bs bs' : list basis) (ax : Z) (sub : list Z)
    (dt odt : dtype) (s : stage) :
  plan_stage plan_output bs ax sub dt = Ok (bs', s, odt) ->
  st_basis s = ax /\
  exists b, py_nth bs ax = Ok b /\
            bs' = replace_at (py_index bs ax) (with_axis (Z.to_nat ax) b) bs.
Proof.
  unfold plan_stage. intros H.
  apply bind_ok_inv in H as (b & Hb & H).
  injection H as <- <- _. split; [reflexivity |].
  exists b. split; [exact Hb | reflexivity].
Qed.

Lemma plan_step_inv (acc acc' : planning) (ax : Z) (done : list Z)
    (bs0 : list basis) :
  plan_step decompose plan_output acc ax = Ok acc' ->
  0 <= ax ->
  planned_from done bs0 (pl_bases acc) ->
  map st_basis (pl_xfftn acc') = map st_basis (pl_xfftn acc) ++ [ax] /\
  map (fun tr => p_axis (tr_to tr)) (pl_transfer acc')
  = map (fun tr => p_axis (tr_to tr)) (pl_transfer acc) ++ [ax] /\
  planned_from (ax :: done) bs0 (pl_bases acc').
Proof.
  unfold plan_step. intros H Hax Hfrom.
  apply bind_ok_inv in H as ([[bs s] odt] & Hs & H).
  apply bind_ok_inv in H as ([[p dt] sh] & _ & H).
  injection H as <-. cbn [pl_xfftn pl_transfer pl_bases].
  apply plan_stage_inv in Hs as (Hst & b & Hb & ->).
  rewrite !map_app. cbn [map tr_to]. unfold new_pencil. cbn [p_axis].
  rewrite Hst.
  split; [reflexivity |]. split; [reflexivity |].
  exact (planned_from_step done bs0 _ ax b Hfrom Hax Hb).
Qed.

Lemma plan_loop_inv (l : list Z) :
  forall (acc acc' : planning) (done : list Z) (bs0 : list basis),
    plan_loop decompose plan_output acc l = Ok acc' ->
    Forall (fun ax => 0 <= ax) l ->
    planned_from done bs0 (pl_bases acc) ->
    map st_basis (pl_xfftn acc') = map st_basis (pl_xfftn acc) ++ l /\
    map (fun tr => p_axis (tr_to tr)) (pl_transfer acc')
    = map (fun tr => p_axis (tr_to tr)) (pl_transfer acc) ++ l /\
    planned_from (rev l ++ done) bs0 (pl_bases acc').
Proof.
  induction l as [| ax rest IH]; intros acc acc' done bs0 H Hl Hfrom;
    simpl in H.
  - injection H as <-. rewrite !app_nil_r. auto.
  - apply bind_ok_inv in H as (acc1 & H1 & H).
    inversion Hl as [| ? ? Hax Hrest]; subst.
    destruct (plan_step_inv acc acc1 ax done bs0 H1 Hax Hfrom)
      as (Hx1 & Ht1 & Hf1).
    destruct (IH acc1 acc' (ax :: done) bs0 H Hrest Hf1) as (Hx & Ht & Hf).
    rewrite Hx, Ht, Hx1, Ht1, <- !app_assoc. simpl.
    split; [reflexivity |]. split; [reflexivity |].
    rewrite <- app_assoc. exact Hf.
Qed.

Lemma rev_as_last (l : list Z) :
  l <> [] -> rev l = last l 0 :: rev (removelast l).
Proof.
  intros Hne. rewrite (app_removelast_last 0 Hne) at 1.
  rewrite rev_app_distr. reflexivity.
Qed.

(** What a successful construction leaves in the space. *)
Lemma init_inv_layout (c : comm_arg) (bs : list basis) (a : axes_arg)
    (dt : option dtype) (slab : bool) (T : t) :
  init Subcomm_new decompose plan_output run_xfftn run_transfer lambdify_bc
       c bs a dt slab = Ok T ->
  exists axes0 bs',
    resolve_axes a (Z.of_nat (length bs)) = Ok axes0 /\
    map st_basis (xfftn T) = rev axes0 /\
    map (fun tr => p_axis (tr_to tr)) (transfer T) = tl (rev axes0) /\
    p_axis (fst (pencil T)) = last axes0 0 /\
    p_shape (fst (pencil T)) = shape_of bs /\
    planned_from (removelast axes0 ++ [last axes0 0]) bs bs' /\
    map kind (bases T) = map kind bs' /\
    map b_axis (bases T) = map b_axis bs' /\
    map N (bases T) = map N bs' /\
    map padding_factor (bases T) = map padding_factor bs'.
Proof.
  unfold init. intros H.
  apply bind_ok_inv in H as (u1 & _ & H).
  apply bind_ok_inv in H as (lo & _ & H).
  apply bind_ok_inv in H as (u2 & _ & H).
  unfold shape_of in H at 1. rewrite length_map in H.
  apply bind_ok_inv in H as (axes0 & Hax & H).
  apply bind_ok_inv in H as (last0 & Hlast & H).
  apply bind_ok_inv in H as (lastb & Hlastb & H).
  apply bind_ok_inv in H as (dt0 & Hdt & H).
  apply bind_ok_inv in H as (sc & _ & H).
  apply bind_ok_inv in H as ([[bs1 s0] odt] & Hs0 & H).
  apply bind_ok_inv in H as ([[pA dt1] sh1] & _ & H).
  apply bind_ok_inv in H as (acc & Hloop & H).
  pose proof (wire_bcs_same_plan _ _ _ _ _ _ H) as (_ & _ & _ & _ & Hk & Hb).
  pose proof (wire_bcs_same_layout _ _ _ _ _ _ H)
    as (Hst & _ & _ & Htr & Hpen & _ & _ & HN & Hpf).
  clear H. cbn [xfftn transfer pencil bases] in Hk, Hb, Hst, Htr, Hpen, HN, Hpf.
  pose proof Hax as Hacc. apply resolve_axes_spec in Hacc.
  destruct Hacc as (_ & Hne & Hrange & _).
  rewrite (py_nth_last axes0 0 Hne) in Hlast. injection Hlast as <-.
  assert (Hlast0 : 0 <= last axes0 0).
  { rewrite Forall_forall in Hrange. apply (Hrange _ (last_In axes0 0 Hne)). }
  apply plan_stage_inv in Hs0 as (Hst0 & b & Hb0 & Hbs1).
  assert (Hfrom1 : planned_from [last axes0 0] bs bs1).
  { rewrite Hbs1.
    exact (planned_from_step [] bs bs (last axes0 0) b (planned_from_nil bs)
             Hlast0 Hb0). }
  assert (Hrest : Forall (fun ax => 0 <= ax) (rev (removelast axes0))).
  { apply Forall_rev. apply Forall_removelast.
    eapply Forall_impl; [| exact Hrange]. simpl. intros x Hx. lia. }
  destruct (plan_loop_inv (rev (removelast axes0)) _ acc [last axes0 0] bs
              Hloop Hrest Hfrom1) as (Hx & Ht & Hf).
  cbn [pl_xfftn pl_transfer map] in Hx, Ht.
  rewrite rev_involutive in Hf.
  exists axes0, (pl_bases acc).
  split; [exact Hax |].
  split; [rewrite <- Hst, Hx, Hst0, (rev_as_last axes0 Hne); reflexivity |].
  split; [rewrite <- Htr, Ht, (rev_as_last axes0 Hne); reflexivity |].
  split; [rewrite <- Hpen; reflexivity |].
  split; [rewrite <- Hpen; reflexivity |].
  split; [exact Hf |].
  split; [symmetry; exact Hk |]. split; [symmetry; exact Hb |].
  split; [symmetry; exact HN | symmetry; exact Hpf].
Qed.

End ConstructionFrame.

(** X11. The forward pipeline of a constructed space runs the axes in
    reverse pipeline order. Whenever [TensorProductSpace.__init__] succeeds:
    the local transforms, in the order they are applied, belong to the bases
    [axes[-1], axes[-2], ..., axes[0]] (negative indices resolved); the k-th
    redistribution delivers a pencil aligned with the axis of transform
    [k+1]; and the input pencil of the first transform has the physical shape
    of the space and is aligned with [axes[-1]]. *)
Theorem forward_pipeline_runs_axes_in_reverse :
  forall (Subcomm_new : Z -> list Z -> list Z)
         (decompose : list Z -> list Z -> Z -> list Z * list Z)
         (plan_output : basis -> list Z -> Z -> dtype -> list Z * dtype)
         (run_xfftn : basis -> ndarray -> ndarray)
         (run_transfer : transfer_op -> ndarray -> ndarray)
         (lambdify_bc : bcval -> bcval -> TensorProductSpace.t
                        -> result (bcval * bcval))
         (c : comm_arg) (bs : list basis) (a : axes_arg) (dt : option dtype)
         (slab : bool) (T : TensorProductSpace.t),
    TensorProductSpace_init Subcomm_new decompose plan_output run_xfftn
      run_transfer lambdify_bc c bs a dt slab = Ok T ->
    map st_basis (TensorProductSpace.xfftn T)
    = rev (resolved_axes a (Z.of_nat (length bs))) /\
    map (fun tr => p_axis (tr_to tr)) (TensorProductSpace.transfer T)
    = tl (rev (resolved_axes a (Z.of_nat (length bs)))) /\
    p_axis (fst (TensorProductSpace.pencil T))
    = last (resolved_axes a (Z.of_nat (length bs))) 0 /\
    p_shape (fst (TensorProductSpace.pencil T))
    = TensorProductSpace.shape_of bs.
Proof.
  intros Subcomm_new decompose plan_output run_xfftn run_transfer lambdify_bc
         c bs a dt slab T H.
  unfold TensorProductSpace_init in H.
  apply init_inv_layout in H
    as (axes0 & bs' & Hax & Hst & Htr & Hp & Hsh & _).
  apply resolve_axes_spec in Hax as [-> _].
  split; [exact Hst |]. split; [exact Htr |]. split; [exact Hp | exact Hsh].
Qed.

Lemma forward_pipeline_runs_axes_in_reverse_witness :
  serial_init (Comm 1) [fourier_basis R2CBasis 8; fourier_basis C2CBasis 8]
    (AxesSeq [-1; 0]) None false = Ok swapped_space /\
  map st_basis (TensorProductSpace.xfftn swapped_space) = [0; 1] /\
  map (fun tr => p_axis (tr_to tr)) (TensorProductSpace.transfer swapped_space)
  = [1].
Proof.
  assert (H : serial_init (Comm 1)
                [fourier_basis R2CBasis 8; fourier_basis C2CBasis 8]
                (AxesSeq [-1; 0]) None false = Ok swapped_space)
    by (vm_compute; reflexivity).
  split; [exact H |].
  destruct (forward_pipeline_runs_axes_in_reverse serial_Subcomm
              serial_decompose serial_plan_output serial_xfftn serial_transfer
              serial_lambdify (Comm 1)
              [fourier_basis R2CBasis 8; fourier_basis C2CBasis 8]
              (AxesSeq [-1; 0]) None false swapped_space H)
    as (Hst & Htr & _).
  split; [exact Hst | exact Htr].
Defined.

(** X12. Construction plans exactly the bases of the pipeline and changes
    nothing else about the bases. Whenever [TensorProductSpace.__init__]
    succeeds the space holds as many bases as were given; each keeps its
    class, its size [N] and its padding factor; a basis whose position is in
    the pipeline order has its [axis] set to that position, and a basis
    whose position is not in the pipeline order keeps the [axis] it had
    (none, if it was never planned). *)
Theorem construction_plans_exactly_the_pipeline_bases :
  forall (Subcomm_new : Z -> list Z -> list Z)
         (decompose : list Z -> list Z -> Z -> list Z * list Z)
         (plan_output : basis -> list Z -> Z -> dtype -> list Z * dtype)
         (run_xfftn : basis -> ndarray -> ndarray)
         (run_transfer : transfer_op -> ndarray -> ndarray)
         (lambdify_bc : bcval -> bcval -> TensorProductSpace.t
                        -> result (bcval * bcval))
         (c : comm_arg) (bs : list basis) (a : axes_arg) (dt : option dtype)
         (slab : bool) (T : TensorProductSpace.t),
    TensorProductSpace_init Subcomm_new decompose plan_output run_xfftn
      run_transfer lambdify_bc c bs a dt slab = Ok T ->
    length (TensorProductSpace.bases T) = length bs /\
    forall (i : nat) (b0 b : basis),
      nth_error bs i = Some b0 ->
      nth_error (TensorProductSpace.bases T) i = Some b ->
      kind b = kind b0 /\ N b = N b0 /\
      padding_factor b = padding_factor b0 /\
      (In (Z.of_nat i) (resolved_axes a (Z.of_nat (length bs))) ->
       b_axis b = Some i) /\
      (~ In (Z.of_nat i) (resolved_axes a (Z.of_nat (length bs))) ->
       b_axis b = b_axis b0).
Proof.
  intros Subcomm_new decompose plan_output run_xfftn run_transfer lambdify_bc
         c bs a dt slab T H.
  unfold TensorProductSpace_init in H.
  apply init_inv_layout in H
    as (axes0 & bs' & Hax & _ & _ & _ & _ & Hfrom & Hk & Hb & HN & Hpf).
  apply resolve_axes_spec in Hax as [<- (Hne & _)].
  rewrite <- (app_removelast_last 0 Hne) in Hfrom.
  destruct Hfrom as [Hlen Hnth].
  split.
  - rewrite <- Hlen, <- (length_map kind (TensorProductSpace.bases T)), Hk.
    apply length_map.
  - intros i b0 b Hb0 Hbi. specialize (Hnth i b0 Hb0).
    assert (Hmap : forall {B : Type} (f : basis -> B),
              map f (TensorProductSpace.bases T) = map f bs' ->
              f b = f (if zmem (Z.of_nat i) axes0 then with_axis i b0 else b0)).
    { intros B f Hf.
      assert (E : nth_error (map f (TensorProductSpace.bases T)) i
                  = nth_error (map f bs') i) by (rewrite Hf; reflexivity).
      rewrite !nth_error_map, Hbi, Hnth in E. simpl in E.
      injection E as E. exact E. }
    pose proof (Hmap _ kind Hk) as Ek. pose proof (Hmap _ b_axis Hb) as Ea.
    pose proof (Hmap _ N HN) as En. pose proof (Hmap _ padding_factor Hpf) as Ep.
    destruct (zmem (Z.of_nat i) axes0) eqn:E.
    + apply zmem_In in E.
      split; [exact Ek |]. split; [exact En |]. split; [exact Ep |].
      split; [intros _; exact Ea | intros Hn; contradiction].
    + split; [exact Ek |]. split; [exact En |]. split; [exact Ep |].
      split; [| intros _; exact Ea].
      intros Hin. apply zmem_In in Hin. rewrite Hin in E. discriminate E.
Qed.

Lemma construction_plans_exactly_the_pipeline_bases_witness :
  serial_init (Comm 1) [fourier_basis C2CBasis 8; fourier_basis R2CBasis 8]
    (AxesSeq [0]) None false = Ok partial_space /\
  length (TensorProductSpace.bases partial_space) = 2%nat /\
  forall b, nth_error (TensorProductSpace.bases partial_space) 1 = Some b ->
            b_axis b = None.
Proof.
  assert (H : serial_init (Comm 1)
                [fourier_basis C2CBasis 8; fourier_basis R2CBasis 8]
                (AxesSeq [0]) None false = Ok partial_space)
    by (vm_compute; reflexivity).
  split; [exact H |].
  destruct (construction_plans_exactly_the_pipeline_bases serial_Subcomm
              serial_decompose serial_plan_output serial_xfftn serial_transfer
              serial_lambdify (Comm 1)
              [fourier_basis C2CBasis 8; fourier_basis R2CBasis 8]
              (AxesSeq [0]) None false partial_space H) as (Hlen & Hb).
  split; [exact Hlen |].
  intros b Hbi.
  destruct (Hb 1%nat (fourier_basis R2CBasis 8) b eq_refl Hbi)
    as (_ & _ & _ & _ & Hout).
  apply Hout. simpl. intros [E | []]. discriminate E.
Defined.

Lemma fold_left_min_le (l : list Z) (x : Z) :
  fold_left Z.min l x <= x /\ Forall (fun y => fold_left Z.min l x <= y) l.
Proof.
  pose proof (proj1 (fold_left_min_spec l x (fold_left Z.min l x))
                (Z.le_refl _)) as [H1 H2].
  split; assumption.
Qed.

(** X13. Construction refuses an empty list of bases and any basis of
    non-positive physical size: if no basis is given, or some basis has
    [int(np.round(N*padding_factor)) <= 0], [TensorProductSpace.__init__]
    raises [AssertionError], whatever the other arguments are. *)
Theorem construction_rejects_empty_and_nonpositive_sizes :
  forall (Subcomm_new : Z -> list Z -> list Z)
         (decompose : list Z -> list Z -> Z -> list Z * list Z)
         (plan_output : basis -> list Z -> Z -> dtype -> list Z * dtype)
         (run_xfftn : basis -> ndarray -> ndarray)
         (run_transfer : transfer_op -> ndarray -> ndarray)
         (lambdify_bc : bcval -> bcval -> TensorProductSpace.t
                        -> result (bcval * bcval))
         (c : comm_arg) (bs : list basis) (a : axes_arg) (dt : option dtype)
         (slab : bool),
    bs = [] \/
    Exists (fun b => np_round (inject_Z (N b) * padding_factor b) <= 0) bs ->
    TensorProductSpace_init Subcomm_new decompose plan_output run_xfftn
      run_transfer lambdify_bc c bs a dt slab = Raise AssertionError.
Proof.
  intros Subcomm_new decompose plan_output run_xfftn run_transfer lambdify_bc
         c bs a dt slab [-> | Hex]; [reflexivity |].
  unfold TensorProductSpace_init, init.
  destruct bs as [| b0 t]; [reflexivity |].
  cbn [TensorProductSpace.shape_of map length Nat.eqb negb assert bind py_min].
  set (x := np_round (inject_Z (N b0) * padding_factor b0)).
  set (sh := map (fun b => np_round (inject_Z (N b) * padding_factor b)) t).
  assert (Hle : fold_left Z.min sh x <= 0).
  { destruct (fold_left_min_le sh x) as [Hx Hall].
    inversion Hex as [? ? Hb | ? ? Hb]; subst.
    - fold x in Hb. lia.
    - apply Exists_exists in Hb as (b & Hin & Hb).
      rewrite Forall_forall in Hall.
      specialize (Hall _ (in_map (fun b => np_round (inject_Z (N b)
                                                     * padding_factor b))
                                 t b Hin)).
      simpl in Hall. lia. }
  destruct (fold_left Z.min sh x >? 0) eqn:E; [apply Z.gtb_lt in E; lia |].
  reflexivity.
Qed.

Lemma construction_rejects_empty_and_nonpositive_sizes_witness :
  ([fourier_basis C2CBasis 8; fourier_basis R2CBasis 0] = [] \/
   Exists (fun b => np_round (inject_Z (N b) * padding_factor b) <= 0)
     [fourier_basis C2CBasis 8; fourier_basis R2CBasis 0]) /\
  serial_init (Comm 1) [fourier_basis C2CBasis 8; fourier_basis R2CBasis 0]
    AxesNone None false = Raise AssertionError.
Proof.
  assert (H : [fourier_basis C2CBasis 8; fourier_basis R2CBasis 0] = [] \/
              Exists (fun b => np_round (inject_Z (N b) * padding_factor b) <= 0)
                [fourier_basis C2CBasis 8; fourier_basis R2CBasis 0]).
  { right. apply Exists_cons_tl. apply Exists_cons_hd. vm_compute. discriminate. }
  split; [exact H |].
  exact (construction_rejects_empty_and_nonpositive_sizes serial_Subcomm
           serial_decompose serial_plan_output serial_xfftn serial_transfer
           serial_lambdify (Comm 1)
           [fourier_basis C2CBasis 8; fourier_basis R2CBasis 0]
           AxesNone None false H).
Defined.

(** X14. [set_tensor_bcs] changes nothing but array contents. Whenever it
    succeeds, the physical boundary values [bc] of the object are the ones
    it had; a single basis passed in is returned as it was; and a space
    passed in keeps its plan and its layout: dtype, pipeline order,
    redistributions, pencils, process grid, the number of stages with their
    bases and array shapes, and the class, axis, size and padding factor of
    every basis. *)
Theorem set_tensor_bcs_keeps_plan_and_layout :
  forall (run_xfftn : basis -> ndarray -> ndarray)
         (run_transfer : transfer_op -> ndarray -> ndarray)
         (lambdify_bc : bcval -> bcval -> TensorProductSpace.t
                        -> result (bcval * bcval))
         (self self' : BoundaryValues.t) (arg arg' : tensor_arg),
    set_tensor_bcs run_xfftn run_transfer lambdify_bc self arg
    = Ok (self', arg') ->
    BoundaryValues.bc self' = BoundaryValues.bc self /\
    match arg, arg' with
    | OneBasis b, OneBasis b' => b' = b
    | Space T, Space T' => same_plan T T' /\ same_layout T T'
    | _, _ => False
    end.
Proof.
  intros run_xfftn run_transfer lambdify_bc self self' arg arg' H.
  destruct arg as [b | T]; simpl in H.
  - apply bind_ok_inv in H as (s & Hs & H). injection H as <- <-.
    split; [| reflexivity].
    unfold set_tensor_bcs_basis in Hs.
    destruct (is_dirichlet (kind b)); [| discriminate Hs].
    destruct (b_axis b); [| discriminate Hs].
    injection Hs as <-. reflexivity.
  - apply bind_ok_inv in H as ([s T'] & Hs & H). injection H as <- <-.
    split.
    + clear - Hs. unfold set_tensor_bcs_space in Hs.
      destruct (existsb _ _); [| injection Hs as <- _; reflexivity].
      apply bind_ok_inv in Hs as (sc & _ & H).
      apply bind_ok_inv in H as (dbase & _ & H).
      apply bind_ok_inv in H as (ax & _ & H).
      apply bind_ok_inv in H as (nh & _ & H).
      destruct (negb nh); [injection H as <- _; reflexivity |].
      apply bind_ok_inv in H as (b & _ & H).
      apply bind_ok_inv in H as ([T1 b_hat] & _ & H).
      apply bind_ok_inv in H as (c0 & _ & H).
      apply bind_ok_inv in H as (c1 & _ & H).
      apply bind_ok_inv in H as ([T2 b_fin] & _ & H).
      apply bind_ok_inv in H as (f0 & _ & H).
      apply bind_ok_inv in H as (f1 & _ & H). injection H as <- _.
      reflexivity.
    + split; [exact (set_tensor_bcs_space_same_plan _ _ _ _ _ _ _ Hs)
             | exact (set_tensor_bcs_space_same_layout _ _ _ _ _ _ _ Hs)].
Qed.

Lemma set_tensor_bcs_keeps_plan_and_layout_witness :
  set_tensor_bcs serial_xfftn serial_transfer serial_lambdify
    (numeric_bvals 1 (-1)) (Space channel_space)
  = Ok (rewired_bvals, Space rewired_space) /\
  BoundaryValues.bc rewired_bvals = BoundaryValues.bc (numeric_bvals 1 (-1)) /\
  same_layout channel_space rewired_space.
Proof.
  assert (H : set_tensor_bcs serial_xfftn serial_transfer serial_lambdify
                (numeric_bvals 1 (-1)) (Space channel_space)
              = Ok (rewired_bvals, Space rewired_space))
    by (vm_compute; reflexivity).
  split; [exact H |].
  destruct (set_tensor_bcs_keeps_plan_and_layout serial_xfftn serial_transfer
              serial_lambdify (numeric_bvals 1 (-1)) rewired_bvals
              (Space channel_space) (Space rewired_space) H) as [Hbc [_ Hl]].
  split; [exact Hbc | exact Hl].
Defined.

(** ** Further properties of boundary values *)

Lemma update_bcs_slices (v : bcval * bcval) (b b' : BoundaryValues.t) (ax : nat) :
  BoundaryValues.update_bcs v b = Ok b' ->
  slices_follow b ax -> slices_follow b' ax /\ BoundaryValues.axis b' = BoundaryValues.axis b.
Proof.
  unfold BoundaryValues.update_bcs.
  destruct (is_bc_type (fst v)); [| discriminate].
  destruct (is_bc_type (snd v)); [| discriminate].
  intros H Hs. injection H as <-. split; [exact Hs | reflexivity].
Qed.

Lemma set_tensor_bcs_space_slices
    (run_xfftn : basis -> ndarray -> ndarray)
    (run_transfer : transfer_op -> ndarray -> ndarray)
    (lambdify_bc : bcval -> bcval -> TensorProductSpace.t
                   -> result (bcval * bcval))
    (self self' : BoundaryValues.t) (T T' : TensorProductSpace.t) :
  set_tensor_bcs_space run_xfftn run_transfer lambdify_bc self T = Ok (self', T') ->
  slices_follow self (BoundaryValues.axis self) ->
  slices_follow self' (BoundaryValues.axis self').
Proof.
  unfold set_tensor_bcs_space. intros H Hs.
  destruct (existsb _ _); [| injection H as <- _; exact Hs].
  apply bind_ok_inv in H as (sc & _ & H).
  apply bind_ok_inv in H as (dbase & _ & H).
  apply bind_ok_inv in H as (ax & _ & H).
  apply bind_ok_inv in H as (nh & _ & H).
  destruct (negb nh); [injection H as <- _; repeat split |].
  apply bind_ok_inv in H as (b & _ & H).
  apply bind_ok_inv in H as ([T1 b_hat] & _ & H).
  apply bind_ok_inv in H as (c0 & _ & H).
  apply bind_ok_inv in H as (c1 & _ & H).
  apply bind_ok_inv in H as ([T2 b_fin] & _ & H).
  apply bind_ok_inv in H as (f0 & _ & H).
  apply bind_ok_inv in H as (f1 & _ & H). injection H as <- _.
  repeat split.
Qed.

(** X15. The four slices of a [BoundaryValues] object always select
    positions along the axis recorded in its [axis]: in every state reached
    from the constructor by calls of [update_bcs] and [set_tensor_bcs] (on a
    basis or on a space), [sl0], [sl1], [slm1] and [slm2] are the indices 0,
    1, -1 and -2 along [axis]. *)
Theorem slices_always_follow_axis :
  forall (run_xfftn : basis -> ndarray -> ndarray)
         (run_transfer : transfer_op -> ndarray -> ndarray)
         (lambdify_bc : bcval -> bcval -> TensorProductSpace.t
                        -> result (bcval * bcval))
         (b : BoundaryValues.t),
    bvals_reachable run_xfftn run_transfer lambdify_bc b ->
    slices_follow b (BoundaryValues.axis b).
Proof.
  intros run_xfftn run_transfer lambdify_bc b H.
  induction H as [v b Hi | v b b' _ IH Hu | b b' arg arg' _ IH Hs].
  - exact (proj1 (init_slices_follow v b Hi)).
  - destruct (update_bcs_slices v b b' _ Hu IH) as [Hf Hax].
    rewrite Hax. exact Hf.
  - destruct arg as [base | T]; simpl in Hs.
    + apply bind_ok_inv in Hs as (s & Hs & H). injection H as <- _.
      unfold set_tensor_bcs_basis in Hs.
      destruct (is_dirichlet (kind base)); [| discriminate Hs].
      destruct (b_axis base); [| discriminate Hs].
      injection Hs as <-. repeat split.
    + apply bind_ok_inv in Hs as ([s T'] & Hs & H). injection H as <- _.
      exact (set_tensor_bcs_space_slices _ _ _ _ _ _ _ Hs IH).
Qed.

Lemma slices_always_follow_axis_witness :
  bvals_reachable serial_xfftn serial_transfer serial_lambdify rewired_bvals /\
  slices_follow rewired_bvals 0.
Proof.
  assert (H : bvals_reachable serial_xfftn serial_transfer serial_lambdify
                rewired_bvals).
  { apply (reach_set_tensor_bcs _ _ _ (numeric_bvals 1 (-1)) rewired_bvals
             (Space channel_space) (Space rewired_space)).
    - apply (reach_init _ _ _ (BNum (Cx_of_Q 1), BNum (Cx_of_Q (-1)))).
      reflexivity.
    - vm_compute. reflexivity. }
  split; [exact H |].
  exact (slices_always_follow_axis serial_xfftn serial_transfer serial_lambdify
           rewired_bvals H).
Defined.

Lemma setitem_inv (u u' : ndarray) (s : axis_index) (v : bcval) :
  setitem u s v = Ok u' ->
  exists n k rhs,
    axis_len u (idx_axis s) = Ok n /\
    resolve_index n (idx_pos s) = Ok k /\
    as_assigned v (remove_at (idx_axis s) (shape u)) = Ok rhs /\
    u' = update_axis (fun _ x => x) u s rhs k.
Proof.
  unfold setitem. intros H.
  apply bind_ok_inv in H as (n & Hn & H).
  apply bind_ok_inv in H as (k & Hk & H).
  apply bind_ok_inv in H as (rhs & Hr & H).
  injection H as <-. exists n, k, rhs. auto.
Qed.

Lemma setitem_same_shape (u w : ndarray) (s : axis_index) (v : bcval)
    (n k : Z) (rhs : list Z -> Cx) :
  shape w = shape u ->
  axis_len u (idx_axis s) = Ok n ->
  resolve_index n (idx_pos s) = Ok k ->
  as_assigned v (remove_at (idx_axis s) (shape u)) = Ok rhs ->
  setitem w s v = Ok (update_axis (fun _ x => x) w s rhs k).
Proof.
  intros Hs Hn Hk Hr. unfold setitem, axis_len in *. rewrite Hs.
  destruct (nth_error (shape u) (idx_axis s)); [| discriminate Hn].
  injection Hn as ->. cbv beta iota delta [bind].
  rewrite Hk, Hr. reflexivity.
Qed.

(** X16. [apply_after] is idempotent: whenever it succeeds on an array,
    applying it to the result succeeds as well and returns an array of the
    same shape with the same entries. *)
Theorem apply_after_is_idempotent :
  forall (b : BoundaryValues.t) (u u1 : ndarray) (final : bool),
    BoundaryValues.apply_after b u final = Ok u1 ->
    exists u2,
      BoundaryValues.apply_after b u1 final = Ok u2 /\
      shape u2 = shape u1 /\
      forall i, item u2 i = item u1 i.
Proof.
  intros b u u1 final H. unfold BoundaryValues.apply_after in *.
  apply bind_ok_inv in H as (w & Hw & H).
  apply setitem_inv in Hw as (n2 & k2 & r2 & Hn2 & Hk2 & Hr2 & ->).
  apply setitem_inv in H as (n1 & k1 & r1 & Hn1 & Hk1 & Hr1 & ->).
  cbn [shape update_axis] in Hn1, Hr1.
  assert (Hn1' : axis_len u (idx_axis (BoundaryValues.slm1 b)) = Ok n1)
    by exact Hn1.
  set (u1 := update_axis _ (update_axis _ u _ r2 k2) _ r1 k1).
  rewrite (setitem_same_shape u u1 (BoundaryValues.slm2 b) _ n2 k2 r2
             eq_refl Hn2 Hk2 Hr2).
  cbv beta iota delta [bind].
  set (u2 := update_axis _ u1 _ r2 k2).
  rewrite (setitem_same_shape u u2 (BoundaryValues.slm1 b) _ n1 k1 r1
             eq_refl Hn1' Hk1 Hr1).
  subst u2 u1.
  eexists. split; [reflexivity |]. split; [reflexivity |].
  intros i. simpl.
  destruct (nth (idx_axis (BoundaryValues.slm1 b)) i (-1) =? k1);
    [reflexivity |].
  destruct (nth (idx_axis (BoundaryValues.slm2 b)) i (-1) =? k2); reflexivity.
Qed.

Lemma apply_after_is_idempotent_witness :
  exists u1 u2,
    BoundaryValues.apply_after sample_bvals sample_coefficients true = Ok u1 /\
    BoundaryValues.apply_after sample_bvals u1 true = Ok u2 /\
    item u2 [2; 1] = item u1 [2; 1].
Proof.
  exists after_once.
  assert (H : BoundaryValues.apply_after sample_bvals sample_coefficients true
              = Ok (after_once))
    by (vm_compute; reflexivity).
  destruct (apply_after_is_idempotent sample_bvals sample_coefficients
              after_once true H) as (u2 & H2 & _ & Hi).
  exists u2. split; [exact H |]. split; [exact H2 | apply Hi].
Defined.

(** X17. The boundary coefficients need two places along the axis. For a
    [BoundaryValues] object whose slices are on axis [ax] and an array that
    has no such axis or fewer than two entries along it, [apply_after]
    raises [IndexError] and [apply_before] never succeeds. *)
Theorem boundary_injection_needs_two_coefficients :
  forall (b : BoundaryValues.t) (u : ndarray) (final : bool)
         (scales : Cx * Cx) (ax : nat),
    slices_follow b ax ->
    (forall n, nth_error (shape u) ax = Some n -> n < 2) ->
    BoundaryValues.apply_after b u final = Raise IndexError /\
    forall u', BoundaryValues.apply_before b u final scales <> Ok u'.
Proof.
  intros b u final scales ax (H0 & H1 & Hm1 & Hm2) Hshort. split.
  - unfold BoundaryValues.apply_after, setitem. rewrite Hm2.
    unfold BoundaryValues.sl, axis_len. cbn [idx_axis idx_pos].
    destruct (nth_error (shape u) ax) as [n |] eqn:E; [| reflexivity].
    specialize (Hshort n eq_refl). cbv beta iota delta [bind].
    unfold resolve_index. change (-2 <? 0) with true. cbv iota.
    destruct (0 <=? -2 + n) eqn:E1; [apply Z.leb_le in E1; lia | reflexivity].
  - intros u' H. unfold BoundaryValues.apply_before in H.
    apply bind_ok_inv in H as (u1 & Hu1 & H).
    unfold BoundaryValues.iadd_mixed in Hu1, H.
    rewrite H0 in Hu1. rewrite H1 in H.
    unfold BoundaryValues.sl in Hu1, H. cbn [idx_axis idx_pos] in Hu1, H.
    apply bind_ok_inv in Hu1 as (n & Hn & Hu1).
    apply bind_ok_inv in Hu1 as (k & Hk & Hu1).
    apply bind_ok_inv in Hu1 as (f0 & _ & Hu1).
    apply bind_ok_inv in Hu1 as (f1 & _ & Hu1).
    injection Hu1 as <-.
    apply bind_ok_inv in H as (n' & Hn' & H).
    apply bind_ok_inv in H as (k' & Hk' & _).
    unfold axis_len in Hn, Hn'. cbn [shape update_axis] in Hn'.
    destruct (nth_error (shape u) ax) as [m |] eqn:E; [| discriminate Hn].
    specialize (Hshort m eq_refl).
    injection Hn as <-. injection Hn' as <-.
    unfold resolve_index in Hk'. change (1 <? 0) with false in Hk'.
    cbv iota in Hk'. change (0 <=? 1) with true in Hk'.
    destruct (1 <? m) eqn:E1; [apply Z.ltb_lt in E1; lia |].
    discriminate Hk'.
Qed.

Lemma boundary_injection_needs_two_coefficients_witness :
  slices_follow sample_bvals 0 /\
  (forall n, nth_error (shape (sample_spectrum 1)) 0 = Some n -> n < 2) /\
  BoundaryValues.apply_after sample_bvals (sample_spectrum 1) false
  = Raise IndexError.
Proof.
  assert (Hs : slices_follow sample_bvals 0) by (repeat split).
  assert (Hn : forall n, nth_error (shape (sample_spectrum 1)) 0 = Some n ->
                         n < 2)
    by (intros n H; injection H as <-; lia).
  split; [exact Hs |]. split; [exact Hn |].
  exact (proj1 (boundary_injection_needs_two_coefficients sample_bvals
                  (sample_spectrum 1) false (half, half) 0%nat Hs Hn)).
Defined.

(** X18. When [has_nonhomogeneous_bcs] raises and when it answers no. The
    call raises exactly when the comparison with zero has no truth value:
    the first boundary coefficient is an array with more than one element,
    or the first compares equal to zero and the second is such an array; the
    exception is then [ValueError]. It returns [False] exactly when both
    coefficients compare equal to zero; a nonzero first coefficient is
    enough for [True], whatever the second one is. *)
Theorem has_nonhomogeneous_bcs_raises_iff :
  forall (b : BoundaryValues.t),
    (forall e,
       BoundaryValues.has_nonhomogeneous_bcs b = Raise e <->
       e = ValueError /\
       (ambiguous_truth (fst (BoundaryValues.bcs b)) = true \/
        (eq_zero_truth (fst (BoundaryValues.bcs b)) = Ok true /\
         ambiguous_truth (snd (BoundaryValues.bcs b)) = true))) /\
    (BoundaryValues.has_nonhomogeneous_bcs b = Ok false <->
     eq_zero_truth (fst (BoundaryValues.bcs b)) = Ok true /\
     eq_zero_truth (snd (BoundaryValues.bcs b)) = Ok true) /\
    (eq_zero_truth (fst (BoundaryValues.bcs b)) = Ok false ->
     BoundaryValues.has_nonhomogeneous_bcs b = Ok true).
Proof.
  intros b. unfold BoundaryValues.has_nonhomogeneous_bcs.
  assert (Hamb : forall v,
            (ambiguous_truth v = true ->
             eq_zero_truth v = Raise ValueError) /\
            (ambiguous_truth v = false -> exists r, eq_zero_truth v = Ok r)).
  { intros [c | [c | s] | a |]; simpl; split; intros H;
      try discriminate H; try (eexists; reflexivity).
    - destruct (size a =? 1); [discriminate H |].
      destruct (size a =? 0); [discriminate H | reflexivity].
    - destruct (size a =? 1); [eexists; reflexivity |].
      destruct (size a =? 0); [eexists; reflexivity | discriminate H]. }
  destruct (Hamb (fst (BoundaryValues.bcs b))) as [A0 B0].
  destruct (Hamb (snd (BoundaryValues.bcs b))) as [A1 B1].
  destruct (ambiguous_truth (fst (BoundaryValues.bcs b))) eqn:E0.
  - rewrite (A0 eq_refl). cbv beta iota delta [bind].
    split; [| split].
    + intros e. split.
      * intros H. injection H as <-. split; [reflexivity | left; reflexivity].
      * intros [-> _]. reflexivity.
    + split; [intros H; discriminate H | intros [H _]; discriminate H].
    + intros H. discriminate H.
  - destruct (B0 eq_refl) as [r0 Hr0]. rewrite Hr0.
    cbv beta iota delta [bind].
    destruct r0.
    + destruct (ambiguous_truth (snd (BoundaryValues.bcs b))) eqn:E1.
      * rewrite (A1 eq_refl). cbv beta iota delta [bind].
        split; [| split].
        -- intros e. split.
           ++ intros H. injection H as <-.
              split; [reflexivity | right; split; reflexivity].
           ++ intros [-> _]. reflexivity.
        -- split; [intros H; discriminate H | intros [_ H]; discriminate H].
        -- intros H. discriminate H.
      * destruct (B1 eq_refl) as [r1 Hr1]. rewrite Hr1.
        cbv beta iota delta [bind].
        split; [| split].
        -- intros e. split.
           ++ destruct r1; intros H; discriminate H.
           ++ intros [_ [H | [_ H]]]; discriminate H.
        -- destruct r1; split; try (intros H; discriminate H).
           ++ intros _. split; reflexivity.
           ++ intros _. reflexivity.
           ++ intros [_ H]. discriminate H.
        -- intros H. discriminate H.
    + split; [| split].
      * intros e. split.
        -- intros H. discriminate H.
        -- intros [_ [H | [H _]]]; discriminate H.
      * split; [intros H; discriminate H | intros [H _]; discriminate H].
      * intros _. reflexivity.
Qed.

(** ** Planning a Shen basis any number of times *)

(** X19. What every sequence of [plan] calls on a Shen Dirichlet basis of
    the Legendre family preserves. In every state reached from a basis made
    with [plan=False]: the basis and its plain Legendre basis [LT] have the
    same axis and the same input array; the transforms of the basis are
    wired to two arrays ([forward] and [scalar_product] from the first to
    the second, [backward] from the second to the first); and every array
    held by the basis or by [LT], those of replaced transforms included, was
    made before the allocator's current count, so that the arrays of the
    next plan are none of them. *)
Theorem shen_plan_invariants :
  forall (h : Legendre.heap) (b : Legendre.ShenDirichletBasis),
    shen_reachable h b ->
    Legendre.shen_consistent b /\
    transforms_wired (Legendre.base b) /\
    (forall o,
       In o (Legendre.buffers_of (Legendre.forward (Legendre.base b))
             ++ Legendre.buffers_of (Legendre.forward (Legendre.LT b))) ->
       (Legendre.buf_id o < h)%nat).
Proof.
  intros h b H.
  induction H as [| h h' b b' s a dt _ (Hc & Hw & Hold) Hp].
  - split; [split; [reflexivity | exact I] |].
    split; [exact I |]. intros o [].
  - pose proof Hp as Hp0. unfold Legendre.shen_plan in Hp.
    apply bind_ok_inv in Hp as (ax & Ha & Hp).
    destruct (Legendre.already_planned (Legendre.base b) s ax) eqn:E.
    + injection Hp as <- <-. split; [exact Hc |]. split; assumption.
    + clear Hp.
      destruct (shen_plan_other_allocates h b s a dt ax Hc Ha E)
        as (lt & Hlt & _ & Hs).
      rewrite Hs in Hp0. injection Hp0 as <- <-.
      rewrite (plan_other_allocates h (Legendre.LT b) s (Legendre.AxisInt ax)
                 dt ax eq_refl) in Hlt
        by (rewrite (shen_consistent_planned b s ax Hc); exact E).
      injection Hlt as <-.
      split; [split; reflexivity |].
      split; [cbn; repeat split |].
      intros o Ho. cbn in Ho.
      repeat (destruct Ho as [<- | Ho]; [cbn; lia |]).
      apply in_app_iff in Ho as [Ho | Ho].
      * assert (Hlt : (Legendre.buf_id o < h)%nat)
          by (apply Hold; apply in_or_app; left; exact Ho). lia.
      * repeat (destruct Ho as [<- | Ho]; [cbn; lia |]).
        assert (Hlt : (Legendre.buf_id o < h)%nat)
          by (apply Hold; apply in_or_app; right; exact Ho). lia.
Qed.

Lemma shen_plan_invariants_witness :
  shen_reachable (fst twice_planned) (snd twice_planned) /\
  Legendre.shen_consistent (snd twice_planned) /\
  fst twice_planned = 4%nat.
Proof.
  assert (H : shen_reachable (fst twice_planned) (snd twice_planned)).
  { apply (shen_planned (fst once_planned) _ (snd once_planned) _
             (Legendre.ShapeTuple [8; 4]) (Legendre.AxisTuple [0]) np_float).
    - apply (shen_planned 0%nat _
               (Legendre.mkShen Legendre.unplanned Legendre.unplanned) _
               (Legendre.ShapeTuple [8; 6]) (Legendre.AxisInt 0) np_float).
      + apply shen_fresh.
      + reflexivity.
    - reflexivity. }
  split; [exact H |].
  split; [exact (proj1 (shen_plan_invariants _ _ H)) | reflexivity].
Defined.

(** ** The cached mass matrix; equality against hash *)

(** X20. The mass matrix is assembled once and reused. After a successful
    [apply_inverse_mass] the basis holds a mass matrix and is otherwise
    unchanged; as long as the test function of that matrix reports the
    quadrature of the basis and the length of the array along the axis, a
    further call solves with this same matrix, assembles nothing and leaves
    the basis as it is. *)
Theorem inverse_mass_is_cached :
  forall (Mass : Type) (assemble_mass : Z -> string -> Mass)
         (mass_solve : Mass -> ndarray -> Z -> result ndarray)
         (testfunction0 : Mass -> SpectralBase Mass -> string * Z)
         (self self1 : SpectralBase Mass) (fk fk1 : ndarray) (axis : Z),
    apply_inverse_mass Mass assemble_mass mass_solve testfunction0 self fk axis
    = Ok (self1, fk1) ->
    exists m,
      _mass self1 = Some m /\
      class_ self1 = class_ self /\ sb_N self1 = sb_N self /\
      quad self1 = quad self /\ domain self1 = domain self /\
      forall (fk' : ndarray) (n : Z),
        py_nth (shape fk') axis = Ok n ->
        testfunction0 m self1 = (quad self1, n) ->
        apply_inverse_mass Mass assemble_mass mass_solve testfunction0
          self1 fk' axis
        = (r <- mass_solve m fk' axis ;; Ok (self1, r)).
Proof.
  intros Mass assemble_mass mass_solve testfunction0 self self1 fk fk1 axis H.
  unfold apply_inverse_mass in H.
  apply bind_ok_inv in H as (s1 & Hs1 & H).
  apply bind_ok_inv in H as (n0 & _ & H).
  assert (Hframe : class_ s1 = class_ self /\ sb_N s1 = sb_N self /\
                   quad s1 = quad self /\ domain s1 = domain self).
  { destruct (_mass self).
    - injection Hs1 as <-. repeat split.
    - apply bind_ok_inv in Hs1 as (n1 & _ & Hs1).
      apply bind_ok_inv in Hs1 as (u & _ & Hs1).
      injection Hs1 as <-. repeat split. }
  destruct Hframe as (Fc & Fn & Fq & Fd).
  destruct (_mass s1) as [m1 |]; [| discriminate H].
  apply bind_ok_inv in H as (r & _ & H).
  set (m2 := if negb _ || negb _ then _ else m1) in H.
  remember (set_mass m2 s1) as s2 eqn:Es2.
  injection H as <- _.
  assert (Hm : _mass s2 = Some m2) by (rewrite Es2; reflexivity).
  assert (Gc : class_ s2 = class_ self) by (rewrite Es2; exact Fc).
  assert (Gn : sb_N s2 = sb_N self) by (rewrite Es2; exact Fn).
  assert (Gq : quad s2 = quad self) by (rewrite Es2; exact Fq).
  assert (Gd : domain s2 = domain self) by (rewrite Es2; exact Fd).
  clear Es2. clearbody m2.
  exists m2. split; [exact Hm |].
  split; [exact Gc |]. split; [exact Gn |]. split; [exact Gq |].
  split; [exact Gd |].
  intros fk' n Hn Htf. unfold apply_inverse_mass.
  rewrite Hm. cbv beta iota delta [bind].
  rewrite Hn. cbv beta iota. rewrite Hm, Htf. cbn [fst snd].
  rewrite String.eqb_refl, Z.eqb_refl. cbn [negb orb].
  destruct (mass_solve m2 fk' axis) as [r' | e]; [| reflexivity].
  destruct s2 as [c0 n1 q0 d0 mm]. cbn in Hm. rewrite Hm. reflexivity.
Qed.

Lemma inverse_mass_is_cached_witness :
  apply_inverse_mass unit (fun _ _ => tt) unit_solve unit_testfunction0
    unit_basis (zeros [4; 3]) 0
  = Ok (set_mass tt unit_basis, zeros [4; 3]) /\
  _mass (set_mass tt unit_basis) = Some tt /\
  apply_inverse_mass unit (fun _ _ => tt) unit_solve unit_testfunction0
    (set_mass tt unit_basis) (zeros [4; 2]) 0
  = Ok (set_mass tt unit_basis, zeros [4; 2]).
Proof.
  assert (H : apply_inverse_mass unit (fun _ _ => tt) unit_solve
                unit_testfunction0 unit_basis (zeros [4; 3]) 0
              = Ok (set_mass tt unit_basis, zeros [4; 3])) by reflexivity.
  split; [exact H |].
  destruct (inverse_mass_is_cached unit (fun _ _ => tt) unit_solve
              unit_testfunction0 unit_basis (set_mass tt unit_basis)
              (zeros [4; 3]) (zeros [4; 3]) 0 H)
    as (m & Hm & _ & _ & _ & _ & Hnext).
  split; [destruct m; exact Hm |].
  rewrite (Hnext (zeros [4; 2]) 4 eq_refl); [reflexivity |].
  destruct m. reflexivity.
Defined.

(** X21. [__eq__] is an equivalence relation that is coarser than
    [__hash__]: it is reflexive, symmetric and transitive, and it compares
    the bare class name, whereas the hash is taken of [repr] of the class,
    which contains the module. Two bases whose classes have the same name in
    different modules, such as the Shen Dirichlet bases of the Chebyshev and
    of the Legendre family, are therefore equal, and they hash differently
    whenever the hash tells the two [repr] strings apart. *)
Theorem eq_is_an_equivalence_coarser_than_hash :
  forall (Mass : Type) (py_hash : string -> Z),
    (forall b : SpectralBase Mass, __eq__ b b = true) /\
    (forall b1 b2 : SpectralBase Mass, __eq__ b1 b2 = __eq__ b2 b1) /\
    (forall b1 b2 b3 : SpectralBase Mass,
       __eq__ b1 b2 = true -> __eq__ b2 b3 = true -> __eq__ b1 b3 = true) /\
    (forall b1 b2 : SpectralBase Mass,
       class_ b1 = ChebyshevShenDirichlet_class ->
       class_ b2 = ShenDirichlet_class ->
       __eq__ b1 b2 = true /\
       class_repr (class_ b1) <> class_repr (class_ b2) /\
       (py_hash (class_repr (class_ b1)) <> py_hash (class_repr (class_ b2)) ->
        __hash__ py_hash b1 <> __hash__ py_hash b2)).
Proof.
  intros Mass py_hash. unfold __eq__, __hash__.
  split; [intros b; apply String.eqb_refl |].
  split; [intros b1 b2; apply String.eqb_sym |].
  split.
  - intros b1 b2 b3 H12 H23.
    apply String.eqb_eq in H12. apply String.eqb_eq in H23.
    apply String.eqb_eq. congruence.
  - intros b1 b2 H1 H2. rewrite H1, H2.
    split; [reflexivity |]. split; [discriminate |]. intros H. exact H.
Qed.

(** ** Wavenumbers of the Fourier bases *)

Lemma length_arange (lo len : Z) : length (np_fft.arange lo len) = Z.to_nat len.
Proof. unfold np_fft.arange. now rewrite length_map, length_seq. Qed.

Lemma nth_arange (lo len i d : Z) :
  0 <= i < len -> nth (Z.to_nat i) (np_fft.arange lo len) d = lo + i.
Proof.
  intros H. unfold np_fft.arange.
  rewrite (nth_indep _ d (lo + Z.of_nat 0)) by (rewrite length_map, length_seq; lia).
  rewrite (map_nth (fun j => lo + Z.of_nat j)), seq_nth by lia. lia.
Qed.

Lemma nth_fftfreq_ints (n i : Z) :
  1 <= n -> 0 <= i < n ->
  nth (Z.to_nat i)
      (np_fft.arange 0 ((n - 1) / 2 + 1) ++ np_fft.arange (- (n / 2)) (n / 2)) 0
  = if i <=? (n - 1) / 2 then i else i - n.
Proof.
  intros Hn Hi.
  pose proof (Z.div_mod n 2 ltac:(lia)) as D1.
  pose proof (Z.mod_pos_bound n 2 ltac:(lia)) as B1.
  pose proof (Z.div_mod (n - 1) 2 ltac:(lia)) as D2.
  pose proof (Z.mod_pos_bound (n - 1) 2 ltac:(lia)) as B2.
  destruct (i <=? (n - 1) / 2) eqn:E.
  - apply Z.leb_le in E.
    rewrite app_nth1 by (rewrite length_arange; lia).
    rewrite nth_arange by lia. lia.
  - apply Z.leb_gt in E.
    rewrite app_nth2 by (rewrite length_arange; lia).
    rewrite length_arange.
    replace (Z.to_nat i - Z.to_nat ((n - 1) / 2 + 1))%nat
      with (Z.to_nat (i - ((n - 1) / 2 + 1))) by lia.
    rewrite nth_arange by lia. lia.
Qed.

Lemma nth_map_Q {A : Type} (g : A -> Q) (l : list A) (i : nat) (d : A) :
  (i < length l)%nat -> nth i (map g l) 0%Q = g (nth i l d).
Proof.
  intros H. rewrite (nth_indep _ 0%Q (g d)) by (rewrite length_map; exact H).
  apply map_nth.
Qed.

Lemma nth_replace_at {A : Type} (p i : nat) (x d : A) (l : list A) :
  (p < length l)%nat ->
  nth i (replace_at p x l) d = if Nat.eqb i p then x else nth i l d.
Proof.
  revert i l. induction p as [| p IH]; intros [| i] [| y l] H; simpl in *;
    try lia; try reflexivity.
  apply IH. lia.
Qed.

Lemma unit_spacing (n : Z) :
  n <> 0 -> (1 / (inject_Z n * (1 / inject_Z n)) == 1)%Q.
Proof.
  intros Hn. field. unfold Qeq. simpl. lia.
Qed.

Lemma length_fftfreq_ints (n : Z) :
  1 <= n ->
  length (np_fft.arange 0 ((n - 1) / 2 + 1) ++ np_fft.arange (- (n / 2)) (n / 2))
  = Z.to_nat n.
Proof.
  intros Hn. rewrite length_app, !length_arange.
  pose proof (Z.div_mod n 2 ltac:(lia)) as D1.
  pose proof (Z.mod_pos_bound n 2 ltac:(lia)) as B1.
  pose proof (Z.div_mod (n - 1) 2 ltac:(lia)) as D2.
  pose proof (Z.mod_pos_bound (n - 1) 2 ltac:(lia)) as B2.
  lia.
Qed.

(** the entries of [C2CBasis.wavenumbers] *)
Lemma c2c_wavenumbers_entries (f : Q) (n : Z) (shape_N : list Z) (axis : Z)
    (scaled elim : bool) :
  1 <= n -> py_nth shape_N axis = Ok n ->
  exists k,
    c2c_wavenumbers f n shape_N axis scaled elim = Returns k /\
    length k = Z.to_nat n /\
    forall i, 0 <= i < n ->
      (nth (Z.to_nat i) k 0
       == (if (n mod 2 =? 0) && elim && (i =? n / 2) then 0
           else inject_Z (if i <=? (n - 1) / 2 then i else i - n))
          * (if scaled then f else 1))%Q.
Proof.
  intros Hn Hpy. unfold c2c_wavenumbers, np_fft.fftfreq.
  rewrite Hpy, Z.eqb_refl. cbn [negb].
  destruct (n =? 0) eqn:E0; [apply Z.eqb_eq in E0; lia |].
  destruct (n <? 0) eqn:E1; [apply Z.ltb_lt in E1; lia |].
  set (ints := np_fft.arange 0 ((n - 1) / 2 + 1)
               ++ np_fft.arange (- (n / 2)) (n / 2)).
  set (val := (1 / (inject_Z n * (1 / inject_Z n)))%Q).
  set (k0 := map (fun r => (inject_Z r * val)%Q) ints).
  assert (Hlen : length ints = Z.to_nat n) by (apply length_fftfreq_ints; exact Hn).
  assert (Hlen0 : length k0 = Z.to_nat n)
    by (unfold k0; rewrite length_map; exact Hlen).
  assert (Hval : (val == 1)%Q) by (apply unit_spacing; lia).
  assert (Hk0 : forall i, 0 <= i < n ->
            (nth (Z.to_nat i) k0 0
             == inject_Z (if i <=? (n - 1) / 2 then i else i - n))%Q).
  { intros i Hi. unfold k0.
    rewrite (nth_map_Q _ ints _ 0) by lia.
    unfold ints. rewrite (nth_fftfreq_ints n i Hn Hi), Hval. ring. }
  assert (Hhalf : 0 <= n / 2 < n).
  { pose proof (Z.div_mod n 2 ltac:(lia)).
    pose proof (Z.mod_pos_bound n 2 ltac:(lia)). lia. }
  assert (Hk1 : exists k1,
            (if (n mod 2 =? 0) && elim then set_zero_at k0 (n / 2) else Ok k0)
            = Ok k1 /\
            length k1 = Z.to_nat n /\
            forall i, 0 <= i < n ->
              (nth (Z.to_nat i) k1 0
               == if (n mod 2 =? 0) && elim && (i =? n / 2) then 0
                  else inject_Z (if i <=? (n - 1) / 2 then i else i - n))%Q).
  { destruct ((n mod 2 =? 0) && elim).
    - unfold set_zero_at. rewrite Hlen0, Z2Nat.id by lia.
      rewrite (resolve_index_nonneg n (n / 2) Hhalf).
      cbv beta iota delta [bind].
      eexists. split; [reflexivity |].
      split; [rewrite length_replace_at; exact Hlen0 |].
      intros i Hi. rewrite nth_replace_at by lia. cbn [andb].
      destruct (i =? n / 2) eqn:E.
      + apply Z.eqb_eq in E. subst i. rewrite Nat.eqb_refl. reflexivity.
      + apply Z.eqb_neq in E.
        destruct (Nat.eqb (Z.to_nat i) (Z.to_nat (n / 2))) eqn:E2;
          [apply Nat.eqb_eq in E2; lia |].
        apply Hk0. exact Hi.
    - exists k0. split; [reflexivity |]. split; [exact Hlen0 |].
      intros i Hi. cbn [andb]. apply Hk0. exact Hi. }
  destruct Hk1 as (k1 & -> & Hlen1 & Hnth1).
  eexists. split; [reflexivity |].
  destruct scaled.
  - split; [rewrite length_map; exact Hlen1 |].
    intros i Hi. rewrite (nth_map_Q _ k1 _ 0%Q) by lia.
    rewrite (Hnth1 i Hi). reflexivity.
  - split; [exact Hlen1 |].
    intros i Hi. rewrite (Hnth1 i Hi). ring.
Qed.

(** X22. [eliminate_highest_freq] makes the wavenumbers of the
    complex-to-complex basis antisymmetric. For a basis with [N >= 1] and a
    shape with [N] at the axis, [C2CBasis.wavenumbers] with the flag set
    returns [N] values (scaled or not) with [k[0] = 0] and
    [k[N-i] = -k[i]] for [0 < i < N]; without the flag the entry at [N//2]
    of an even [N] is [-N/2] times the scale, the one value without a
    partner. *)
Theorem c2c_wavenumbers_antisymmetric :
  forall (domain_factor : Q) (n : Z) (shape_N : list Z) (axis : Z)
         (scaled : bool),
    1 <= n ->
    py_nth shape_N axis = Ok n ->
    (exists k,
       c2c_wavenumbers domain_factor n shape_N axis scaled true = Returns k /\
       length k = Z.to_nat n /\
       (nth 0 k 0 == 0)%Q /\
       forall i, 1 <= i < n ->
         (nth (Z.to_nat (n - i)) k 0 == - nth (Z.to_nat i) k 0)%Q) /\
    (exists k,
       c2c_wavenumbers domain_factor n shape_N axis scaled false = Returns k /\
       (n mod 2 = 0 ->
        (nth (Z.to_nat (n / 2)) k 0
         == - inject_Z (n / 2) * (if scaled then domain_factor else 1))%Q)).
Proof.
  intros f n shape_N axis scaled Hn Hpy.
  pose proof (Z.div_mod n 2 ltac:(lia)) as D1.
  pose proof (Z.mod_pos_bound n 2 ltac:(lia)) as B1.
  pose proof (Z.div_mod (n - 1) 2 ltac:(lia)) as D2.
  pose proof (Z.mod_pos_bound (n - 1) 2 ltac:(lia)) as B2.
  split.
  - destruct (c2c_wavenumbers_entries f n shape_N axis scaled true Hn Hpy)
      as (k & Hk & Hlen & Hnth).
    exists k. split; [exact Hk |]. split; [exact Hlen |]. split.
    + rewrite (Hnth 0 ltac:(lia)).
      destruct ((n mod 2 =? 0) && true && (0 =? n / 2)); [ring |].
      destruct (0 <=? (n - 1) / 2) eqn:E; [ring | apply Z.leb_gt in E; lia].
    + intros i Hi.
      rewrite (Hnth i ltac:(lia)), (Hnth (n - i) ltac:(lia)).
      destruct (n mod 2 =? 0) eqn:Ev; cbn [andb].
      * apply Z.eqb_eq in Ev.
        destruct (i =? n / 2) eqn:E.
        -- apply Z.eqb_eq in E.
           replace (n - i =? n / 2) with true by (symmetry; apply Z.eqb_eq; lia).
           ring.
        -- apply Z.eqb_neq in E.
           replace (n - i =? n / 2) with false by (symmetry; apply Z.eqb_neq; lia).
           destruct (i <=? (n - 1) / 2) eqn:E1;
             destruct (n - i <=? (n - 1) / 2) eqn:E2;
             try apply Z.leb_le in E1; try apply Z.leb_gt in E1;
             try apply Z.leb_le in E2; try apply Z.leb_gt in E2;
             try lia.
           ++ replace (n - i - n) with (- i) by lia.
              rewrite inject_Z_opp. ring.
           ++ replace (i - n) with (- (n - i)) by lia.
              rewrite inject_Z_opp. ring.
      * apply Z.eqb_neq in Ev.
        destruct (i <=? (n - 1) / 2) eqn:E1;
          destruct (n - i <=? (n - 1) / 2) eqn:E2;
          try apply Z.leb_le in E1; try apply Z.leb_gt in E1;
          try apply Z.leb_le in E2; try apply Z.leb_gt in E2;
          try lia.
        -- replace (n - i - n) with (- i) by lia.
           rewrite inject_Z_opp. ring.
        -- replace (i - n) with (- (n - i)) by lia.
           rewrite inject_Z_opp. ring.
  - destruct (c2c_wavenumbers_entries f n shape_N axis scaled false Hn Hpy)
      as (k & Hk & Hlen & Hnth).
    exists k. split; [exact Hk |]. intros Ev.
    rewrite (Hnth (n / 2) ltac:(lia)).
    rewrite andb_false_r. cbn [andb].
    destruct (n / 2 <=? (n - 1) / 2) eqn:E; [apply Z.leb_le in E; lia |].
    replace (n / 2 - n) with (- (n / 2)) by lia.
    rewrite inject_Z_opp. reflexivity.
Qed.

Lemma c2c_wavenumbers_antisymmetric_witness :
  1 <= 4 /\
  py_nth [6; 4] 1 = Ok 4 /\
  exists k,
    c2c_wavenumbers 1 4 [6; 4] 1 false true = Returns k /\
    (nth 3 k 0 == - nth 1 k 0)%Q.
Proof.
  split; [lia |]. split; [reflexivity |].
  destruct (c2c_wavenumbers_antisymmetric 1 4 [6; 4] 1 false ltac:(lia) eq_refl)
    as [(k & Hk & _ & _ & Hi) _].
  exists k. split; [exact Hk |]. apply (Hi 1). lia.
Defined.

(** X23. The wavenumbers of the real-to-complex basis. For a basis with
    [N >= 1] and a shape with [N] at the axis, [R2CBasis.wavenumbers]
    returns [N//2 + 1] values, as many as [slice()] selects: the value at
    position [i] is [i] times the scale (the domain factor when [scaled],
    one otherwise), except that with [eliminate_highest_freq] and an even
    [N] the last value is zero; for an odd [N] the flag changes nothing. *)
Theorem r2c_wavenumbers_values :
  forall (domain_factor : Q) (n : Z) (shape_N : list Z) (axis : Z)
         (scaled elim : bool),
    1 <= n ->
    py_nth shape_N axis = Ok n ->
    exists k,
      r2c_wavenumbers domain_factor n shape_N axis scaled elim = Returns k /\
      length k = Z.to_nat (n / 2 + 1) /\
      forall i, 0 <= i <= n / 2 ->
        (nth (Z.to_nat i) k 0
         == (if (n mod 2 =? 0) && elim && (i =? n / 2) then 0 else inject_Z i)
            * (if scaled then domain_factor else 1))%Q.
Proof.
  intros f n shape_N axis scaled elim Hn Hpy.
  unfold r2c_wavenumbers, np_fft.rfftfreq.
  rewrite Hpy, Z.eqb_refl. cbn [negb].
  destruct (n =? 0) eqn:E0; [apply Z.eqb_eq in E0; lia |].
  set (val := (1 / (inject_Z n * (1 / inject_Z n)))%Q).
  set (k0 := map (fun r => (inject_Z r * val)%Q) (np_fft.arange 0 (n / 2 + 1))).
  assert (Hhalf : 0 <= n / 2 < n).
  { pose proof (Z.div_mod n 2 ltac:(lia)).
    pose proof (Z.mod_pos_bound n 2 ltac:(lia)). lia. }
  assert (Hlen0 : length k0 = Z.to_nat (n / 2 + 1))
    by (unfold k0; rewrite length_map; apply length_arange).
  assert (Hval : (val == 1)%Q) by (apply unit_spacing; lia).
  assert (Hk0 : forall i, 0 <= i <= n / 2 ->
            (nth (Z.to_nat i) k0 0 == inject_Z i)%Q).
  { intros i Hi. unfold k0.
    rewrite (nth_map_Q _ _ _ 0) by (rewrite length_arange; lia).
    rewrite nth_arange by lia. rewrite Hval. cbn [Z.add]. ring. }
  assert (Hk1 : exists k1,
            (if (n mod 2 =? 0) && elim then set_zero_at k0 (-1) else Ok k0)
            = Ok k1 /\
            length k1 = Z.to_nat (n / 2 + 1) /\
            forall i, 0 <= i <= n / 2 ->
              (nth (Z.to_nat i) k1 0
               == if (n mod 2 =? 0) && elim && (i =? n / 2) then 0
                  else inject_Z i)%Q).
  { destruct ((n mod 2 =? 0) && elim).
    - unfold set_zero_at. rewrite Hlen0, Z2Nat.id by lia.
      assert (R : resolve_index (n / 2 + 1) (-1) = Ok (n / 2 + 1 - 1))
        by (apply (resolve_index_neg (n / 2 + 1) 1); lia).
      rewrite R. cbv beta iota delta [bind].
      eexists. split; [reflexivity |].
      split; [rewrite length_replace_at; exact Hlen0 |].
      intros i Hi. rewrite nth_replace_at by lia. cbn [andb].
      destruct (i =? n / 2) eqn:E.
      + apply Z.eqb_eq in E. subst i.
        replace (n / 2 + 1 - 1) with (n / 2) by lia.
        rewrite Nat.eqb_refl. reflexivity.
      + apply Z.eqb_neq in E.
        destruct (Nat.eqb (Z.to_nat i) (Z.to_nat (n / 2 + 1 - 1))) eqn:E2;
          [apply Nat.eqb_eq in E2; lia |].
        apply Hk0. exact Hi.
    - exists k0. split; [reflexivity |]. split; [exact Hlen0 |].
      intros i Hi. cbn [andb]. apply Hk0. exact Hi. }
  destruct Hk1 as (k1 & -> & Hlen1 & Hnth1).
  eexists. split; [reflexivity |].
  destruct scaled.
  - split; [rewrite length_map; exact Hlen1 |].
    intros i Hi. rewrite (nth_map_Q _ k1 _ 0%Q) by lia.
    rewrite (Hnth1 i Hi). reflexivity.
  - split; [exact Hlen1 |].
    intros i Hi. rewrite (Hnth1 i Hi). ring.
Qed.

Lemma r2c_wavenumbers_values_witness :
  1 <= 8 /\
  py_nth [8] 0 = Ok 8 /\
  exists k,
    r2c_wavenumbers 1 8 [8] 0 false true = Returns k /\
    length k = 5%nat /\
    (nth 4 k 0 == 0)%Q /\ (nth 3 k 0 == 3)%Q.
Proof.
  split; [lia |]. split; [reflexivity |].
  destruct (r2c_wavenumbers_values 1 8 [8] 0 false true ltac:(lia) eq_refl)
    as (k & Hk & Hlen & Hi).
  exists k. split; [exact Hk |]. split; [exact Hlen |].
  split.
  - rewrite (Hi 4 ltac:(change (0 <= 4 <= 4); lia)). reflexivity.
  - rewrite (Hi 3 ltac:(change (0 <= 3 <= 4); lia)). reflexivity.
Defined.

(** ** The process grid of a constructed space *)

(** X24. The process grid a constructed space ends up with. Whenever
    [TensorProductSpace.__init__] succeeds: if it was given a [Subcomm],
    then [slab] was false, the [Subcomm] has one entry per basis, its entry
    for the last pipeline axis has size one, and the space uses it as it is;
    if it was given a communicator, the space uses
    [Subcomm(comm, dims)] where, without [slab], [dims] is zero everywhere
    except for a one at the last pipeline axis, and with [slab] it is one
    everywhere except for the number of processes at the first pipeline
    axis. *)
Theorem construction_process_grid :
  forall (Subcomm_new : Z -> list Z -> list Z)
         (decompose : list Z -> list Z -> Z -> list Z * list Z)
         (plan_output : basis -> list Z -> Z -> dtype -> list Z * dtype)
         (run_xfftn : basis -> ndarray -> ndarray)
         (run_transfer : transfer_op -> ndarray -> ndarray)
         (lambdify_bc : bcval -> bcval -> TensorProductSpace.t
                        -> result (bcval * bcval))
         (c : comm_arg) (bs : list basis) (a : axes_arg) (dt : option dtype)
         (slab : bool) (T : TensorProductSpace.t),
    TensorProductSpace_init Subcomm_new decompose plan_output run_xfftn
      run_transfer lambdify_bc c bs a dt slab = Ok T ->
    let axes0 := resolved_axes a (Z.of_nat (length bs)) in
    TensorProductSpace.comm T = c /\
    match c with
    | Subcomm sizes =>
        slab = false /\ length sizes = length bs /\
        py_nth sizes (last axes0 0) = Ok 1 /\
        TensorProductSpace.subcomm T = sizes
    | Comm nprocs =>
        TensorProductSpace.subcomm T
        = Subcomm_new nprocs
            (if slab
             then replace_at (Z.to_nat (hd 0 axes0)) nprocs
                    (repeat 1 (length bs))
             else replace_at (Z.to_nat (last axes0 0)) 1
                    (repeat 0 (length bs)))
    end.
Proof.
  intros Subcomm_new decompose plan_output run_xfftn run_transfer lambdify_bc
         c bs a dt slab T H axes0.
  assert (Hlen : length (TensorProductSpace.shape_of bs) = length bs)
    by (unfold TensorProductSpace.shape_of; apply length_map).
  unfold TensorProductSpace_init, init in H. cbv zeta in H.
  rewrite !Hlen in H.
  apply bind_ok_inv in H as (u1 & _ & H).
  apply bind_ok_inv in H as (lo & _ & H).
  apply bind_ok_inv in H as (u2 & _ & H).
  apply bind_ok_inv in H as (ax0 & Hax & H).
  apply bind_ok_inv in H as (last0 & Hlast & H).
  apply bind_ok_inv in H as (lastb & _ & H).
  apply bind_ok_inv in H as (dt0 & _ & H).
  apply bind_ok_inv in H as (sc & Hsc & H).
  apply bind_ok_inv in H as ([[bs1 s0] odt] & _ & H).
  apply bind_ok_inv in H as ([[pA dt1] sh1] & _ & H).
  apply bind_ok_inv in H as (acc & _ & H).
  pose proof (wire_bcs_same_layout _ _ _ _ _ _ H)
    as (_ & _ & _ & _ & _ & Hsub & Hcomm & _).
  clear H. cbn [TensorProductSpace.subcomm TensorProductSpace.comm] in Hsub, Hcomm.
  apply resolve_axes_spec in Hax as [Eax (Hne & _)].
  fold axes0 in Eax. subst ax0.
  rewrite (py_nth_last axes0 0 Hne) in Hlast. injection Hlast as <-.
  split; [symmetry; exact Hcomm |].
  rewrite <- Hsub. clear Hsub Hcomm.
  unfold resolve_subcomm in Hsc.
  rewrite (py_nth_last axes0 0 Hne) in Hsc. cbv beta iota delta [bind] in Hsc.
  destruct c as [nprocs | sizes].
  - destruct slab.
    + destruct axes0 as [| x t] eqn:E; [contradiction |].
      change (py_nth (x :: t) 0) with (Ok (A := Z) x) in Hsc.
      cbv beta iota in Hsc. injection Hsc as <-. reflexivity.
    + injection Hsc as <-. reflexivity.
  - destruct slab; [discriminate Hsc |].
    assert (A1 : negb false = true) by reflexivity.
    cbn [negb assert] in Hsc. cbv beta iota in Hsc.
    fold (bind (assert (Nat.eqb (length sizes) (length bs)))
            (fun _ => sz <- py_nth sizes (last axes0 0) ;;
                      _ <- assert (sz =? 1) ;; Ok sizes)) in Hsc.
    apply bind_ok_inv in Hsc as (v2 & A2 & Hsc). apply assert_ok_inv in A2.
    apply bind_ok_inv in Hsc as (sz & Hsz & Hsc).
    apply bind_ok_inv in Hsc as (v3 & A3 & Hsc). apply assert_ok_inv in A3.
    injection Hsc as <-.
    apply Z.eqb_eq in A3. subst sz.
    apply Nat.eqb_eq in A2.
    split; [reflexivity |].
    split; [exact A2 |]. split; [exact Hsz | reflexivity].
Qed.

Lemma construction_process_grid_witness :
  serial_init (Comm 1) [fourier_basis R2CBasis 8; fourier_basis C2CBasis 8]
    (AxesSeq [-1; 0]) None false = Ok swapped_space /\
  TensorProductSpace.subcomm swapped_space = serial_Subcomm 1 [1; 0].
Proof.
  assert (H : serial_init (Comm 1)
                [fourier_basis R2CBasis 8; fourier_basis C2CBasis 8]
                (AxesSeq [-1; 0]) None false = Ok swapped_space)
    by (vm_compute; reflexivity).
  split; [exact H |].
  exact (proj2 (construction_process_grid serial_Subcomm
                  serial_decompose serial_plan_output serial_xfftn
                  serial_transfer serial_lambdify (Comm 1)
                  [fourier_basis R2CBasis 8; fourier_basis C2CBasis 8]
                  (AxesSeq [-1; 0]) None false swapped_space H)).
Defined.
